(* ===== verification/_CoqProject ===== *)
-Q . S2P
Prelude.v
Collect.v
Limits.v
Floats.v
Engine.v
Engines.v
Machine.v
Spec.v
Scenarios.v
Lifecycle.v
Abstract.v
Errors.v
Recover.v
Observe.v
Rekey.v
Streaming.v
Bounds.v
Guarantees.v
Catch.v
Retry.v
Stacked.v
Natural.v
Ordering.v
Widen.v
