(* ===== verification/Prelude.v ===== *)
(** * libchaos: the machine adapter (include/chaos/machine.hh)

    ** The program

    [chaos::machine<engine>] is a class template that turns a concrete chaotic
    algorithm (the [engine]: a cipher, keyed generator or mixing function)
    into a streaming object with a uniform life cycle.  The adapter derives
    virtually and publicly from the engine, adds one data member, the active
    [key], and offers
      - the constructor [machine(key = {})],
      - the configuration methods [set_key], [set_space], [set_time],
      - [reset],
      - the static bounds [max()] and [min()],
      - the streaming operators [<<] (push), [>>] (pull) and [()] (pull,
        declared [noexcept]).
    Every method forwards to hooks of the engine: [__set_key], [__set_space],
    [__set_time], [__reset], [push], [pull]; the engine also supplies the
    types [size_cell], [size_push], [size_pull] and the constants
    [__default_key], [__default_time].  No engine is part of the repository's
    sources: the engine is the adapter's only collaborator, and the
    specification describes it as a contract.

    ** The files, in dependency order

    - [Prelude] (this file).  The semantics of C++ member-function bodies
      that the other files are written in.  A computation [comp E S A] takes
      the object's state and ends in one of three ways: a normal return
      [Returns s a], an exception [Throws s e] that leaves the state as
      mutated up to the throw, or [Terminates] (std::terminate, which a
      violated [noexcept] calls).  Sequencing is [let* x := c in k] and
      [c ;; k] in the scope [comp_scope]; [zoom] runs a computation on a
      sub-object through a [Lens]; [noexcept] is the function specifier.
      Pointwise equality of computations is the setoid [≡], with [Proper]
      instances for the combinators; [post], [preserves] and [establishes]
      say what holds of the state a computation leaves however it ends.  The
      tactics [comp_unfold], [comp_cases], [comp_solve] and the hint
      database [comp] automate the routine steps.
    - [Collect].  Operations run one after the other on one object, the
      first that does not return ending the sequence ([collect]); how such
      a sequence splits, where it fails ([failure_of]), when it is total;
      two runs side by side, on states of one type or of two
      ([outcome_rel], [collect_rel]), also under a conversion of values and
      exceptions ([outcome_sim], [collect_sim]).  The sequences of hooks
      and the sessions of calls are instances.
    - [Limits].  The fixed-width integer types an engine may choose for its
      blocks ([int_type], [word]), conversion to a width ([wrap]), and the
      trait [std::numeric_limits] as the class [numeric_limits] ([max()],
      [lowest()], [min()] and the comparison of the type) with the laws of
      an integer type.
    - [Floats].  The floating-point types binary32 and binary64 ([float]) on
      the Standard Library's [SpecFloat], their [numeric_limits], and which
      values the limits bound.
    - [Engine].  The engine contract: the class [Engine] lists the members
      of the template parameter that machine.hh names, under the names of
      the source; [hook_of], [hook], [run_hook], [run_hooks] are hook calls
      as data, over the types of cells and blocks, so that engines with the
      same types share them; [EngineView], [EngineLaws], [EngineKeyLaws],
      [EngineRound], [EngineTotal] and [EngineDec] state what the
      specification asks of a conforming engine.
    - [Engines].  Engines that instantiate the contract: [tracer E] has the
      types of an engine [E] and logs the hooks it receives, [mixer] is a
      lawful and total 32-bit keyed generator with a round counter, [strict]
      is the mixer with argument checks that throw the exceptions of
      <stdexcept>, [echo] hands back the floating-point block it was fed.
      They are test engines of this development and model no code of the
      repository.
    - [Machine].  The adapter: the object state [machine] (engine sub-object
      [base] and [key]), one definition per member function of machine.hh
      written as its body is ([set_key], [set_space], [set_time], [reset],
      [max], [min], [operator_shl], [operator_shr], [operator_call]), the
      constructor ([machine_ctor] from [raw_machine], [construct]), the
      public interface as the data type [call_of] ([call] at the types of
      the engine) with [run_call], sessions ([run_calls]) and the objects a
      caller can hold ([reachable]).  Its lemmas say how each body runs on
      the engine sub-object.
    - [Spec].  The abstract specification: the hooks each call makes in
      order ([hooks_of], [hooks_of_ctor]), the cached key after it
      ([key_after]), how it ends ([spec_call], [spec_construct]), the same
      for sessions ([session_hooks], [session_key]); and the refinement
      theorems, that the member functions implement it on every engine.
    - [Scenarios].  The key [1, 2, 3, 4] of the specification's scenario and
      the objects it constructs on each engine, for the witnesses.
    - [Lifecycle].  On a lawful engine: the key is never empty, construction
      and [set_key] set the space to the key's length, [reset] restores the
      constructed object after any streaming, depends on key, space and time
      only, and makes replay deterministic; [set_space] breaks the link
      between space and key.  On every engine: the key read back from an
      object constructs it again.
    - [Abstract].  The specification's data model as a machine of its own:
      the triple of key, space and time ([config]), what construction and
      each call do to it ([cfg_init], [cfg_step]; [cfg_throws] for a call
      that throws), and the simulation theorem: on a lawful engine the
      adapter object, read through [abs], moves as the triple does.
    - [Errors].  Exceptions of hooks pass through unchanged and leave the
      object mutated up to the throw; [operator()] terminates the program
      where [operator>>] throws; [set_key] hands the engine the caller's key
      and, when it fails, leaves the new key for the next [reset]; a session
      throws or terminates exactly where its first failing call does; on a
      total engine the adapter never fails.
    - [Recover].  From any object, [set_key(k); set_time(default);
      reset()] leads back to the object the constructor returns for [k].
    - [Observe].  What a caller can tell about an object from the blocks
      and exceptions of its calls ([trace]); observational equivalence
      ([obs_eq]) as an [Equivalence] with [Proper] instances for the calls,
      and as the largest [bisimulation]; the adapter adds no observable
      state but the key, and the key is read by [reset] only.
    - [Rekey].  On an engine whose key installation replaces the keyed
      state ([EngineKeyLaws]): a key update overwrites the key updates
      before it, and the specification's scenario
      [set_key(K1); set_key(K2); set_key(K1)].  On an engine whose key
      installation leaves its round counter alone ([EngineRound]): key
      updates do not restart the stream.
    - [Streaming].  Chains of [<<] and [>>] ([shl_chain], [shr_chain]) and
      the number of blocks a session yields.
    - [Bounds].  [max()] and [min()] for a floating-point block type: the
      bounds of the finite blocks only, with [min()] the lowest value and
      not the smallest positive one; the values for the mixer's 32-bit
      blocks.
    - [Guarantees].  The exception guarantee of each call ([guarantee_of]:
      [NoThrow], [Strong], [Basic]) on an engine whose hooks leave the
      engine unchanged when they throw ([EngineStrong]), and what a call
      that throws does to key, space and time ([cfg_throws]).
    - [Catch].  A caller that catches: a call in a try block
      ([try_catch]), sessions of such calls and the events the caller sees
      ([try_calls], [event]), which leave exactly the [reachable] objects;
      the data model as a state machine labelled by events, as a relation
      ([cfg_next], [cfg_trace]) and as a function ([cfg_posts],
      [cfg_reach]), with its invariants by rule induction; the simulation
      of the adapter under such a caller.
    - [Retry].  A call that threw, made again on the object it left.
    - [Stacked].  [machine<E>] as the engine of an adapter ([adapted]): the
      object of [machine<machine<E>>], related to the plain object by
      [flat]; calls, sessions and constructions on the two.
    - [Natural].  Morphisms of engines ([morphism], [Natural]): conversions
      of cells, blocks and exceptions with a relation on the states that
      the hooks commute with; the adapter carries them over to sessions.
    - [Ordering].  The order of the hooks inside [set_key], [reset] and the
      constructor as the tracer logs it, the log of a whole session, and
      the replay of the log on the engine.
    - [Widen].  The conversion of binary32 blocks to binary64 blocks
      ([widen]): exact, monotone, within the bounds of the adapter, and a
      natural morphism between the echo engines of the two formats.

    ** Correspondence with the source

    Every member-function body is a [comp exn machine _] whose steps are the
    statements of the body in order.  [this->key = e] is [assign_key], a read
    of [this->key] is [read_key], [key.size() != 0 ? key : __default_key] is
    [resolve], and a call [this->__hook(args)] is [on_engine (__hook args)],
    which runs the hook on the engine sub-object and leaves [key] alone.  In
    [set_key] the parameter [key] hides the member, in the model as in the
    source.  [size_t] is [nat]: the adapter does no arithmetic on it.  A
    [std::vector<size_cell>] passed by value is a [list size_cell]; copies
    cannot alias.  The constructor's body starts from [raw_machine], the
    default-constructed engine and the empty [key]; an exception in it
    leaves no object ([construct]).  [operator>>] yields the block it writes
    to its reference parameter.

    ** What the theorems show

    - Life cycle: the active key is never empty in any reachable object,
      exceptions included; construction and [set_key] set the space to the
      key's length; [reset] brings a lawful engine back to the constructed
      object; a reset followed by streaming is deterministic.
    - Refinement: each call, each session and the construction are their
      sequences of hook calls, for every engine and every outcome; on a
      lawful engine the object implements the data model of key, space and
      time.  The hook sequence is what the bodies themselves log when they
      run on the tracer, and replaying the log on an engine is running the
      session on it: the statement needs no specification of the hooks.
    - Recovery: on a lawful and total engine the state of construction can
      be reached again from every object.
    - Observation: objects are compared by what their calls return and
      throw; engines that cannot be told apart give adapters that cannot be
      told apart, and the key shows at a [reset] only.
    - Errors: an exception of a hook propagates unchanged and the later
      statements do not run; a session throws exactly when the hooks of
      the calls at its head return and those of the next call, which is
      not [operator()], throw; a failed [set_key] keeps the new key cached;
      [operator()] terminates the program where [operator>>] would throw.
      Where the hooks give the strong exception guarantee, so do
      [set_space], [set_time], [<<] and [>>]; [set_key] and [reset] give
      the basic guarantee only, and of key, space and time a failed call
      changes nothing, but for a failed [set_key], which has replaced the
      key and may have set the space.
    - Catching callers: on a lawful engine whose hooks give the strong
      guarantee, an object used by a caller that catches every exception
      moves through a run of the data model's state machine; a call that
      threw counts for nothing in key, space and time, but for a [set_key],
      whose key counts as if it had returned and whose space may or may
      not be set; and a call that threw throws again, or terminates, when
      it is repeated at once on the object it left.
    - Routing: the adapter reads nothing of a key but its length and
      nothing of a block: a conversion of cells, blocks and exceptions that
      the hooks of two engines commute with is carried over to every
      session on their adapters; the conversion of [float] blocks to
      [double] blocks is one.
    - Composition: an adapter stacked on an adapter behaves as the adapter:
      every session ends alike on [machine<machine<E>>] and on
      [machine<E>], for a lawful engine [E].
    - Key updates: where the engine's key installation replaces the keyed
      state, only the last of a run of key updates counts, for the object
      and for every block extracted afterwards; where it leaves the
      engine's round counter alone, so do key updates, which are not
      resets.
    - Bounds: for a floating-point block type the finite blocks lie
      between [min()] and [max()], the infinities and NaN do not.  For an
      integer block type the two are the limits of the type by the laws of
      [numeric_limits], which [Limits] proves of the fixed-width types;
      the development states no theorem of its own about them.
    - Where the code and its specification part, the code's behaviour is a
      theorem: [set_key] hands the engine the caller's key, so an empty key
      reaches [__set_key]; the public [set_space] breaks "space equals the
      key's length".

    ** Bounds and fuel

    No definition uses fuel: every body is a finite sequence of hook calls,
    and sessions, chains and runs of the state machine recurse on their
    list or count.  Theorems that
    promise a result state it outright for total engines and, for engines
    that may throw, under the hypothesis that the hook in question returns.
    Integers of the engines are kept at their width by [wrap]; the widths
    are 8, 16, 32 and 64 bits, signed and unsigned.  Floating-point values
    are those of binary32 and binary64; the engines of this development do
    no arithmetic on them.  [sf_units] counts a value in units of 2^-1074,
    the smallest positive value of binary64, so that every finite value of
    either format is an integer.

    ** Not modelled

    Floating-point arithmetic (the engines of this development only pass
    floating-point blocks on, and [Widen] converts them without
    rounding); the long double and the character types;
    allocation failure (std::bad_alloc from a
    vector copy); an engine whose hooks change [__default_key] or
    [__default_time] (the source reads the two through [this], at lines
    54, 57 and 65; the model has them as constants of the engine); hooks
    whose outcome depends on more than the engine's state and their
    arguments; an engine whose default constructor throws (and so, in
    [Stacked], an inner adapter whose default construction throws: the
    theorem there assumes that it returns); concurrent use (undefined by
    the specification); copies and moves of adapter objects (an object is a
    value here, so a copy is the object itself); hooks called by a caller
    on the object directly are not calls of the interface [call], since the
    access the engine gives its members is not known: [Stacked] has them as
    the hooks of [adapted], and the theorems that hold of every object
    ([Recover], [Observe]) cover the objects they leave; the engines of the
    library and chaos/types.hh, whose sources are not part of the
    repository.  machine.hh has 86 lines; the lines outside the class and
    its member definitions are the include guard, the includes and the
    namespace, which have no behaviour to model.

    ** Plan

    Done: the adapter's state, member functions and constructor, their
    refinement to hook sequences and to the data model, the life-cycle
    invariants, errors, [noexcept] and termination, recovery, observational
    equivalence, bounds, operator chains and runs of key updates, the
    tracer and the replay of its log, exception guarantees and the data
    model of failed calls, stacked adapters, the round counter under key
    updates, morphisms of engines, callers that catch and the data model
    as a state machine with failures, the conversion between the block
    types binary32 and binary64 as a morphism.  Next: engines with
    floating-point arithmetic, whose rounding the Standard Library's
    [SpecFloat] defines and states no lemmas of. *)

From Stdlib Require Import ZArith Lia List.
From stdpp Require Import prelude.

#[export] Set Warnings "-clear-no-such-hyp".

(** * Outcomes of a method call *)

Inductive outcome (E S A : Type) : Type :=
| Returns (s : S) (a : A)
| Throws (s : S) (e : E)
| Terminates.

Arguments Returns {E S A} s a.
Arguments Throws {E S A} s e.
Arguments Terminates {E S A}.

#[export] Instance outcome_eq_dec {E S A : Type}
  `{!EqDecision E, !EqDecision S, !EqDecision A} : EqDecision (outcome E S A).
Proof. solve_decision. Defined.

(** A computation over an object of type [S] that may throw an [E]. *)
Definition comp (E S A : Type) : Type := S -> outcome E S A.

Section Comp.
Context {E S : Type}.

Definition ret {A} (a : A) : comp E S A := fun s => Returns s a.

Definition bind {A B} (c : comp E S A) (k : A -> comp E S B) : comp E S B :=
  fun s =>
    match c s with
    | Returns s' a => k a s'
    | Throws s' e => Throws s' e
    | Terminates => Terminates
    end.

Definition throw {A} (e : E) : comp E S A := fun s => Throws s e.

Definition get : comp E S S := fun s => Returns s s.

Definition gets {A} (f : S -> A) : comp E S A := fun s => Returns s (f s).

Definition put (s : S) : comp E S unit := fun _ => Returns s tt.

Definition modify (f : S -> S) : comp E S unit := fun s => Returns (f s) tt.

(** A function declared [noexcept]: an exception that would leave it calls
    std::terminate instead. *)
Definition noexcept {A} (c : comp E S A) : comp E S A :=
  fun s =>
    match c s with
    | Throws _ _ => Terminates
    | o => o
    end.

(** Run a computation of a sub-object [T] inside the object [S]. *)
Definition zoom {T A} (proj : S -> T) (upd : T -> S -> S)
    (c : comp E T A) : comp E S A :=
  fun s =>
    match c (proj s) with
    | Returns t a => Returns (upd t s) a
    | Throws t e => Throws (upd t s) e
    | Terminates => Terminates
    end.

End Comp.

(** * What an outcome leaves behind *)

Definition state_of {E S A} (o : outcome E S A) : option S :=
  match o with
  | Returns s _ | Throws s _ => Some s
  | Terminates => None
  end.

Definition value_of {E S A} (o : outcome E S A) : option A :=
  match o with
  | Returns _ a => Some a
  | _ => None
  end.

Definition thrown {E S A} (o : outcome E S A) : option E :=
  match o with
  | Throws _ e => Some e
  | _ => None
  end.

Definition returns {E S A} (o : outcome E S A) : bool :=
  match o with
  | Returns _ _ => true
  | _ => false
  end.

(** [post P o]: [P] holds of the state [o] leaves, however it ended. *)
Definition post {E S A} (P : S -> Prop) (o : outcome E S A) : Prop :=
  match o with
  | Returns s _ | Throws s _ => P s
  | Terminates => True
  end.

(** [preserves P c]: from a state with [P], [c] leaves a state with [P]. *)
Definition preserves {E S A} (P : S -> Prop) (c : comp E S A) : Prop :=
  forall s, P s -> post P (c s).

(** [establishes P c]: [c] leaves a state with [P] from any state. *)
Definition establishes {E S A} (P : S -> Prop) (c : comp E S A) : Prop :=
  forall s, post P (c s).

(** * Notation *)

Declare Scope comp_scope.
Delimit Scope comp_scope with comp.
Bind Scope comp_scope with comp.

Notation "'let*' x ':=' c1 'in' c2" := (bind c1 (fun x => c2))
  (at level 10, x binder, c1 at level 100, c2 at level 200) : comp_scope.
Notation "c1 ;; c2" := (bind c1 (fun _ => c2))
  (at level 100, c2 at level 200, right associativity) : comp_scope.

Local Open Scope comp_scope.

(** * Automation *)

Create HintDb comp discriminated.
Create Rewrite HintDb comp.

(** Unfold the combinators wherever they are applied. *)
Ltac comp_unfold :=
  unfold bind, ret, throw, get, gets, put, modify, noexcept, zoom,
    state_of, value_of, thrown, returns, post, preserves, establishes in *.

(** Unfold, split on every hook result that is scrutinised, and clean up. *)
Ltac comp_cases :=
  comp_unfold; intros; repeat (case_match; simplify_eq/=); simplify_eq/=.

(** Close a goal about computations by cases and the [comp] hints. *)
Ltac comp_solve := comp_cases; eauto with comp.

(** * Pointwise equality of computations *)

#[export] Instance comp_equiv {E S A : Type} : Equiv (comp E S A) :=
  fun c1 c2 => forall s, c1 s = c2 s.

#[export] Instance comp_equivalence {E S A : Type} :
  Equivalence (≡@{comp E S A}).
Proof.
  split.
  - by intros c s.
  - by intros c1 c2 H s.
  - intros c1 c2 c3 H12 H23 s. by rewrite H12.
Qed.

#[export] Instance bind_proper {E S A B : Type} :
  Proper ((≡) ==> pointwise_relation A (≡) ==> (≡)) (@bind E S A B).
Proof.
  intros c1 c2 Hc k1 k2 Hk s. unfold bind. rewrite Hc.
  destruct (c2 s); [apply Hk | done | done].
Qed.

#[export] Instance noexcept_proper {E S A : Type} :
  Proper ((≡) ==> (≡)) (@noexcept E S A).
Proof. intros c1 c2 Hc s. unfold noexcept. by rewrite Hc. Qed.

#[export] Instance zoom_proper {E S T A : Type} (proj : S -> T) (upd : T -> S -> S) :
  Proper ((≡) ==> (≡)) (@zoom E S T A proj upd).
Proof. intros c1 c2 Hc s. unfold zoom. by rewrite Hc. Qed.

(** * The monad laws and the shape of a sequence's outcome *)

Section CompLaws.
Context {E S : Type}.
Implicit Types (s : S) (e : E).

Lemma bind_ret_l {A B} (a : A) (k : A -> comp E S B) : bind (ret a) k ≡ k a.
Proof. done. Qed.

Lemma bind_ret_r {A} (c : comp E S A) : bind c ret ≡ c.
Proof. intros s. unfold bind, ret. by destruct (c s). Qed.

Lemma bind_assoc {A B C} (c : comp E S A) (k : A -> comp E S B)
    (h : B -> comp E S C) :
  bind (bind c k) h ≡ bind c (fun a => bind (k a) h).
Proof. intros s. unfold bind. by destruct (c s). Qed.

Lemma bind_throw {A B} e (k : A -> comp E S B) : bind (throw e) k ≡ throw e.
Proof. done. Qed.

Lemma bind_returns {A B} (c : comp E S A) (k : A -> comp E S B) s s2 b :
  bind c k s = Returns s2 b <->
  exists s1 a, c s = Returns s1 a /\ k a s1 = Returns s2 b.
Proof. unfold bind. destruct (c s); naive_solver. Qed.

Lemma bind_throws {A B} (c : comp E S A) (k : A -> comp E S B) s s2 e :
  bind c k s = Throws s2 e <->
  c s = Throws s2 e \/ exists s1 a, c s = Returns s1 a /\ k a s1 = Throws s2 e.
Proof. unfold bind. destruct (c s); naive_solver. Qed.

Lemma bind_terminates {A B} (c : comp E S A) (k : A -> comp E S B) s :
  bind c k s = Terminates <->
  c s = Terminates \/ exists s1 a, c s = Returns s1 a /\ k a s1 = Terminates.
Proof. unfold bind. destruct (c s); naive_solver. Qed.

(** Running a sequence whose first step is known. *)
Lemma bind_run_returns {A B} (c : comp E S A) (k : A -> comp E S B) s s1 a :
  c s = Returns s1 a -> bind c k s = k a s1.
Proof. unfold bind. by intros ->. Qed.

Lemma bind_run_throws {A B} (c : comp E S A) (k : A -> comp E S B) s s1 e :
  c s = Throws s1 e -> bind c k s = Throws s1 e.
Proof. unfold bind. by intros ->. Qed.

Lemma bind_run_terminates {A B} (c : comp E S A) (k : A -> comp E S B) s :
  c s = Terminates -> bind c k s = Terminates.
Proof. unfold bind. by intros ->. Qed.

(** [noexcept] changes nothing but a throw. *)
Lemma noexcept_returns {A} (c : comp E S A) s s1 a :
  noexcept c s = Returns s1 a <-> c s = Returns s1 a.
Proof. unfold noexcept. destruct (c s); naive_solver. Qed.

Lemma noexcept_never_throws {A} (c : comp E S A) s : thrown (noexcept c s) = None.
Proof. unfold noexcept, thrown. by destruct (c s). Qed.

Lemma noexcept_terminates {A} (c : comp E S A) s :
  noexcept c s = Terminates <->
  c s = Terminates \/ exists s1 e, c s = Throws s1 e.
Proof. unfold noexcept. destruct (c s); naive_solver. Qed.

Lemma noexcept_idemp {A} (c : comp E S A) : noexcept (noexcept c) ≡ noexcept c.
Proof. intros s. unfold noexcept. by destruct (c s). Qed.

End CompLaws.

(** * Sub-objects: a projection with its update *)

(** [proj] reads the sub-object and [upd] replaces it.  The C++ object layout
    gives the three laws: what is written is read back, writing what was read
    changes nothing, and the later of two writes wins. *)
Class Lens {S T : Type} (proj : S -> T) (upd : T -> S -> S) : Prop := {
  lens_proj_upd t s : proj (upd t s) = t;
  lens_upd_proj s : upd (proj s) s = s;
  lens_upd_upd t1 t2 s : upd t2 (upd t1 s) = upd t2 s;
}.

Section Zoom.
Context {E S T : Type} (proj : S -> T) (upd : T -> S -> S) `{!Lens proj upd}.

Lemma zoom_ret {A} (a : A) : zoom proj upd (ret (E:=E) a) ≡ ret a.
Proof. intros s. unfold zoom, ret. by rewrite lens_upd_proj. Qed.

Lemma zoom_bind {A B} (c : comp E T A) (k : A -> comp E T B) :
  zoom proj upd (bind c k) ≡ bind (zoom proj upd c) (fun a => zoom proj upd (k a)).
Proof.
  intros s. unfold zoom, bind. destruct (c (proj s)) as [t a|t e|]; [|done..].
  rewrite lens_proj_upd. by destruct (k a t); rewrite ?lens_upd_upd.
Qed.

Lemma zoom_noexcept {A} (c : comp E T A) :
  zoom proj upd (noexcept c) ≡ noexcept (zoom proj upd c).
Proof. intros s. unfold zoom, noexcept. by destruct (c (proj s)). Qed.

(** The outcome of a zoomed computation, read off the sub-object's. *)
Lemma zoom_returns {A} (c : comp E T A) s s1 a :
  zoom proj upd c s = Returns s1 a <->
  exists t, c (proj s) = Returns t a /\ s1 = upd t s.
Proof. unfold zoom. destruct (c (proj s)); naive_solver. Qed.

Lemma zoom_throws {A} (c : comp E T A) s s1 e :
  zoom proj upd c s = Throws s1 e <->
  exists t, c (proj s) = Throws t e /\ s1 = upd t s.
Proof. unfold zoom. destruct (c (proj s)); naive_solver. Qed.

Lemma zoom_terminates {A} (c : comp E T A) s :
  zoom proj upd c s = Terminates <-> c (proj s) = Terminates.
Proof. unfold zoom. destruct (c (proj s)); naive_solver. Qed.

(** Whatever the rest of the object satisfies, a zoomed computation keeps:
    [P] must not depend on the sub-object. *)
Lemma zoom_preserves {A} (P : S -> Prop) (c : comp E T A) :
  (forall t s, P s -> P (upd t s)) -> preserves P (zoom proj upd c).
Proof. intros HP s Hs. unfold zoom, post. destruct (c (proj s)); auto. Qed.

(** A property of the sub-object alone is kept if the computation keeps it. *)
Lemma zoom_preserves_sub {A} (Q : T -> Prop) (c : comp E T A) :
  preserves Q c -> preserves (fun s => Q (proj s)) (zoom proj upd c).
Proof.
  intros HQ s Hs. specialize (HQ _ Hs). unfold zoom, post in *.
  destruct (c (proj s)); rewrite ?lens_proj_upd; auto.
Qed.

End Zoom.

(** * Reasoning about the state a computation leaves *)

Section Post.
Context {E S : Type}.
Implicit Types (P Q : S -> Prop).

Lemma post_impl {A} P Q (o : outcome E S A) :
  (forall s, P s -> Q s) -> post P o -> post Q o.
Proof. destruct o; simpl; auto. Qed.

Lemma post_state_of {A} P (o : outcome E S A) :
  post P o <-> forall s, state_of o = Some s -> P s.
Proof. destruct o; simpl; naive_solver. Qed.

Lemma post_bind {A B} P (c : comp E S A) (k : A -> comp E S B) s :
  post P (c s) ->
  (forall s1 a, c s = Returns s1 a -> post P (k a s1)) ->
  post P (bind c k s).
Proof. unfold bind. destruct (c s); simpl; auto. Qed.

Lemma preserves_ret {A} P (a : A) : preserves P (ret (E:=E) a).
Proof. by intros s Hs. Qed.

Lemma preserves_gets {A} P (f : S -> A) : preserves P (gets (E:=E) f).
Proof. by intros s Hs. Qed.

Lemma preserves_throw {A} P (e : E) : preserves P (throw (A:=A) e).
Proof. by intros s Hs. Qed.

Lemma preserves_bind {A B} P (c : comp E S A) (k : A -> comp E S B) :
  preserves P c -> (forall a, preserves P (k a)) -> preserves P (bind c k).
Proof.
  intros Hc Hk s Hs. apply post_bind; [by apply Hc|].
  intros s1 a Hr. apply Hk. specialize (Hc _ Hs). by rewrite Hr in Hc.
Qed.

Lemma preserves_noexcept {A} P (c : comp E S A) :
  preserves P c -> preserves P (noexcept c).
Proof.
  intros Hc s Hs. specialize (Hc _ Hs). unfold noexcept. by destruct (c s).
Qed.

Lemma preserves_modify P (f : S -> S) :
  (forall s, P s -> P (f s)) -> preserves P (modify (E:=E) f).
Proof. intros Hf s Hs. by apply Hf. Qed.

Lemma establishes_preserves {A} P (c : comp E S A) :
  establishes P c -> preserves P c.
Proof. intros Hc s _. apply Hc. Qed.

(** Once a step has established [P], steps that keep it may follow. *)
Lemma establishes_bind {A B} P (c : comp E S A) (k : A -> comp E S B) :
  establishes P c -> (forall a, preserves P (k a)) -> establishes P (bind c k).
Proof.
  intros Hc Hk s. apply post_bind; [apply Hc|].
  intros s1 a Hr. apply Hk. specialize (Hc s). by rewrite Hr in Hc.
Qed.

End Post.

#[export] Hint Resolve preserves_ret preserves_gets preserves_throw
  preserves_bind preserves_noexcept preserves_modify zoom_preserves
  establishes_preserves establishes_bind : comp.

#[export] Hint Rewrite @bind_run_returns @bind_run_throws @bind_run_terminates
  using eassumption : comp.

(** * Lists *)

Lemma length_zero_iff {A} (l : list A) : length l = 0 <-> l = [].
Proof. by destruct l. Qed.

Lemma eqb_length_nil {A} (l : list A) : (length l =? 0) = true <-> l = [].
Proof. rewrite Nat.eqb_eq. apply length_zero_iff. Qed.

Lemma eqb_length_cons {A} (l : list A) : (length l =? 0) = false <-> l <> [].
Proof. rewrite Nat.eqb_neq. by rewrite length_zero_iff. Qed.
