(* ===== verification/Collect.v ===== *)
(** * Collect: sequences of operations on one object

    A caller runs operations one after the other on the same object and
    keeps the values they yield; the first operation that does not return
    ends the sequence.  [collect] is this traversal, for any kind of
    operation: the sequences of hook calls of [Engine] and the sessions of
    calls of [Machine] are instances, and share the lemmas below: how a
    sequence splits, where it fails, when it is total, what it keeps
    invariant.  [failure_of] is how an outcome that is not a return ended;
    [outcome_rel] relates two outcomes that end the same way in related
    states, for reasoning about two runs side by side; [outcome_sim] does
    so under a conversion of the values and the exceptions. *)

From stdpp Require Import prelude.
From S2P Require Import Prelude.

Local Open Scope comp_scope.

(** * Failures *)

(** How a computation that did not return ended. *)
Inductive failure (E S : Type) : Type :=
| Threw (s : S) (e : E)
| Terminated.

Arguments Threw {E S} s e.
Arguments Terminated {E S}.

Definition failure_of {E S A} (o : outcome E S A) : option (failure E S) :=
  match o with
  | Returns _ _ => None
  | Throws s e => Some (Threw s e)
  | Terminates => Some Terminated
  end.

(** * Two outcomes side by side *)

(** The outcomes end the same way, with the same value or exception, in
    states related by [R].  The two runs may be on states of different
    types: an object and a model of it, or two layers of one object. *)
Definition outcome_rel {E S1 S2 A} (R : S1 -> S2 -> Prop) :
    outcome E S1 A -> outcome E S2 A -> Prop :=
  fun o1 o2 =>
    match o1, o2 with
    | Returns s1 a1, Returns s2 a2 => R s1 s2 ∧ a1 = a2
    | Throws s1 e1, Throws s2 e2 => R s1 s2 ∧ e1 = e2
    | Terminates, Terminates => True
    | _, _ => False
    end.

(** * The traversal *)

Section Collect.
Context {E S X A : Type}.
Implicit Types (f : X -> comp E S (option A)) (xs : list X) (s : S).

(** Run [f] on each element in order and collect the values yielded. *)
Fixpoint collect f xs : comp E S (list A) :=
  match xs with
  | [] => ret []
  | x :: xs' =>
      let* o := f x in
      let* bs := collect f xs' in
      ret (option_list o ++ bs)
  end.

End Collect.

(** * Failures and outcomes *)

Section Outcomes.
Context {E S : Type}.

Lemma failure_of_None {A} (o : outcome E S A) :
  failure_of o = None <-> returns o = true.
Proof. by destruct o. Qed.

Lemma failure_of_throws {A} (o : outcome E S A) s e :
  failure_of o = Some (Threw s e) <-> o = Throws s e.
Proof. destruct o; naive_solver. Qed.

Lemma failure_of_terminates {A} (o : outcome E S A) :
  failure_of o = Some Terminated <-> o = Terminates.
Proof. destruct o; naive_solver. Qed.

(** A failure of the first step is the failure of the sequence. *)
Lemma failure_of_bind {A B} (c : comp E S A) (k : A -> comp E S B) s w :
  failure_of (bind c k s) = Some w <->
  failure_of (c s) = Some w ∨
  exists s1 a, c s = Returns s1 a ∧ failure_of (k a s1) = Some w.
Proof. unfold bind. destruct (c s); naive_solver. Qed.

Lemma failure_of_bind_ret {A B} (c : comp E S A) (g : A -> B) s :
  failure_of ((let* a := c in ret (g a)) s) = failure_of (c s).
Proof. unfold bind, ret. by destruct (c s). Qed.

#[export] Instance outcome_rel_reflexive {A} (R : relation S) `{!Reflexive R} :
  Reflexive (outcome_rel (E:=E) (A:=A) R).
Proof. by intros []. Qed.

#[export] Instance outcome_rel_symmetric {A} (R : relation S) `{!Symmetric R} :
  Symmetric (outcome_rel (E:=E) (A:=A) R).
Proof. intros [] []; simpl; naive_solver. Qed.

#[export] Instance outcome_rel_transitive {A} (R : relation S) `{!Transitive R} :
  Transitive (outcome_rel (E:=E) (A:=A) R).
Proof.
  intros [] [] []; simpl; try done; intros [? ->] [? ->]; (split; [by etrans|done]).
Qed.

End Outcomes.

Section OutcomeRel.
Context {E S1 S2 : Type}.
Implicit Types (R : S1 -> S2 -> Prop).

Lemma outcome_rel_impl {A} R R' (o1 : outcome E S1 A) (o2 : outcome E S2 A) :
  (forall s1 s2, R s1 s2 -> R' s1 s2) -> outcome_rel R o1 o2 -> outcome_rel R' o1 o2.
Proof. destruct o1, o2; simpl; naive_solver. Qed.

(** Related outcomes fail alike or return alike. *)
Lemma outcome_rel_returns {A} R (o1 : outcome E S1 A) (o2 : outcome E S2 A) :
  outcome_rel R o1 o2 -> returns o1 = returns o2.
Proof. by destruct o1, o2. Qed.

Lemma outcome_rel_value {A} R (o1 : outcome E S1 A) (o2 : outcome E S2 A) :
  outcome_rel R o1 o2 -> value_of o1 = value_of o2 ∧ thrown o1 = thrown o2.
Proof. destruct o1, o2; simpl; naive_solver. Qed.

(** The sequence rule for two runs side by side. *)
Lemma outcome_rel_bind {A B} R (c1 : comp E S1 A) (c2 : comp E S2 A)
    (k1 : A -> comp E S1 B) (k2 : A -> comp E S2 B) s1 s2 :
  outcome_rel R (c1 s1) (c2 s2) ->
  (forall a t1 t2, R t1 t2 -> outcome_rel R (k1 a t1) (k2 a t2)) ->
  outcome_rel R (bind c1 k1 s1) (bind c2 k2 s2).
Proof.
  unfold bind. destruct (c1 s1), (c2 s2); simpl; try done.
  intros [? ->] Hk. by apply Hk.
Qed.

Lemma outcome_rel_noexcept {A} R (c1 : comp E S1 A) (c2 : comp E S2 A) s1 s2 :
  outcome_rel R (c1 s1) (c2 s2) -> outcome_rel R (noexcept c1 s1) (noexcept c2 s2).
Proof. unfold noexcept. by destruct (c1 s1), (c2 s2). Qed.

(** Two runs of a sequence from related states stay related, when each
    operation keeps them so. *)
Lemma collect_rel {X A} R (f1 : X -> comp E S1 (option A))
    (f2 : X -> comp E S2 (option A)) xs s1 s2 :
  (forall x t1 t2, R t1 t2 -> outcome_rel R (f1 x t1) (f2 x t2)) ->
  R s1 s2 -> outcome_rel R (collect f1 xs s1) (collect f2 xs s2).
Proof.
  intros Hf. revert s1 s2. induction xs as [|x xs IH]; intros s1 s2 Hs; [done|].
  simpl. apply outcome_rel_bind; [by apply Hf|]. intros o t1 t2 Ht.
  apply outcome_rel_bind; [by apply IH|]. by intros.
Qed.

End OutcomeRel.

(** * Two outcomes under a conversion *)

(** The outcomes end the same way in states related by [R], the value and
    the exception of the second being those of the first, converted. *)
Definition outcome_sim {X1 X2 S1 S2 A1 A2} (R : S1 -> S2 -> Prop) (x : X1 -> X2)
    (p : A1 -> A2) (o1 : outcome X1 S1 A1) (o2 : outcome X2 S2 A2) : Prop :=
  match o1, o2 with
  | Returns s1 a1, Returns s2 a2 => R s1 s2 ∧ a2 = p a1
  | Throws s1 e1, Throws s2 e2 => R s1 s2 ∧ e2 = x e1
  | Terminates, Terminates => True
  | _, _ => False
  end.

Section OutcomeSim.
Context {X1 X2 S1 S2 : Type}.
Context (R : S1 -> S2 -> Prop) (x : X1 -> X2).

(** With no conversion, [outcome_sim] is [outcome_rel]. *)
Lemma outcome_sim_rel {X S1' S2' A} (R' : S1' -> S2' -> Prop)
    (o1 : outcome X S1' A) (o2 : outcome X S2' A) :
  outcome_sim R' id id o1 o2 <-> outcome_rel R' o1 o2.
Proof. destruct o1, o2; simpl; naive_solver. Qed.

Lemma outcome_sim_impl {A1 A2} (R' : S1 -> S2 -> Prop) (p : A1 -> A2)
    (o1 : outcome X1 S1 A1) (o2 : outcome X2 S2 A2) :
  (forall s1 s2, R s1 s2 -> R' s1 s2) ->
  outcome_sim R x p o1 o2 -> outcome_sim R' x p o1 o2.
Proof. destruct o1, o2; simpl; naive_solver. Qed.

Lemma outcome_sim_ext {A1 A2} (x' : X1 -> X2) (p p' : A1 -> A2)
    (o1 : outcome X1 S1 A1) (o2 : outcome X2 S2 A2) :
  (forall e, x e = x' e) -> (forall a, p a = p' a) ->
  outcome_sim R x p o1 o2 -> outcome_sim R x' p' o1 o2.
Proof. intros Hx Hp. destruct o1, o2; simpl; rewrite <-?Hx, <-?Hp; naive_solver. Qed.

(** The sequence rule. *)
Lemma outcome_sim_bind {A1 A2 B1 B2} (p : A1 -> A2) (q : B1 -> B2)
    (c1 : comp X1 S1 A1) (c2 : comp X2 S2 A2)
    (k1 : A1 -> comp X1 S1 B1) (k2 : A2 -> comp X2 S2 B2) s1 s2 :
  outcome_sim R x p (c1 s1) (c2 s2) ->
  (forall a t1 t2, R t1 t2 -> outcome_sim R x q (k1 a t1) (k2 (p a) t2)) ->
  outcome_sim R x q (bind c1 k1 s1) (bind c2 k2 s2).
Proof.
  unfold bind. destruct (c1 s1), (c2 s2); simpl; try done.
  intros [? ->] Hk. by apply Hk.
Qed.

(** Two runs of a sequence and of the converted sequence stay related, when
    each operation and its conversion do. *)
Lemma collect_sim {Y1 Y2 A1 A2} (h : Y1 -> Y2) (p : A1 -> A2)
    (f1 : Y1 -> comp X1 S1 (option A1)) (f2 : Y2 -> comp X2 S2 (option A2)) ys s1 s2 :
  (forall y t1 t2, R t1 t2 -> outcome_sim R x (fmap p) (f1 y t1) (f2 (h y) t2)) ->
  R s1 s2 ->
  outcome_sim R x (fmap p) (collect f1 ys s1) (collect f2 (h <$> ys) s2).
Proof.
  intros Hf. revert s1 s2. induction ys as [|y ys IH]; intros s1 s2 Hs; [done|].
  simpl. eapply outcome_sim_bind; [by apply Hf|]. intros o t1 t2 Ht.
  eapply outcome_sim_bind; [by apply IH|]. intros bs u1 u2 Hu. split; [done|].
  rewrite fmap_app. by destruct o.
Qed.

End OutcomeSim.

(** * Lemmas on the traversal *)

Section CollectLemmas.
Context {E S X A : Type}.
Implicit Types (f : X -> comp E S (option A)) (xs : list X) (s : S).

Lemma collect_cons_returns f x xs s s' bs :
  collect f (x :: xs) s = Returns s' bs <->
  exists s1 o bs', f x s = Returns s1 o ∧
    collect f xs s1 = Returns s' bs' ∧ bs = option_list o ++ bs'.
Proof.
  simpl. rewrite bind_returns. setoid_rewrite bind_returns. unfold ret.
  naive_solver.
Qed.

Lemma collect_cons_failure f x xs s w :
  failure_of (collect f (x :: xs) s) = Some w <->
  failure_of (f x s) = Some w ∨
  exists s1 o, f x s = Returns s1 o ∧ failure_of (collect f xs s1) = Some w.
Proof.
  simpl. rewrite failure_of_bind. by setoid_rewrite failure_of_bind_ret.
Qed.

(** A sequence splits where the caller splits it. *)
Lemma collect_app f xs1 xs2 :
  collect f (xs1 ++ xs2) ≡
  (let* bs1 := collect f xs1 in
   let* bs2 := collect f xs2 in
   ret (bs1 ++ bs2)).
Proof.
  induction xs1 as [|x xs1 IH]; intros s; simpl; unfold bind, ret in *.
  - by destruct (collect f xs2 s).
  - destruct (f x s) as [s1 o| |]; [|done..]. rewrite IH.
    repeat case_match; simplify_eq; by rewrite ?app_assoc.
Qed.

Lemma collect_app_returns f xs1 xs2 s s' bs :
  collect f (xs1 ++ xs2) s = Returns s' bs <->
  exists s1 bs1 bs2, collect f xs1 s = Returns s1 bs1 ∧
    collect f xs2 s1 = Returns s' bs2 ∧ bs = bs1 ++ bs2.
Proof.
  rewrite (collect_app f xs1 xs2 s), bind_returns. setoid_rewrite bind_returns.
  unfold ret. naive_solver.
Qed.

Lemma collect_singleton f x :
  collect f [x] ≡ (let* o := f x in ret (option_list o)).
Proof.
  intros s. simpl. unfold bind, ret. destruct (f x s); [|done..].
  by rewrite app_nil_r.
Qed.

(** A sequence fails exactly where its first failing operation fails, after
    the operations before it returned; the operations after it are not
    run. *)
Lemma collect_failure f xs s w :
  failure_of (collect f xs s) = Some w <->
  exists xs1 x xs2 s1 bs,
    xs = xs1 ++ x :: xs2 ∧ collect f xs1 s = Returns s1 bs ∧
    failure_of (f x s1) = Some w.
Proof.
  revert s. induction xs as [|x0 xs IH]; intros s.
  - split; [done|]. by intros ([] & ? & ? & ? & ? & ? & _).
  - rewrite collect_cons_failure. setoid_rewrite IH. split.
    + intros [H|(s1 & o & H1 & xs1 & x & xs2 & s2 & bs & -> & H2 & H3)].
      * by exists [], x0, xs, s, [].
      * exists (x0 :: xs1), x, xs2, s2, (option_list o ++ bs).
        split_and!; [done| |done]. apply collect_cons_returns. eauto 10.
    + intros ([|x1 xs1] & x & xs2 & s2 & bs & [= -> ->] & H2 & H3).
      * left. unfold collect, ret in H2. by simplify_eq.
      * apply collect_cons_returns in H2 as (s1 & o & bs' & H1 & H2 & _).
        right. eauto 15.
Qed.

(** A failure in a prefix is the failure of the whole sequence. *)
Lemma collect_failure_prefix f xs1 xs2 s w :
  failure_of (collect f xs1 s) = Some w ->
  failure_of (collect f (xs1 ++ xs2) s) = Some w.
Proof.
  intros H. rewrite (collect_app f xs1 xs2 s). apply failure_of_bind. by left.
Qed.

(** Operations that always return make sequences that always return. *)
Lemma collect_total f xs s :
  (forall x s, returns (f x s) = true) -> returns (collect f xs s) = true.
Proof.
  intros Hf. revert s. induction xs as [|x xs IH]; intros s; [done|].
  simpl. unfold bind, ret. specialize (Hf x s).
  destruct (f x s) as [s1 o| |]; [|done..].
  specialize (IH s1). by destruct (collect f xs s1).
Qed.

(** What every returning operation of a kind keeps holds at the end of a
    sequence of such operations. *)
Lemma collect_invariant (I : S -> Prop) (P : X -> bool) f xs s s' bs :
  (forall x s1 s2 o, P x = true -> I s1 -> f x s1 = Returns s2 o -> I s2) ->
  Forall (fun x => P x = true) xs ->
  I s -> collect f xs s = Returns s' bs -> I s'.
Proof.
  intros Hstep Hxs. revert s bs. induction Hxs as [|x xs Hx _ IH]; intros s bs Hs.
  - unfold collect, ret. by intros [= <- _].
  - intros (s1 & o & bs' & H1 & H2 & _)%collect_cons_returns. eauto.
Qed.

(** A sequence yields one value for each operation that yields one. *)
Lemma collect_length (yields : X -> bool) f xs s s' bs :
  (forall x s1 s2 o, f x s1 = Returns s2 o -> is_Some o <-> yields x = true) ->
  collect f xs s = Returns s' bs -> length bs = length (filter (fun x => yields x = true) xs).
Proof.
  intros Hf. revert s bs. induction xs as [|x xs IH]; intros s bs.
  - unfold collect, ret. by intros [= _ <-].
  - intros (s1 & o & bs' & H1 & H2 & ->)%collect_cons_returns.
    rewrite length_app, (IH _ _ H2). apply Hf in H1.
    rewrite filter_cons. destruct o, (decide (yields x = true)) as [Hy|Hy]; simpl;
      [done| |apply H1 in Hy as [? [=]]|done].
    destruct Hy. apply H1. eauto.
Qed.

End CollectLemmas.
