(* ===== verification/Limits.v ===== *)
(** * Limits: fixed-width integers and [std::numeric_limits]

    machine.hh reports the range of the engine's output type through
    [std::numeric_limits<size_pull>::max()] and [::lowest()].  This file
    models the integer types an engine can choose ([int_type]: 8 to 64 bits,
    signed or unsigned), their values as integers kept in range ([word]),
    conversion to a width ([wrap], the modular conversion of C++), and the
    trait itself as the class [numeric_limits] with the laws the
    specialisation of an integer type satisfies.  The floating-point types
    are in [Floats]. *)

From Stdlib Require Import ZArith Lia.
From stdpp Require Import prelude.
From S2P Require Import Prelude.

Local Open Scope Z_scope.

(** * Integer types *)

Inductive width : Type := W8 | W16 | W32 | W64.

Inductive int_type : Type :=
| Unsigned (w : width)
| Signed (w : width).

#[export] Instance width_eq_dec : EqDecision width.
Proof. solve_decision. Defined.

#[export] Instance int_type_eq_dec : EqDecision int_type.
Proof. solve_decision. Defined.

Definition bits (w : width) : Z :=
  match w with W8 => 8 | W16 => 16 | W32 => 32 | W64 => 64 end.

Definition width_of (t : int_type) : width :=
  match t with Unsigned w | Signed w => w end.

(** [std::numeric_limits<T>::digits]: the bits that are not the sign. *)
Definition digits (t : int_type) : Z :=
  match t with
  | Unsigned w => bits w
  | Signed w => bits w - 1
  end.

(** The number of values of the type. *)
Definition modulus (t : int_type) : Z := 2 ^ bits (width_of t).

(** [std::numeric_limits<T>::max()]. *)
Definition limit_max (t : int_type) : Z := 2 ^ digits t - 1.

(** [std::numeric_limits<T>::lowest()]; for an integer type also [min()]. *)
Definition limit_lowest (t : int_type) : Z :=
  match t with
  | Unsigned _ => 0
  | Signed _ => - 2 ^ digits t
  end.

Definition in_range (t : int_type) (z : Z) : Prop :=
  limit_lowest t <= z <= limit_max t.

#[export] Instance in_range_dec t z : Decision (in_range t z).
Proof. unfold in_range. apply _. Defined.

(** Conversion of an integer to the type [t]: the value congruent to [z]
    modulo [2 ^ bits] that the type represents. *)
Definition wrap (t : int_type) (z : Z) : Z :=
  (z - limit_lowest t) mod modulus t + limit_lowest t.

(** * Values *)

(** A value of type [t]: an integer with the evidence that it is in range.
    The evidence is a boolean, so two values with the same integer are
    equal. *)
Record word (t : int_type) : Type := Word {
  word_val : Z;
  word_ok : bool_decide (in_range t word_val);
}.

Arguments Word {t} word_val word_ok.
Arguments word_val {t} w.
Arguments word_ok {t} w.

(** * The trait *)

(** [std::numeric_limits<T>] for an arithmetic type [T]: [max()],
    [lowest()] and [min()], with the comparison [<=] of [T], which says what
    the limits bound. *)
Class numeric_limits (T : Type) : Type := {
  limits_le : T -> T -> bool;
  limits_max : T;
  limits_lowest : T;
  limits_min : T;
}.

(** What the specialisation of an integer type promises: [<=] is a total
    order, every value lies between [lowest()] and [max()], and [min()] is
    [lowest()]. *)
Class numeric_limits_laws (T : Type) `{!numeric_limits T} : Prop := {
  limits_le_refl (x : T) : limits_le x x = true;
  limits_le_antisym (x y : T) :
    limits_le x y = true -> limits_le y x = true -> x = y;
  limits_le_trans (x y z : T) :
    limits_le x y = true -> limits_le y z = true -> limits_le x z = true;
  limits_le_total (x y : T) : limits_le x y = true ∨ limits_le y x = true;
  limits_lowest_le (x : T) : limits_le limits_lowest x = true;
  limits_le_max (x : T) : limits_le x limits_max = true;
  limits_min_lowest : limits_min (T:=T) = limits_lowest;
}.

(** * Ranges *)

Lemma bits_pos w : 0 < bits w.
Proof. by destruct w. Qed.

Lemma digits_nonneg t : 0 <= digits t.
Proof. by destruct t as [[]|[]]. Qed.

Lemma modulus_pos t : 0 < modulus t.
Proof. by destruct t as [[]|[]]. Qed.

(** The range has exactly [modulus] values. *)
Lemma limit_span t : limit_max t - limit_lowest t + 1 = modulus t.
Proof. by destruct t as [[]|[]]. Qed.

Lemma limit_lowest_le_max t : limit_lowest t <= limit_max t.
Proof. by destruct t as [[]|[]]. Qed.

Lemma limit_lowest_nonpos t : limit_lowest t <= 0.
Proof. by destruct t as [[]|[]]. Qed.

Lemma limit_max_pos t : 0 < limit_max t.
Proof. by destruct t as [[]|[]]. Qed.

Lemma limit_lowest_unsigned w : limit_lowest (Unsigned w) = 0.
Proof. done. Qed.

(** Two's complement: the lowest value of a signed type is [-max - 1]. *)
Lemma limit_lowest_signed w :
  limit_lowest (Signed w) = - limit_max (Signed w) - 1.
Proof. unfold limit_lowest, limit_max. lia. Qed.

Lemma in_range_max t : in_range t (limit_max t).
Proof. split; [apply limit_lowest_le_max | lia]. Qed.

Lemma in_range_lowest t : in_range t (limit_lowest t).
Proof. split; [lia | apply limit_lowest_le_max]. Qed.

Lemma in_range_0 t : in_range t 0.
Proof. split; [apply limit_lowest_nonpos | pose proof (limit_max_pos t); lia]. Qed.

(** * Conversion *)

Lemma wrap_in_range t z : in_range t (wrap t z).
Proof.
  unfold in_range, wrap. pose proof (limit_span t).
  pose proof (Z.mod_pos_bound (z - limit_lowest t) _ (modulus_pos t)). lia.
Qed.

(** A value in range converts to itself. *)
Lemma wrap_id t z : in_range t z -> wrap t z = z.
Proof.
  unfold in_range, wrap. pose proof (limit_span t). intros Hz.
  rewrite Z.mod_small; lia.
Qed.

Lemma wrap_idemp t z : wrap t (wrap t z) = wrap t z.
Proof. apply wrap_id, wrap_in_range. Qed.

(** Conversion does not change the value modulo [2 ^ bits]. *)
Lemma wrap_mod t z : wrap t z mod modulus t = z mod modulus t.
Proof.
  unfold wrap. rewrite Zplus_mod_idemp_l. f_equal. lia.
Qed.

(** Two integers convert to the same value exactly when they are congruent. *)
Lemma wrap_eq_iff t z1 z2 :
  wrap t z1 = wrap t z2 <-> z1 mod modulus t = z2 mod modulus t.
Proof.
  split.
  - intros H. by rewrite <-(wrap_mod t z1), <-(wrap_mod t z2), H.
  - intros H. unfold wrap. f_equal.
    rewrite <-(Zminus_mod_idemp_l z1), <-(Zminus_mod_idemp_l z2). by rewrite H.
Qed.

Lemma wrap_unsigned w z : wrap (Unsigned w) z = z mod 2 ^ bits w.
Proof. unfold wrap. simpl. by rewrite Z.sub_0_r, Z.add_0_r. Qed.

(** Conversion is the identity exactly on the range. *)
Lemma wrap_fixpoint_iff t z : wrap t z = z <-> in_range t z.
Proof. split; [intros <-; apply wrap_in_range | apply wrap_id]. Qed.

(** Overflow wraps around: one past the maximum is the lowest value. *)
Lemma wrap_max_succ t : wrap t (limit_max t + 1) = limit_lowest t.
Proof.
  unfold wrap. replace (limit_max t + 1 - limit_lowest t) with (modulus t)
    by (pose proof (limit_span t); lia).
  by rewrite Z.mod_same by (pose proof (modulus_pos t); lia).
Qed.

Lemma wrap_lowest_pred t : wrap t (limit_lowest t - 1) = limit_max t.
Proof.
  rewrite <-(wrap_id t (limit_max t)) by apply in_range_max.
  apply wrap_eq_iff. pose proof (limit_span t).
  replace (limit_lowest t - 1) with (limit_max t + (-1) * modulus t) by lia.
  apply Z.mod_add. pose proof (modulus_pos t). lia.
Qed.

(** * Values of a type *)

Lemma word_eq {t} (a b : word t) : word_val a = word_val b -> a = b.
Proof.
  destruct a as [x Hx], b as [y Hy]; simpl. intros ->.
  f_equal. apply proof_irrel.
Qed.

#[export] Instance word_val_inj t : Inj (=) (=) (@word_val t).
Proof. intros a b. apply word_eq. Qed.

#[export] Instance word_eq_dec t : EqDecision (word t).
Proof.
  intros a b. destruct (decide (word_val a = word_val b)) as [H|H].
  - left. by apply word_eq.
  - right. by intros ->.
Defined.

Lemma word_in_range {t} (a : word t) : in_range t (word_val a).
Proof. exact (bool_decide_unpack _ (word_ok a)). Qed.

(** The value of type [t] an integer converts to. *)
Definition of_Z (t : int_type) (z : Z) : word t :=
  Word (wrap t z) (bool_decide_pack _ (wrap_in_range t z)).

Definition word_max (t : int_type) : word t :=
  Word (limit_max t) (bool_decide_pack _ (in_range_max t)).

Definition word_lowest (t : int_type) : word t :=
  Word (limit_lowest t) (bool_decide_pack _ (in_range_lowest t)).

(** Arithmetic at the width of the type: the exact result, converted. *)
Definition word_add {t} (a b : word t) : word t := of_Z t (word_val a + word_val b).
Definition word_mul {t} (a b : word t) : word t := of_Z t (word_val a * word_val b).
Definition word_xor {t} (a b : word t) : word t :=
  of_Z t (Z.lxor (word_val a) (word_val b)).

(** [a <= b] on values of the type. *)
Definition word_le {t} (a b : word t) : bool := word_val a <=? word_val b.

#[export] Instance word_numeric_limits t : numeric_limits (word t) := {|
  limits_le := word_le;
  limits_max := word_max t;
  limits_lowest := word_lowest t;
  limits_min := word_lowest t;
|}.

Lemma word_le_spec {t} (a b : word t) : word_le a b = true <-> word_val a <= word_val b.
Proof. apply Z.leb_le. Qed.

#[export] Instance word_numeric_limits_laws t : numeric_limits_laws (word t).
Proof.
  split; simpl; try done; intros *; rewrite ?word_le_spec; try lia.
  - intros. apply word_eq. lia.
  - apply (word_in_range x).
  - apply (word_in_range x).
Qed.

Lemma of_Z_val t z : word_val (of_Z t z) = wrap t z.
Proof. done. Qed.

(** Converting the integer of a value gives the value back. *)
Lemma of_Z_word_val {t} (a : word t) : of_Z t (word_val a) = a.
Proof. apply word_eq. simpl. apply wrap_id, word_in_range. Qed.

Lemma of_Z_in_range t z : in_range t z -> word_val (of_Z t z) = z.
Proof. apply wrap_id. Qed.

Lemma word_add_comm {t} (a b : word t) : word_add a b = word_add b a.
Proof. unfold word_add. by rewrite Z.add_comm. Qed.

Lemma word_add_max_1 t : word_add (word_max t) (of_Z t 1) = word_lowest t.
Proof.
  apply word_eq. simpl. rewrite (wrap_id t 1).
  - apply wrap_max_succ.
  - split; [pose proof (limit_lowest_nonpos t) | pose proof (limit_max_pos t)]; lia.
Qed.

(** * Laws of any specialisation *)

Section Limits.
Context {T : Type} `{!numeric_limits T, !numeric_limits_laws T}.

Lemma limits_lowest_le_max :
  limits_le (limits_lowest (T:=T)) (limits_max (T:=T)) = true.
Proof. apply limits_lowest_le. Qed.

(** A value that every value is below is [max()]. *)
Lemma limits_max_unique (m : T) :
  (forall x : T, limits_le x m = true) -> m = limits_max.
Proof. intros Hm. apply limits_le_antisym; [apply limits_le_max | apply Hm]. Qed.

Lemma limits_lowest_unique (m : T) :
  (forall x : T, limits_le m x = true) -> m = limits_lowest.
Proof. intros Hm. apply limits_le_antisym; [apply Hm | apply limits_lowest_le]. Qed.

End Limits.
