(* ===== verification/Floats.v ===== *)
(** * Floats: the binary floating-point types and their limits

    An engine may produce floating-point blocks.  [float t] is the values
    of the IEEE 754 binary format [t] (binary32 or binary64) in the
    representation of the Standard Library's [SpecFloat]: zeros, infinities,
    NaN and the finite values with a canonical mantissa.  The instance of
    [numeric_limits] gives [max()], the largest finite value, [lowest()],
    its opposite, and [min()], the smallest positive normal value, with the
    comparison [<=] of IEEE 754.  The specialisation does not satisfy
    [numeric_limits_laws]: [min()] is not [lowest()], the finite values lie
    between [lowest()] and [max()], the infinities and NaN do not. *)

From Stdlib Require Import ZArith Lia.
From Stdlib Require Import Floats.SpecFloat.
From stdpp Require Import prelude.
From S2P Require Import Prelude Limits.

Local Open Scope Z_scope.

(** * The formats *)

Inductive float_type : Type := Binary32 | Binary64.

#[export] Instance float_type_eq_dec : EqDecision float_type.
Proof. solve_decision. Defined.

#[export] Instance spec_float_eq_dec : EqDecision spec_float.
Proof. solve_decision. Defined.

(** The bits of the mantissa, the implicit one included: [digits]. *)
Definition float_prec (t : float_type) : Z :=
  match t with Binary32 => 24 | Binary64 => 53 end.

(** The exponent of the infinities: [max_exponent]. *)
Definition float_emax (t : float_type) : Z :=
  match t with Binary32 => 128 | Binary64 => 1024 end.

Definition float_valid (t : float_type) (x : spec_float) : bool :=
  valid_binary (float_prec t) (float_emax t) x.

(** A value of the format: a [spec_float] that the format represents. *)
Record float (t : float_type) : Type := Float {
  float_val : spec_float;
  float_ok : Is_true (float_valid t float_val);
}.

Arguments Float {t} float_val float_ok.
Arguments float_val {t} f.
Arguments float_ok {t} f.

(** The largest finite value, [(2 - 2^(1-prec)) * 2^(emax-1)]. *)
Definition sf_max (t : float_type) : spec_float :=
  SFmax_float (float_prec t) (float_emax t).

(** The smallest positive normal value, [2^(2-emax)]. *)
Definition sf_min (t : float_type) : spec_float :=
  S754_finite false (Z.to_pos (2 ^ (float_prec t - 1)))
    (emin (float_prec t) (float_emax t)).

(** [std::isfinite]. *)
Definition sf_finite (x : spec_float) : bool :=
  match x with
  | S754_zero _ | S754_finite _ _ _ => true
  | S754_infinity _ | S754_nan => false
  end.

(** * Validity of the constants *)

Lemma sf_max_valid t : Is_true (float_valid t (sf_max t)).
Proof. by destruct t. Qed.

Lemma sf_lowest_valid t : Is_true (float_valid t (SFopp (sf_max t))).
Proof. by destruct t. Qed.

Lemma sf_min_valid t : Is_true (float_valid t (sf_min t)).
Proof. by destruct t. Qed.

Lemma sf_zero_valid t s : Is_true (float_valid t (S754_zero s)).
Proof. done. Qed.

Lemma sf_infinity_valid t s : Is_true (float_valid t (S754_infinity s)).
Proof. done. Qed.

Lemma sf_nan_valid t : Is_true (float_valid t S754_nan).
Proof. done. Qed.

(** * The values and the trait *)

Definition float_max (t : float_type) : float t := Float (sf_max t) (sf_max_valid t).
Definition float_lowest (t : float_type) : float t :=
  Float (SFopp (sf_max t)) (sf_lowest_valid t).
Definition float_min (t : float_type) : float t := Float (sf_min t) (sf_min_valid t).
Definition float_zero (t : float_type) : float t :=
  Float (S754_zero false) (sf_zero_valid t false).
Definition float_infinity (t : float_type) (s : bool) : float t :=
  Float (S754_infinity s) (sf_infinity_valid t s).
Definition float_nan (t : float_type) : float t := Float S754_nan (sf_nan_valid t).

(** [a <= b] of IEEE 754: false when either is NaN. *)
Definition float_le {t} (a b : float t) : bool := SFleb (float_val a) (float_val b).

(** [a < b]. *)
Definition float_lt {t} (a b : float t) : bool := SFltb (float_val a) (float_val b).

Definition float_finite {t} (a : float t) : bool := sf_finite (float_val a).

#[export] Instance float_numeric_limits t : numeric_limits (float t) := {|
  limits_le := float_le;
  limits_max := float_max t;
  limits_lowest := float_lowest t;
  limits_min := float_min t;
|}.

(** * Equality of values *)

Lemma float_eq {t} (a b : float t) : float_val a = float_val b -> a = b.
Proof.
  destruct a as [x Hx], b as [y Hy]; simpl. intros ->. f_equal. apply proof_irrel.
Qed.

#[export] Instance float_eq_dec t : EqDecision (float t).
Proof.
  intros a b. destruct (decide (float_val a = float_val b)) as [H|H].
  - left. by apply float_eq.
  - right. by intros ->.
Defined.

(** * Mantissas and exponents of the values of a format *)

Lemma digits2_pos_bound (m : positive) : Z.pos m < 2 ^ Z.pos (digits2_pos m).
Proof.
  induction m as [m IH|m IH|]; simpl; [| |done];
    rewrite Pos2Z.inj_succ, Z.pow_succ_r by lia; lia.
Qed.

(** A finite value of the format has a mantissa of at most [prec] bits and
    an exponent of at most [emax - prec]. *)
Lemma float_valid_finite t s m e :
  Is_true (float_valid t (S754_finite s m e)) ->
  Z.pos m < 2 ^ float_prec t ∧ e <= float_emax t - float_prec t.
Proof.
  unfold float_valid, valid_binary, bounded, canonical_mantissa, fexp.
  intros [Hm He%Is_true_true%Z.leb_le]%andb_prop_elim. split; [|done].
  apply Is_true_true, Z.eqb_eq in Hm. pose proof (digits2_pos_bound m).
  assert (Z.pos (digits2_pos m) <= float_prec t) by lia.
  eapply Z.lt_le_trans; [done|]. apply Z.pow_le_mono_r; lia.
Qed.

(** * The order *)

Lemma compare_cont_opp (m1 m2 : positive) :
  Pos.compare_cont Eq m2 m1 = CompOpp (Pos.compare_cont Eq m1 m2).
Proof. by rewrite Pos.compare_cont_antisym. Qed.

(** Opposites compare the other way round. *)
Lemma SFcompare_opp x y : SFcompare (SFopp x) (SFopp y) = SFcompare y x.
Proof.
  destruct x as [[]|[]| |[] m1 e1], y as [[]|[]| |[] m2 e2]; simpl; try done;
    rewrite (Z.compare_antisym e1 e2), (compare_cont_opp m1 m2);
    by destruct (e1 ?= e2), (Pos.compare_cont Eq m1 m2).
Qed.

Lemma SFleb_opp x y : SFleb (SFopp x) (SFopp y) = SFleb y x.
Proof. unfold SFleb. by rewrite SFcompare_opp. Qed.

Lemma SFopp_involutive x : SFopp (SFopp x) = x.
Proof. destruct x as [[]|[]| |[] m e]; done. Qed.

Lemma sf_finite_opp x : sf_finite (SFopp x) = sf_finite x.
Proof. by destruct x. Qed.

Lemma float_valid_opp t x : float_valid t (SFopp x) = float_valid t x.
Proof. by destruct x. Qed.

(** Every finite value of the format is at most [max()]. *)
Lemma sf_finite_le_max t x :
  Is_true (float_valid t x) -> sf_finite x = true -> SFleb x (sf_max t) = true.
Proof.
  destruct x as [s|s| |s m e]; [by destruct t|done|done|].
  intros [Hm He]%float_valid_finite _. destruct s; [by destruct t|].
  unfold SFleb, sf_max, SFmax_float, SFcompare.
  destruct (Z.compare_spec e (float_emax t - float_prec t)) as [->|?|?]; [|done|lia].
  fold (Pos.compare m (Pos.iter xO xH (Z.to_pos (float_prec t)) - 1)%positive).
  destruct (Pos.compare_spec m
    (Pos.iter xO xH (Z.to_pos (float_prec t)) - 1)%positive) as [?|?|Hgt]; [done..|].
  exfalso. revert Hm Hgt. destruct t; simpl; lia.
Qed.

(** Every finite value of the format is at least [lowest()]. *)
Lemma sf_lowest_le_finite t x :
  Is_true (float_valid t x) -> sf_finite x = true -> SFleb (SFopp (sf_max t)) x = true.
Proof.
  intros Hx Hf. rewrite <-(SFopp_involutive x), SFleb_opp.
  apply sf_finite_le_max; by rewrite ?float_valid_opp, ?sf_finite_opp.
Qed.

(** * The limits of a floating-point type *)

Section FloatLimits.
Context (t : float_type).
Implicit Types (a b : float t).

(** The finite values lie between [lowest()] and [max()]. *)
Lemma float_finite_within a :
  float_finite a = true ->
  limits_le limits_lowest a = true ∧ limits_le a limits_max = true.
Proof.
  intros Hf. split; [apply sf_lowest_le_finite|apply sf_finite_le_max];
    by try apply float_ok.
Qed.

(** [lowest()] is the opposite of [max()], and negative; [min()] is
    positive. *)
Lemma float_lowest_negative :
  float_lt (limits_lowest (T:=float t)) (float_zero t) = true.
Proof. by destruct t. Qed.

Lemma float_min_positive :
  float_lt (float_zero t) (limits_min (T:=float t)) = true.
Proof. by destruct t. Qed.

Lemma float_min_not_lowest : limits_min (T:=float t) ≠ limits_lowest.
Proof. by destruct t. Qed.

(** The infinities and NaN are values of the type outside the limits. *)
Lemma float_infinity_above_max :
  limits_le (float_infinity t false) limits_max = false.
Proof. by destruct t. Qed.

Lemma float_infinity_below_lowest :
  limits_le limits_lowest (float_infinity t true) = false.
Proof. by destruct t. Qed.

Lemma float_nan_unordered a :
  limits_le (float_nan t) a = false ∧ limits_le a (float_nan t) = false.
Proof. split; simpl; unfold float_le, SFleb; simpl; by destruct (float_val a). Qed.

End FloatLimits.
