(* ===== verification/Engine.v ===== *)
(** * Engine: what machine.hh requires of its template parameter

    [machine<engine>] is written against the members of [engine] that its
    bodies name.  The class [Engine] lists exactly those, under the names of
    the source, with a hook being a computation on the engine's own state.
    The source reads [__default_key] and [__default_time] through [this];
    they are constants of the engine here, as the specification has them.
    The engine's default constructor is taken not to throw: [engine_init] is
    the state it leaves.
    [hook_of], [hook], [run_hook] and [run_hooks] turn hook calls into data,
    so that the order in which the adapter calls the engine can be stated.
    The classes [EngineView], [EngineLaws], [EngineKeyLaws], [EngineRound]
    and [EngineTotal] state what the specification asks of a conforming
    engine; the adapter's theorems that depend on the engine's behaviour
    are proved against them. *)

From stdpp Require Import prelude.
From S2P Require Import Prelude Collect Limits.

Local Open Scope comp_scope.

(** * The members the adapter uses *)

Class Engine : Type := {
  (** [engine::size_cell], [engine::size_push], [engine::size_pull] *)
  size_cell : Type;
  size_push : Type;
  size_pull : Type;
  (** [std::numeric_limits<engine::size_pull>] *)
  size_pull_limits :: numeric_limits size_pull;
  (** the exceptions the hooks throw *)
  exn : Type;
  (** the data members of an engine object, and the default-constructed one *)
  engine : Type;
  engine_init : engine;
  __default_key : list size_cell;
  __default_time : nat;
  __set_key : list size_cell -> comp exn engine unit;
  __set_space : nat -> comp exn engine unit;
  __set_time : nat -> comp exn engine unit;
  __reset : comp exn engine unit;
  push : size_push -> comp exn engine unit;
  pull : comp exn engine size_pull;
}.

(** * Hook calls as data *)

(** A hook call with its argument, over the types of cells and of blocks
    fed: engines with the same types have the same hook calls. *)
Inductive hook_of (C P : Type) : Type :=
| HSetKey (k : list C)
| HSetSpace (n : nat)
| HSetTime (n : nat)
| HReset
| HPush (b : P)
| HPull.

Arguments HSetKey {C P} k.
Arguments HSetSpace {C P} n.
Arguments HSetTime {C P} n.
Arguments HReset {C P}.
Arguments HPush {C P} b.
Arguments HPull {C P}.

#[export] Instance hook_of_eq_dec {C P : Type} `{!EqDecision C, !EqDecision P} :
  EqDecision (hook_of C P).
Proof. solve_decision. Defined.

(** A hook call with its cells and blocks converted. *)
Definition hook_map {C1 C2 P1 P2 : Type} (f : C1 -> C2) (g : P1 -> P2)
    (h : hook_of C1 P1) : hook_of C2 P2 :=
  match h with
  | HSetKey k => HSetKey (f <$> k)
  | HSetSpace n => HSetSpace n
  | HSetTime n => HSetTime n
  | HReset => HReset
  | HPush b => HPush (g b)
  | HPull => HPull
  end.

Lemma hook_map_id {C P : Type} (h : hook_of C P) : hook_map id id h = h.
Proof. destruct h; simpl; by rewrite ?list_fmap_id. Qed.

Section Hooks.
Context `{E : Engine}.

(** The hook calls of the engine. *)
Definition hook : Type := hook_of size_cell size_push.

(** Calling one hook; a pull yields its block. *)
Definition run_hook (h : hook) : comp exn engine (option size_pull) :=
  match h with
  | HSetKey k => __set_key k ;; ret None
  | HSetSpace n => __set_space n ;; ret None
  | HSetTime n => __set_time n ;; ret None
  | HReset => __reset ;; ret None
  | HPush b => push b ;; ret None
  | HPull => let* b := pull in ret (Some b)
  end.

(** Calling hooks in order and collecting the blocks pulled.  The first
    exception ends the sequence. *)
Definition run_hooks (hs : list hook) : comp exn engine (list size_pull) :=
  collect run_hook hs.

End Hooks.

(** * What the specification asks of an engine *)

(** The two parameters the specification gives an engine, as read off its
    state, and the canonical state for given parameters. *)
Class EngineView (E : Engine) : Type := {
  space_of : engine -> nat;
  time_of : engine -> nat;
  baseline : nat -> nat -> engine;
}.

(** The contract of the specification's table of hooks, for the calls that
    return: [__set_space] and [__set_time] set their parameter and leave the
    other; installing a key, feeding and extracting leave both; [__reset]
    goes to the baseline of the current parameters, whatever else the state
    held. *)
Class EngineLaws (E : Engine) `{!EngineView E} : Prop := {
  default_key_nonempty : __default_key ≠ [];
  set_space_view n s s' u :
    __set_space n s = Returns s' u -> space_of s' = n ∧ time_of s' = time_of s;
  set_time_view n s s' u :
    __set_time n s = Returns s' u -> space_of s' = space_of s ∧ time_of s' = n;
  set_key_view k s s' u :
    __set_key k s = Returns s' u ->
    space_of s' = space_of s ∧ time_of s' = time_of s;
  push_view b s s' u :
    push b s = Returns s' u -> space_of s' = space_of s ∧ time_of s' = time_of s;
  pull_view s s' b :
    pull s = Returns s' b -> space_of s' = space_of s ∧ time_of s' = time_of s;
  reset_baseline s s' u :
    __reset s = Returns s' u -> s' = baseline (space_of s) (time_of s);
  baseline_view n t :
    space_of (baseline n t) = n ∧ time_of (baseline n t) = t;
}.

(** "install-key replaces keyed internal state" and "set-space is
    independent of key content", for the sequences that return: a key
    installed over another, with the space set in between, leaves what the
    second installation alone leaves; and the space set twice is the space
    set last. *)
Class EngineKeyLaws (E : Engine) : Prop := {
  set_key_replaces k1 n k2 s s' bs :
    run_hooks [HSetKey k1; HSetSpace n; HSetKey k2] s = Returns s' bs ->
    run_hooks [HSetSpace n; HSetKey k2] s = Returns s' [];
  set_space_replaces n1 n2 s s' bs :
    run_hooks [HSetSpace n1; HSetSpace n2] s = Returns s' bs ->
    run_hooks [HSetSpace n2] s = Returns s' [];
}.

(** "install-key must not alter a prior non-reset round counter": what an
    engine counts of its streaming, read off its state, is left alone by a
    key installation that returns; and by [__set_space], which [set_key]
    calls before it. *)
Class EngineRound (E : Engine) : Type := {
  round : Type;
  round_of : engine -> round;
  set_key_round k s s' u : __set_key k s = Returns s' u -> round_of s' = round_of s;
  set_space_round n s s' u : __set_space n s = Returns s' u -> round_of s' = round_of s;
}.

(** An engine none of whose hooks throws or terminates. *)
Class EngineTotal (E : Engine) : Prop := {
  set_key_total k s : returns (__set_key k s) = true;
  set_space_total n s : returns (__set_space n s) = true;
  set_time_total n s : returns (__set_time n s) = true;
  reset_total s : returns (__reset s) = true;
  push_total b s : returns (push b s) = true;
  pull_total s : returns (pull s) = true;
}.

(** Equality of everything an engine handles is decidable: concrete runs
    of the adapter can then be compared by computation. *)
Class EngineDec (E : Engine) : Type := {
  engine_eq_dec :: EqDecision engine;
  size_cell_eq_dec :: EqDecision size_cell;
  size_push_eq_dec :: EqDecision size_push;
  size_pull_eq_dec :: EqDecision size_pull;
  exn_eq_dec :: EqDecision exn;
}.

#[export] Instance hook_eq_dec `{E : Engine} `{!EngineDec E} : EqDecision hook.
Proof. unfold hook. apply _. Defined.

(** * Sequences of hooks *)

Section HookLemmas.
Context `{E : Engine}.

Lemma returns_true {S A} (o : outcome exn S A) :
  returns o = true <-> exists s a, o = Returns s a.
Proof. destruct o; naive_solver. Qed.

Lemma run_hooks_app (hs1 hs2 : list hook) :
  run_hooks (hs1 ++ hs2) ≡
  (let* bs1 := run_hooks hs1 in
   let* bs2 := run_hooks hs2 in
   ret (bs1 ++ bs2)).
Proof. apply collect_app. Qed.

Lemma run_hooks_app_returns (hs1 hs2 : list hook) s s' bs :
  run_hooks (hs1 ++ hs2) s = Returns s' bs <->
  exists s1 bs1 bs2, run_hooks hs1 s = Returns s1 bs1 ∧
    run_hooks hs2 s1 = Returns s' bs2 ∧ bs = bs1 ++ bs2.
Proof. apply collect_app_returns. Qed.

Lemma run_hooks_singleton (h : hook) :
  run_hooks [h] ≡ (let* o := run_hook h in ret (option_list o)).
Proof. apply collect_singleton. Qed.

(** An exception in a prefix is the exception of the whole sequence: the
    hooks after it are not called. *)
Lemma run_hooks_throws_prefix (hs1 hs2 : list hook) s s' e :
  run_hooks hs1 s = Throws s' e -> run_hooks (hs1 ++ hs2) s = Throws s' e.
Proof. rewrite <-!failure_of_throws. apply collect_failure_prefix. Qed.

(** On a total engine every sequence of hooks returns. *)
Lemma run_hook_total `{!EngineTotal E} (h : hook) s : returns (run_hook h s) = true.
Proof.
  destruct h; simpl; unfold bind, ret;
    [pose proof (set_key_total k s)|pose proof (set_space_total n s)
    |pose proof (set_time_total n s)|pose proof (reset_total s)
    |pose proof (push_total b s)|pose proof (pull_total s)];
    by case_match.
Qed.

Lemma run_hooks_total `{!EngineTotal E} (hs : list hook) s :
  returns (run_hooks hs s) = true.
Proof. apply collect_total, run_hook_total. Qed.

End HookLemmas.

(** * Consequences of the laws *)

Section LawLemmas.
Context `{E : Engine} `{!EngineView E} `{!EngineLaws E}.

(** The pair (space, time) of an engine state. *)
Definition view (s : engine) : nat * nat := (space_of s, time_of s).

Lemma view_baseline n t : view (baseline n t) = (n, t).
Proof. unfold view. by destruct (baseline_view n t) as [-> ->]. Qed.

(** What a hook does to the parameters. *)
Definition hook_view (h : hook) (v : nat * nat) : nat * nat :=
  match h with
  | HSetSpace n => (n, v.2)
  | HSetTime n => (v.1, n)
  | _ => v
  end.

Lemma run_hook_view h s s' o :
  run_hook h s = Returns s' o -> view s' = hook_view h (view s).
Proof.
  unfold view. destruct h; simpl; intros H; apply bind_returns in H;
    destruct H as (s1 & a & H & Hr); unfold ret in Hr; simplify_eq.
  - by destruct (set_key_view _ _ _ _ H) as [-> ->].
  - by destruct (set_space_view _ _ _ _ H) as [-> ->].
  - by destruct (set_time_view _ _ _ _ H) as [-> ->].
  - apply reset_baseline in H as ->. by destruct (baseline_view (space_of s) (time_of s)) as [-> ->].
  - by destruct (push_view _ _ _ _ H) as [-> ->].
  - by destruct (pull_view _ _ _ H) as [-> ->].
Qed.

Lemma run_hooks_view hs s s' bs :
  run_hooks hs s = Returns s' bs -> view s' = foldl (flip hook_view) (view s) hs.
Proof.
  revert s bs. induction hs as [|h hs IH]; intros s bs; simpl.
  - unfold ret. by intros [= <- _].
  - intros H. apply bind_returns in H as (s1 & o & H1 & H).
    apply bind_returns in H as (s2 & bs' & H2 & H). unfold ret in H. simplify_eq.
    rewrite (IH _ _ H2). by rewrite (run_hook_view _ _ _ _ H1).
Qed.

(** [__reset] forgets everything but the parameters: two states with the
    same space and time reset to the same state. *)
Lemma reset_forgets s1 s2 s1' s2' u1 u2 :
  view s1 = view s2 ->
  __reset s1 = Returns s1' u1 -> __reset s2 = Returns s2' u2 -> s1' = s2'.
Proof.
  unfold view. intros [= Hs Ht] H1%reset_baseline H2%reset_baseline.
  by rewrite H1, H2, Hs, Ht.
Qed.

End LawLemmas.
