(* ===== verification/Engines.v ===== *)
(** * Engines: engines that instantiate the contract

    The engines of the library are not part of the repository's sources.
    The engines below are test engines of this development: they give the
    adapter's theorems concrete instances to be evaluated on.
      - [tracer E] logs every hook call it receives, over the types of the
        engine [E], and never fails; it shows in which order the adapter
        calls the engine.
      - [mixer] is a small keyed generator on 32-bit blocks with a round
        counter; it satisfies [EngineLaws] and [EngineTotal].
      - [strict] is [mixer] with argument checks that throw the exceptions
        of <stdexcept>; it satisfies [EngineLaws] and is not total.
      - [echo] works on floating-point blocks and hands back what it was
        fed; it satisfies [EngineLaws] and [EngineTotal]. *)

From Stdlib Require Import ZArith Lia.
From stdpp Require Import prelude.
From S2P Require Import Prelude Collect Limits Floats Engine.

Local Open Scope comp_scope.

(** * The tracer *)

(** Append a hook call to the log (the log is in call order). *)
Definition record `{E : Engine} {A} (h : hook) (a : A) :
    comp Empty_set (list hook) A :=
  fun log => Returns (log ++ [h]) a.

(** The engine that does nothing but log the hooks it is called with, over
    the types, the default key and the default time of [E].  It never
    fails; a pull yields the largest block. *)
Definition tracer (E : Engine) : Engine := {|
  size_cell := @size_cell E;
  size_push := @size_push E;
  size_pull := @size_pull E;
  size_pull_limits := @size_pull_limits E;
  exn := Empty_set;
  engine := list (@hook E);
  engine_init := [];
  __default_key := @__default_key E;
  __default_time := @__default_time E;
  __set_key k := record (HSetKey k) tt;
  __set_space n := record (HSetSpace n) tt;
  __set_time n := record (HSetTime n) tt;
  __reset := record HReset tt;
  push b := record (HPush b) tt;
  pull := record HPull limits_max;
|}.

(** * The mixer *)

Definition u32 : int_type := Unsigned W32.

Record mix_state : Type := MixState {
  mix_space : nat;
  mix_time : nat;
  mix_cells : list (word u32);
  mix_round : word u32;
}.

#[export] Instance mix_state_eq_dec : EqDecision mix_state.
Proof. solve_decision. Defined.

(** One round of the map: [x -> x * x + x + 0x9E3779B9] on 32 bits. *)
Definition mix_step (x : word u32) : word u32 :=
  word_add (word_add (word_mul x x) x) (of_Z u32 0x9E3779B9).

(** The cells folded into one block, the counter added. *)
Definition mix_fold (cells : list (word u32)) (round : word u32) : word u32 :=
  foldl word_add round cells.

Definition mix_set_key (k : list (word u32)) (s : mix_state) : mix_state :=
  {| mix_space := mix_space s; mix_time := mix_time s;
     mix_cells := k; mix_round := mix_round s |}.

Definition mix_set_space (n : nat) (s : mix_state) : mix_state :=
  {| mix_space := n; mix_time := mix_time s;
     mix_cells := mix_cells s; mix_round := mix_round s |}.

Definition mix_set_time (n : nat) (s : mix_state) : mix_state :=
  {| mix_space := mix_space s; mix_time := n;
     mix_cells := mix_cells s; mix_round := mix_round s |}.

Definition mix_baseline (n t : nat) : mix_state :=
  {| mix_space := n; mix_time := t; mix_cells := []; mix_round := of_Z u32 0 |}.

Definition mix_reset (s : mix_state) : mix_state :=
  mix_baseline (mix_space s) (mix_time s).

Definition mix_push (b : word u32) (s : mix_state) : mix_state :=
  {| mix_space := mix_space s; mix_time := mix_time s;
     mix_cells := map (fun c => word_xor (word_add c (mix_round s)) b) (mix_cells s);
     mix_round := word_add (mix_round s) (of_Z u32 1) |}.

Definition mix_output (s : mix_state) : word u32 :=
  Nat.iter (mix_time s) mix_step (mix_fold (mix_cells s) (mix_round s)).

Definition mix_pull (s : mix_state) : mix_state :=
  {| mix_space := mix_space s; mix_time := mix_time s;
     mix_cells := map (word_add (mix_output s)) (mix_cells s);
     mix_round := word_add (mix_round s) (of_Z u32 1) |}.

Definition mix_default_key : list (word u32) :=
  map (of_Z u32) [0x14; 0x15; 0x92; 0x65; 0x35; 0x89; 0x79; 0x32]%Z.

Definition mixer : Engine := {|
  size_cell := word u32;
  size_push := word u32;
  size_pull := word u32;
  exn := Empty_set;
  engine := mix_state;
  engine_init := mix_baseline 0 0;
  __default_key := mix_default_key;
  __default_time := 1;
  __set_key k := modify (mix_set_key k);
  __set_space n := modify (mix_set_space n);
  __set_time n := modify (mix_set_time n);
  __reset := modify mix_reset;
  push b := modify (mix_push b);
  pull := let* b := gets mix_output in modify mix_pull ;; ret b;
|}.

#[export] Instance mixer_view : EngineView mixer :=
  Build_EngineView mixer mix_space mix_time mix_baseline.

(** * The strict engine *)

(** The exceptions of <stdexcept> the strict engine throws. *)
Inductive std_exception : Type :=
| invalid_argument
| length_error
| domain_error.

#[export] Instance std_exception_eq_dec : EqDecision std_exception.
Proof. solve_decision. Defined.

(** Throw [e] unless the test holds. *)
Definition require {S} (test : bool) (e : std_exception) : comp std_exception S unit :=
  if test then ret tt else throw e.

(** [mixer] with checks: a key must be non-empty and as long as the space, the
    space is at most 16 cells, the time must be positive, and a block is
    extracted only when the installed cells fill the space. *)
Definition strict : Engine := {|
  size_cell := word u32;
  size_push := word u32;
  size_pull := word u32;
  exn := std_exception;
  engine := mix_state;
  engine_init := mix_baseline 0 1;
  __default_key := mix_default_key;
  __default_time := 1;
  __set_key k :=
    require (negb (length k =? 0)) invalid_argument ;;
    (let* s := get in require (length k =? mix_space s) length_error) ;;
    modify (mix_set_key k);
  __set_space n := require (n <=? 16) length_error ;; modify (mix_set_space n);
  __set_time n := require (negb (n =? 0)) invalid_argument ;; modify (mix_set_time n);
  __reset := modify mix_reset;
  push b := modify (mix_push b);
  pull :=
    (let* s := get in require (length (mix_cells s) =? mix_space s) domain_error) ;;
    let* b := gets mix_output in modify mix_pull ;; ret b;
|}.

#[export] Instance strict_view : EngineView strict :=
  Build_EngineView strict mix_space mix_time mix_baseline.

(** * The echo engine: floating-point blocks *)

Record echo_state (t : float_type) : Type := EchoState {
  echo_space : nat;
  echo_time : nat;
  echo_cells : list (float t);
  echo_last : float t;
}.

Arguments EchoState {t} echo_space echo_time echo_cells echo_last.
Arguments echo_space {t} e.
Arguments echo_time {t} e.
Arguments echo_cells {t} e.
Arguments echo_last {t} e.

#[export] Instance echo_state_eq_dec t : EqDecision (echo_state t).
Proof. solve_decision. Defined.

Definition echo_baseline (t : float_type) (n time : nat) : echo_state t :=
  EchoState n time [] (float_zero t).

(** An engine on blocks of the floating-point type [t] that hands back the
    block it was fed last, and after a key was installed the first cell of
    the key. *)
Definition echo (t : float_type) : Engine := {|
  size_cell := float t;
  size_push := float t;
  size_pull := float t;
  exn := Empty_set;
  engine := echo_state t;
  engine_init := echo_baseline t 0 0;
  __default_key := [float_zero t];
  __default_time := 1;
  __set_key k :=
    modify (fun s => EchoState (echo_space s) (echo_time s) k (default (float_zero t) (head k)));
  __set_space n :=
    modify (fun s => EchoState n (echo_time s) (echo_cells s) (echo_last s));
  __set_time n :=
    modify (fun s => EchoState (echo_space s) n (echo_cells s) (echo_last s));
  __reset := modify (fun s => echo_baseline t (echo_space s) (echo_time s));
  push b :=
    modify (fun s => EchoState (echo_space s) (echo_time s) (echo_cells s) b);
  pull := gets echo_last;
|}.

#[export] Instance echo_view t : EngineView (echo t) :=
  Build_EngineView (echo t) echo_space echo_time (echo_baseline t).

(** * Decidable equality *)

#[export] Instance tracer_dec E `{!EngineDec E} : EngineDec (tracer E).
Proof. split; simpl; apply _. Defined.

#[export] Instance mixer_dec : EngineDec mixer.
Proof. split; simpl; apply _. Defined.

#[export] Instance strict_dec : EngineDec strict.
Proof. split; simpl; apply _. Defined.

#[export] Instance echo_dec t : EngineDec (echo t).
Proof. split; simpl; apply _. Defined.

(** * The engines meet the contract *)

Lemma mix_default_key_nonempty : mix_default_key ≠ [].
Proof. done. Qed.

#[export] Instance mixer_laws : EngineLaws mixer.
Proof.
  split; try apply _; try done; simpl; comp_cases; done.
Qed.

#[export] Instance mixer_total : EngineTotal mixer.
Proof. split; done. Qed.

#[export] Instance tracer_total E : EngineTotal (tracer E).
Proof. split; done. Qed.

Lemma require_returns {S} (test : bool) e (s s' : S) u :
  require test e s = Returns s' u <-> test = true ∧ s' = s.
Proof. unfold require. destruct test, u; comp_cases; naive_solver. Qed.

Lemma require_throws {S} (test : bool) e (s s' : S) e' :
  require test e s = Throws s' e' <-> test = false ∧ s' = s ∧ e' = e.
Proof. unfold require. destruct test; comp_cases; naive_solver. Qed.

#[export] Instance strict_laws : EngineLaws strict.
Proof.
  split; try apply _; try done; simpl; unfold require;
    comp_cases; done.
Qed.

#[export] Instance mixer_key_laws : EngineKeyLaws mixer.
Proof. split; intros *; unfold run_hooks; simpl; comp_cases; naive_solver. Qed.

#[export] Instance strict_key_laws : EngineKeyLaws strict.
Proof.
  split; intros *; unfold run_hooks; simpl; unfold require; comp_cases;
    try naive_solver.
Qed.

#[export] Instance echo_laws t : EngineLaws (echo t).
Proof. split; try done; simpl; comp_cases; done. Qed.

#[export] Instance echo_total t : EngineTotal (echo t).
Proof. split; done. Qed.

#[export] Instance echo_key_laws t : EngineKeyLaws (echo t).
Proof. split; intros *; unfold run_hooks; simpl; comp_cases; naive_solver. Qed.

(** The round counter of the mixer and of the strict engine. *)
#[export] Instance mixer_round : EngineRound mixer.
Proof. refine (Build_EngineRound mixer (word u32) mix_round _ _); simpl; comp_cases; done. Defined.

#[export] Instance strict_round : EngineRound strict.
Proof.
  refine (Build_EngineRound strict (word u32) mix_round _ _);
    simpl; unfold require; comp_cases; done.
Defined.
