(* ===== verification/Machine.v ===== *)
(** * Machine: the adapter of include/chaos/machine.hh

    The object state of [machine<engine>], one definition per member function
    written as its body is, the constructor, the public interface as the data
    type [call_of] ([call] at the types of the engine), sessions of calls,
    and the objects a caller can reach.  The
    lemmas of this file say how each body runs on the engine sub-object; the
    files that follow state the adapter's properties. *)

From Stdlib Require Import ZArith Lia.
From stdpp Require Import prelude.
From S2P Require Import Prelude Collect Limits Engine.

Local Open Scope comp_scope.

(** * The public interface as data *)

(** A call of a public member with its arguments, over the types of cells
    and of blocks fed: adapters of engines with the same types take the same
    calls. *)
Inductive call_of (C P : Type) : Type :=
| CSetKey (key : list C)
| CSetSpace (value : nat)
| CSetTime (value : nat)
| CReset
| CShl (block : P)
| CShr
| CCall.

Arguments CSetKey {C P} key.
Arguments CSetSpace {C P} value.
Arguments CSetTime {C P} value.
Arguments CReset {C P}.
Arguments CShl {C P} block.
Arguments CShr {C P}.
Arguments CCall {C P}.

#[export] Instance call_of_eq_dec {C P : Type} `{!EqDecision C, !EqDecision P} :
  EqDecision (call_of C P).
Proof. solve_decision. Defined.

(** A call with its cells and blocks converted. *)
Definition call_map {C1 C2 P1 P2 : Type} (f : C1 -> C2) (g : P1 -> P2)
    (c : call_of C1 P1) : call_of C2 P2 :=
  match c with
  | CSetKey key => CSetKey (f <$> key)
  | CSetSpace value => CSetSpace value
  | CSetTime value => CSetTime value
  | CReset => CReset
  | CShl block => CShl (g block)
  | CShr => CShr
  | CCall => CCall
  end.

Lemma call_map_id {C P : Type} (c : call_of C P) : call_map id id c = c.
Proof. destruct c; simpl; by rewrite ?list_fmap_id. Qed.

Section Machine.
Context `{E : Engine}.

(** * The object *)

(** [class machine : public virtual engine { std::vector<size_cell> key; }]:
    the engine sub-object and the one data member. *)
Record machine : Type := Machine {
  base : engine;
  key : list size_cell;
}.

Definition with_base (e : engine) (m : machine) : machine :=
  {| base := e; key := key m |}.

Definition with_key (k : list size_cell) (m : machine) : machine :=
  {| base := base m; key := k |}.

(** [this->hook(args)]: the hook runs on the engine sub-object. *)
Definition on_engine {A} (c : comp exn engine A) : comp exn machine A :=
  zoom base with_base c.

(** The outcome of a hook, seen from the object whose cached key is [k]. *)
Definition lift (k : list size_cell) {A} (o : outcome exn engine A) :
    outcome exn machine A :=
  match o with
  | Returns s a => Returns {| base := s; key := k |} a
  | Throws s e => Throws {| base := s; key := k |} e
  | Terminates => Terminates
  end.

(** [this->key = k] and a read of [this->key]. *)
Definition assign_key (k : list size_cell) : comp exn machine unit :=
  modify (with_key k).

Definition read_key : comp exn machine (list size_cell) := gets key.

(** [key.size() != 0 ? key : this->__default_key] *)
Definition resolve (key : list size_cell) : list size_cell :=
  if negb (length key =? 0) then key else __default_key.

(** * Member functions *)

(** [void set_space(size_t value) { this->__set_space(value); }] *)
Definition set_space (value : nat) : comp exn machine unit :=
  on_engine (__set_space value).

(** [void set_time(size_t value) { this->__set_time(value); }] *)
Definition set_time (value : nat) : comp exn machine unit :=
  on_engine (__set_time value).

(** [void reset() { this->__reset(); this->__set_key(this->key); }] *)
Definition reset : comp exn machine unit :=
  on_engine __reset ;;
  let* k := read_key in
  on_engine (__set_key k).

(** [void set_key(std::vector<size_cell> key)]: the parameter hides the
    member, so the last statement hands the engine the caller's vector. *)
Definition set_key (key : list size_cell) : comp exn machine unit :=
  assign_key (resolve key) ;;
  (let* k := read_key in set_space (length k)) ;;
  on_engine (__set_key key).

(** The body of [machine(std::vector<size_cell> key)]. *)
Definition machine_ctor (key : list size_cell) : comp exn machine unit :=
  assign_key (resolve key) ;;
  (let* k := read_key in set_space (length k)) ;;
  set_time __default_time ;;
  reset.

(** The object before the constructor's body runs: the engine sub-object
    default-constructed, [key] empty. *)
Definition raw_machine : machine := {| base := engine_init; key := [] |}.

(** Construction: the new object, or the exception of the body, which
    leaves no object behind. *)
Definition construct (key : list size_cell) : outcome exn unit machine :=
  match machine_ctor key raw_machine with
  | Returns m _ => Returns tt m
  | Throws _ e => Throws tt e
  | Terminates => Terminates
  end.

(** [static max()] and [static min()]. *)
Definition max : size_pull := limits_max.

Definition min : size_pull := limits_lowest.

(** [operator<<(instance, block) { instance.push(block); return instance; }] *)
Definition operator_shl (block : size_push) : comp exn machine unit :=
  on_engine (push block).

(** [operator>>(instance, block) { block = instance.pull(); return instance; }]:
    the result is the new content of [block]. *)
Definition operator_shr : comp exn machine size_pull :=
  let* block := on_engine pull in
  ret block.

(** [operator()() noexcept { return this->pull(); }] *)
Definition operator_call : comp exn machine size_pull :=
  noexcept (on_engine pull).

(** * The public interface *)

(** The calls a caller can make on an object of the engine. *)
Definition call : Type := call_of size_cell size_push.

(** One call of the interface; the streaming reads yield their block. *)
Definition run_call (c : call) : comp exn machine (option size_pull) :=
  match c with
  | CSetKey key => set_key key ;; ret None
  | CSetSpace value => set_space value ;; ret None
  | CSetTime value => set_time value ;; ret None
  | CReset => reset ;; ret None
  | CShl block => operator_shl block ;; ret None
  | CShr => let* b := operator_shr in ret (Some b)
  | CCall => let* b := operator_call in ret (Some b)
  end.

(** A caller's sequence of calls, with the blocks it read.  An exception
    ends the sequence here; [reachable] below lets the caller go on. *)
Definition run_calls (cs : list call) : comp exn machine (list size_pull) :=
  collect run_call cs.

(** The objects a program can hold: constructed, then used through the
    interface.  A call that throws leaves the object usable, as the caller
    may catch the exception. *)
Inductive reachable : machine -> Prop :=
| reachable_construct key m :
    construct key = Returns tt m -> reachable m
| reachable_call c m m' :
    reachable m -> state_of (run_call c m) = Some m' -> reachable m'.

(** The object a construction returned, the raw object if it threw. *)
Definition built (k : list size_cell) : machine :=
  match construct k with
  | Returns _ m => m
  | _ => raw_machine
  end.

(** The object a sequence of calls leaves, the object itself if the program
    was terminated. *)
Definition after (cs : list call) (m : machine) : machine :=
  default m (state_of (run_calls cs m)).

(** The blocks a sequence of calls read, if every call returned. *)
Definition blocks (cs : list call) (m : machine) : option (list size_pull) :=
  value_of (run_calls cs m).

End Machine.

(** * Automation for method bodies *)

(** Unfold the member functions down to the hooks they call. *)
Ltac machine_unfold :=
  unfold run_call, set_key, machine_ctor, reset, set_space, set_time,
    operator_shl, operator_shr, operator_call, on_engine, assign_key, read_key,
    with_base, with_key in *.

(** Decide a goal about a method by running it on every outcome of its hooks. *)
Ltac machine_cases := machine_unfold; comp_cases.

(** * Decidable equality *)

#[export] Instance machine_eq_dec `{E : Engine} `{!EngineDec E} : EqDecision machine.
Proof. solve_decision. Defined.

#[export] Instance call_eq_dec `{E : Engine} `{!EngineDec E} : EqDecision call.
Proof. unfold call. apply _. Defined.

(** * The object and its sub-object *)

Section MachineBasics.
Context `{E : Engine}.
Implicit Types (m : machine) (k : list size_cell).

#[export] Instance base_lens : Lens base with_base.
Proof. split; by intros; try destruct s. Qed.

#[export] Instance key_lens : Lens key with_key.
Proof. split; by intros; try destruct s. Qed.

Lemma on_engine_lift {A} (c : comp exn engine A) m :
  on_engine c m = lift (key m) (c (base m)).
Proof. done. Qed.

Lemma lift_returns {A} k (o : outcome exn engine A) m a :
  lift k o = Returns m a <-> o = Returns (base m) a ∧ key m = k.
Proof. destruct o, m; naive_solver. Qed.

Lemma lift_throws {A} k (o : outcome exn engine A) m e :
  lift k o = Throws m e <-> o = Throws (base m) e ∧ key m = k.
Proof. destruct o, m; naive_solver. Qed.

Lemma lift_terminates {A} k (o : outcome exn engine A) :
  lift k o = Terminates <-> o = Terminates.
Proof. destruct o; naive_solver. Qed.

Lemma on_engine_returns {A} (c : comp exn engine A) m m' a :
  on_engine c m = Returns m' a <->
  exists s, c (base m) = Returns s a ∧ m' = with_base s m.
Proof. apply zoom_returns. Qed.

Lemma on_engine_throws {A} (c : comp exn engine A) m m' e :
  on_engine c m = Throws m' e <->
  exists s, c (base m) = Throws s e ∧ m' = with_base s m.
Proof. apply zoom_throws. Qed.

(** A hook never touches the cached key. *)
Lemma on_engine_key {A} (c : comp exn engine A) m m' :
  state_of (on_engine c m) = Some m' -> key m' = key m.
Proof. machine_cases; done. Qed.

Lemma on_engine_bind {A B} (c : comp exn engine A) (f : A -> comp exn engine B) :
  on_engine (bind c f) ≡ bind (on_engine c) (fun a => on_engine (f a)).
Proof. apply (zoom_bind base with_base). Qed.

(** * The fallback to the default key *)

Lemma resolve_nil : resolve [] = __default_key.
Proof. done. Qed.

Lemma resolve_cons c k : resolve (c :: k) = c :: k.
Proof. done. Qed.

Lemma resolve_nonempty_id k : k ≠ [] -> resolve k = k.
Proof. by destruct k. Qed.

Lemma resolve_nonempty k : __default_key ≠ [] -> resolve k ≠ [].
Proof. by destruct k. Qed.

Lemma resolve_idemp k : __default_key ≠ [] -> resolve (resolve k) = resolve k.
Proof. intros H. by apply resolve_nonempty_id, resolve_nonempty. Qed.

End MachineBasics.

(** * Every method is a sequence of hooks on the engine *)

Section Bodies.
Context `{E : Engine}.
Implicit Types (m : machine) (k : list size_cell).

Lemma set_space_run n m : set_space n m = lift (key m) (__set_space n (base m)).
Proof. done. Qed.

Lemma set_time_run n m : set_time n m = lift (key m) (__set_time n (base m)).
Proof. done. Qed.

Lemma operator_shl_run b m : operator_shl b m = lift (key m) (push b (base m)).
Proof. done. Qed.

Lemma operator_shr_run m : operator_shr m = lift (key m) (pull (base m)).
Proof. machine_unfold. comp_unfold. by destruct (pull (base m)). Qed.

Lemma operator_call_run m :
  operator_call m = lift (key m) (noexcept pull (base m)).
Proof. machine_unfold. comp_unfold. by destruct (pull (base m)). Qed.

Lemma reset_run m :
  reset m = lift (key m) ((__reset ;; __set_key (key m)) (base m)).
Proof.
  machine_unfold. comp_unfold. destruct (__reset (base m)) as [s u| |]; [|done..].
  simpl. by destruct (__set_key (key m) s).
Qed.

Lemma set_key_run k m :
  set_key k m =
  lift (resolve k) ((__set_space (length (resolve k)) ;; __set_key k) (base m)).
Proof.
  machine_unfold. comp_unfold. cbn [base key].
  destruct (__set_space _ (base m)) as [s u| |]; [|done..].
  cbn [base key]. by destruct (__set_key k s).
Qed.

Lemma machine_ctor_run k m :
  machine_ctor k m =
  lift (resolve k)
    ((__set_space (length (resolve k)) ;; __set_time __default_time ;;
      __reset ;; __set_key (resolve k)) (base m)).
Proof.
  machine_unfold. comp_unfold. cbn [base key].
  destruct (__set_space _ (base m)) as [s1 u1| |]; [|done..]. cbn [base key lift].
  destruct (__set_time _ s1) as [s2 u2| |]; [|done..]. cbn [base key lift].
  destruct (__reset s2) as [s3 u3| |]; [|done..]. cbn [base key lift].
  by destruct (__set_key _ s3).
Qed.
End Bodies.

(** * Reachable objects *)

Section Reach.
Context `{E : Engine}.

Lemma reachable_built (k : list size_cell) :
  returns (construct k) = true -> reachable (built k).
Proof.
  unfold built. destruct (construct k) as [[] m| |] eqn:H; [|done..].
  intros _. by eapply reachable_construct.
Qed.

Lemma construct_built (k : list size_cell) :
  returns (construct k) = true -> construct k = Returns tt (built k).
Proof. unfold built. by destruct (construct k) as [[] m| |]. Qed.

Lemma run_calls_after (cs : list call) (m : machine) :
  returns (run_calls cs m) = true ->
  run_calls cs m = Returns (after cs m) (default [] (blocks cs m)).
Proof. unfold after, blocks. by destruct (run_calls cs m). Qed.

(** Whatever a sequence of calls leaves is reachable. *)
Lemma reachable_after (cs : list call) (m : machine) :
  reachable m -> reachable (after cs m).
Proof.
  unfold after, run_calls. revert m. induction cs as [|c cs IH]; intros m Hm; [done|].
  simpl. unfold bind at 1. destruct (run_call c m) as [m1 o|m1 e|] eqn:Hc; [| |done].
  - assert (reachable m1) as H1 by (eapply reachable_call; [done|by rewrite Hc]).
    specialize (IH _ H1). unfold bind, ret.
    by destruct (collect run_call cs m1).
  - simpl. eapply reachable_call; [done|by rewrite Hc].
Qed.

End Reach.
