(* ===== verification/Spec.v ===== *)
(** * Spec: the adapter as sequences of hook calls

    The abstract specification of the adapter: which hooks a call of the
    interface makes, in which order ([hooks_of], [hooks_of_ctor]), what it
    does to the cached key ([key_after]) and how it ends ([spec_call],
    [spec_construct]); the same for whole sessions ([session_hooks],
    [session_key]).  The refinement theorems say that the member functions
    of [Machine] implement it, on every engine and for every outcome. *)

From Stdlib Require Import ZArith Lia.
From stdpp Require Import prelude.
From S2P Require Import Prelude Collect Limits Engine Machine.

Local Open Scope comp_scope.

Section Spec.
Context `{E : Engine}.

(** * The adapter as sequences of hook calls *)

(** The hooks a call makes, in order, given the cached key before it. *)
Definition hooks_of (c : call) (cached : list size_cell) : list hook :=
  match c with
  | CSetKey key => [HSetSpace (length (resolve key)); HSetKey key]
  | CSetSpace value => [HSetSpace value]
  | CSetTime value => [HSetTime value]
  | CReset => [HReset; HSetKey cached]
  | CShl block => [HPush block]
  | CShr | CCall => [HPull]
  end.

(** The cached key after a call, whether it returned or threw. *)
Definition key_after (c : call) (cached : list size_cell) : list size_cell :=
  match c with
  | CSetKey key => resolve key
  | _ => cached
  end.

Definition is_noexcept (c : call) : bool :=
  match c with CCall => true | _ => false end.

(** The calls that feed, extract or reset: they configure nothing. *)
Definition streaming (c : call) : bool :=
  match c with
  | CShl _ | CShr | CCall | CReset => true
  | CSetKey _ | CSetSpace _ | CSetTime _ => false
  end.

(** The calls that extract a block: [operator>>] and [operator()]. *)
Definition extracts (c : call) : bool :=
  match c with
  | CShr | CCall => true
  | _ => false
  end.

(** The calls that are not [set_space]. *)
Definition keeps_space (c : call) : bool :=
  match c with
  | CSetSpace _ => false
  | _ => true
  end.

(** Space and time after a call that returned. *)
Definition view_after (c : call) (cached : list size_cell) (v : nat * nat) : nat * nat :=
  match c with
  | CSetKey key => (length (resolve key), v.2)
  | CSetSpace n => (n, v.2)
  | CSetTime n => (v.1, n)
  | _ => v
  end.

(** The specification of a call: its hooks run on the engine, the cached key
    updated, an exception passed on unless the call is [noexcept]. *)
Definition spec_call (c : call) : comp exn machine (option size_pull) :=
  fun m =>
    match run_hooks (hooks_of c (key m)) (base m) with
    | Returns s bs => Returns {| base := s; key := key_after c (key m) |} (head bs)
    | Throws s e =>
        if is_noexcept c then Terminates
        else Throws {| base := s; key := key_after c (key m) |} e
    | Terminates => Terminates
    end.

(** The hooks of a whole session, the cached key threaded through it, and
    the cached key at its end. *)
Fixpoint session_hooks (cs : list call) (cached : list size_cell) : list hook :=
  match cs with
  | [] => []
  | c :: cs' => hooks_of c cached ++ session_hooks cs' (key_after c cached)
  end.

Definition session_key (cs : list call) (cached : list size_cell) :
    list size_cell :=
  foldl (flip key_after) cached cs.

(** The hooks of a construction with [key]. *)
Definition hooks_of_ctor (key : list size_cell) : list hook :=
  [HSetSpace (length (resolve key)); HSetTime __default_time;
   HReset; HSetKey (resolve key)].

Definition spec_construct (key : list size_cell) : outcome exn unit machine :=
  match run_hooks (hooks_of_ctor key) engine_init with
  | Returns s _ => Returns tt {| base := s; key := resolve key |}
  | Throws _ e => Throws tt e
  | Terminates => Terminates
  end.

End Spec.

(** * Every call is its sequence of hooks *)

Section Refinement.
Context `{E : Engine}.
Implicit Types (m : machine) (k : list size_cell) (c : call).

(** Split on the outcome of the next hook that is scrutinised. *)
Ltac next_hook :=
  match goal with
  | |- context [match ?h ?s with Returns _ _ => _ | _ => _ end] =>
      destruct (h s) as [? ?| |]; cbn [head option_list app]; try done
  end.

Lemma key_after_nonempty c k :
  __default_key ≠ [] -> k ≠ [] -> key_after c k ≠ [].
Proof. destruct c; simpl; auto using resolve_nonempty. Qed.

Lemma run_call_spec_call c m : run_call c m = spec_call c m.
Proof.
  unfold spec_call, run_call, run_hooks.
  destruct c; unfold bind at 1;
    rewrite ?set_key_run, ?set_space_run, ?set_time_run, ?reset_run,
      ?operator_shl_run, ?operator_shr_run, ?operator_call_run;
    cbn [hooks_of key_after is_noexcept collect run_hook];
    unfold lift, bind, ret, noexcept; repeat next_hook.
Qed.

Lemma construct_spec_construct k : construct k = spec_construct k.
Proof.
  unfold construct, spec_construct, run_hooks. rewrite machine_ctor_run.
  cbn [hooks_of_ctor collect run_hook raw_machine base key].
  unfold lift, bind, ret; repeat next_hook.
Qed.

(** The cached key after a call that left the object alive. *)
Lemma run_call_key c m m' :
  state_of (run_call c m) = Some m' -> key m' = key_after c (key m).
Proof.
  rewrite run_call_spec_call. unfold spec_call.
  repeat case_match; simpl; intros; by simplify_eq/=.
Qed.

(** The engine after a call that returned, and the block it read. *)
Lemma run_call_returns c m m' o :
  run_call c m = Returns m' o <->
  exists bs, run_hooks (hooks_of c (key m)) (base m) = Returns (base m') bs
    ∧ key m' = key_after c (key m) ∧ o = head bs.
Proof.
  rewrite run_call_spec_call. unfold spec_call. destruct m' as [s' k'].
  repeat case_match; naive_solver.
Qed.

(** A call throws when it is not [noexcept] and its hooks throw. *)
Lemma run_call_throws c m m' e :
  run_call c m = Throws m' e <->
  is_noexcept c = false ∧
  run_hooks (hooks_of c (key m)) (base m) = Throws (base m') e ∧
  key m' = key_after c (key m).
Proof.
  rewrite run_call_spec_call. unfold spec_call. destruct m'.
  repeat case_match; naive_solver.
Qed.

Lemma construct_returns k m :
  construct k = Returns tt m <->
  exists bs, run_hooks (hooks_of_ctor k) engine_init = Returns (base m) bs
    ∧ key m = resolve k.
Proof.
  rewrite construct_spec_construct. unfold spec_construct. destruct m as [s' k'].
  repeat case_match; naive_solver.
Qed.

End Refinement.

(** * Sessions *)

Section Sessions.
Context `{E : Engine}.
Implicit Types (m : machine) (k : list size_cell) (c : call) (cs : list call).

Lemma run_calls_cons_returns c cs m m' bs :
  run_calls (c :: cs) m = Returns m' bs <->
  exists m1 o bs', run_call c m = Returns m1 o ∧
    run_calls cs m1 = Returns m' bs' ∧ bs = option_list o ++ bs'.
Proof. apply collect_cons_returns. Qed.

(** A property that every returning call of a kind keeps holds at the end of
    a session of such calls. *)
Lemma run_calls_invariant (I : machine -> Prop) (P : call -> bool) cs m m' bs :
  (forall c m1 m2 o, P c = true -> I m1 -> run_call c m1 = Returns m2 o -> I m2) ->
  Forall (fun c => P c = true) cs ->
  I m -> run_calls cs m = Returns m' bs -> I m'.
Proof. apply collect_invariant. Qed.

(** A call yields a block exactly when it is an extraction. *)
Lemma run_call_yields c m m' o :
  run_call c m = Returns m' o -> is_Some o <-> extracts c = true.
Proof.
  destruct c; simpl; intros (? & ? & _ & [= _ <-])%bind_returns;
    rewrite <-?not_eq_None_Some; naive_solver.
Qed.

(** The hooks of one call yield at most the one block the call reads. *)
Lemma hooks_of_blocks c k s s' bs :
  run_hooks (hooks_of c k) s = Returns s' bs -> option_list (head bs) = bs.
Proof.
  unfold run_hooks. destruct c; cbn [hooks_of collect run_hook]; unfold bind, ret;
    repeat case_match; intros; by simplify_eq/=.
Qed.

(** The hooks of a session that returns, run on the engine, return the
    session's blocks and leave the engine the session leaves. *)
Lemma run_calls_hooks cs m m' bs :
  run_calls cs m = Returns m' bs ->
  run_hooks (session_hooks cs (key m)) (base m) = Returns (base m') bs ∧
  key m' = session_key cs (key m).
Proof.
  revert m bs. induction cs as [|c cs IH]; intros m bs.
  - unfold run_calls, run_hooks. simpl. unfold ret. destruct m, m'. naive_solver.
  - intros (m1 & o & bs' & (bs1 & H1 & Hk & ->)%run_call_returns & [H2 ->]%IH & ->)
      %run_calls_cons_returns.
    cbn [session_hooks session_key foldl flip]. rewrite run_hooks_app_returns.
    rewrite (hooks_of_blocks _ _ _ _ _ H1), <-Hk. eauto 10.
Qed.

(** Where the hooks of a session return, the session returns. *)
Lemma hooks_run_calls cs m s bs :
  run_hooks (session_hooks cs (key m)) (base m) = Returns s bs ->
  run_calls cs m = Returns {| base := s; key := session_key cs (key m) |} bs.
Proof.
  revert m bs. induction cs as [|c cs IH]; intros m bs.
  - unfold run_calls, run_hooks. simpl. unfold ret. destruct m. naive_solver.
  - cbn [session_hooks session_key foldl flip].
    intros (s1 & bs1 & bs2 & H1 & H2 & ->)%run_hooks_app_returns.
    apply run_calls_cons_returns.
    exists {| base := s1; key := key_after c (key m) |}, (head bs1), bs2.
    rewrite (hooks_of_blocks _ _ _ _ _ H1). split_and!; [|by apply IH|done].
    apply run_call_returns. eauto.
Qed.

(** C5: a session that returns is a refinement of its hook sequence: the
    calls return with blocks [bs] and leave object [m'] exactly when the
    hooks of the session, run in order on the engine, return [bs] and leave
    the engine of [m'], and the cached key is the last key resolved. *)
Theorem run_calls_refines cs m m' bs :
  run_calls cs m = Returns m' bs <->
  run_hooks (session_hooks cs (key m)) (base m) = Returns (base m') bs ∧
  key m' = session_key cs (key m).
Proof.
  split; [apply run_calls_hooks|]. destruct m' as [s' k']. simpl.
  intros [H%hooks_run_calls ->]. done.
Qed.

(** C6: every call of the interface is its specification, on every engine
    and for every outcome: the hooks of [hooks_of] in order, the cached key
    of [key_after], the first exception passed on unchanged, or termination
    when the call is [noexcept]. *)
Theorem run_call_refines c : run_call c ≡ spec_call c.
Proof. intros m. apply run_call_spec_call. Qed.

(** C9: construction is its specification: the four hooks
    [__set_space], [__set_time], [__reset], [__set_key] in this order on the
    default-constructed engine, with the resolved key; an exception of a
    hook is the exception of the constructor. *)
Theorem construct_refines k : construct k = spec_construct k.
Proof. apply construct_spec_construct. Qed.

End Sessions.

(** * The specification under a conversion of cells and blocks *)

(** Two engines whose default keys correspond under a conversion of the
    cells: the hooks of a converted call are the hooks of the call,
    converted.  The adapter looks at the length of a key only. *)
Section SpecMap.
Context {E1 E2 : Engine}.
Context (f : @size_cell E1 -> @size_cell E2) (g : @size_push E1 -> @size_push E2).
Context (Hdefault : @__default_key E2 = f <$> @__default_key E1).
Implicit Types (c : call (E:=E1)) (cs : list (call (E:=E1))) (k : list (@size_cell E1)).

Lemma resolve_map k : resolve (E:=E2) (f <$> k) = f <$> resolve (E:=E1) k.
Proof. unfold resolve. rewrite length_fmap, Hdefault. by case_match. Qed.

Lemma hooks_of_map c k :
  hooks_of (E:=E2) (call_map f g c) (f <$> k) = hook_map f g <$> hooks_of (E:=E1) c k.
Proof. destruct c; simpl; by rewrite ?resolve_map, ?length_fmap. Qed.

Lemma key_after_map c k :
  key_after (E:=E2) (call_map f g c) (f <$> k) = f <$> key_after (E:=E1) c k.
Proof. destruct c; simpl; by rewrite ?resolve_map. Qed.

Lemma hooks_of_ctor_map k :
  @__default_time E2 = @__default_time E1 ->
  hooks_of_ctor (E:=E2) (f <$> k) = hook_map f g <$> hooks_of_ctor (E:=E1) k.
Proof. intros Ht. unfold hooks_of_ctor. simpl. by rewrite resolve_map, length_fmap, Ht. Qed.

End SpecMap.
