(* ===== verification/Scenarios.v ===== *)
(** * Scenarios: the objects the witnesses evaluate on

    The key [1, 2, 3, 4] of the specification's scenario, the object it
    constructs on each engine of [Engines], and sessions on them. *)

From Stdlib Require Import ZArith Lia.
From stdpp Require Import prelude.
From S2P Require Import Prelude Collect Limits Engine Engines Machine.

Local Open Scope comp_scope.

(** The key [1, 2, 3, 4] of the specification's scenario. *)
Definition key4 : list (word u32) := map (of_Z u32) [1; 2; 3; 4]%Z.

(** The scenario's object on each engine. *)
Definition strict4 : machine (E:=strict) := built (E:=strict) key4.
Definition mixer4 : machine (E:=mixer) := built (E:=mixer) key4.
Definition tracer4 : machine (E:=tracer mixer) := built (E:=tracer mixer) key4.

(** Calls on the mixer with their arguments given as integers. *)
Definition feed (z : Z) : call (E:=mixer) := CShl (of_Z u32 z).
Definition rekey (zs : list Z) : call (E:=mixer) :=
  CSetKey (map (of_Z u32) zs).

(** A session on the mixer: extract, feed, extract, reset, extract twice. *)
Definition busy : list (call (E:=mixer)) :=
  [CShr; feed 7; CCall; CReset; CShr; CShr].

Lemma reachable_strict4 : reachable strict4.
Proof. apply reachable_built. by vm_compute. Qed.

Lemma reachable_mixer4 : reachable mixer4.
Proof. apply reachable_built. by vm_compute. Qed.

Lemma reachable_tracer4 : reachable tracer4.
Proof. apply reachable_built. by vm_compute. Qed.
