(* ===== verification/Lifecycle.v ===== *)
(** * Lifecycle: key, space, time and reset on a lawful engine

    What construction, [set_key], [set_space] and [reset] establish when the
    engine satisfies [EngineLaws]: the cached key is never empty, the space
    follows the key's length, [reset] returns to the state of construction
    and depends on nothing but key, space and time.  On every engine, the
    constructor sees its argument through [resolve] only. *)

From Stdlib Require Import ZArith Lia.
From stdpp Require Import prelude.
From S2P Require Import Prelude Collect Limits Engine Engines Machine Spec Scenarios.

Local Open Scope comp_scope.

(** * What the calls do to a lawful engine's parameters *)

Section Lawful.
Context `{E : Engine} `{!EngineView E} `{!EngineLaws E}.
Implicit Types (m : machine) (k : list size_cell) (c : call).

Lemma run_call_view c m m' o :
  run_call c m = Returns m' o ->
  view (base m') = view_after c (key m) (view (base m)).
Proof.
  intros (bs & H & _)%run_call_returns. rewrite (run_hooks_view _ _ _ _ H).
  by destruct c, (view (base m)).
Qed.

Lemma view_after_streaming c cached v :
  streaming c = true -> view_after c cached v = v.
Proof. by destruct c. Qed.

Lemma key_after_streaming c cached :
  streaming c = true -> key_after c cached = cached.
Proof. by destruct c. Qed.

(** Feeding, extracting and resetting change neither the cached key nor the
    engine's parameters. *)
Lemma run_calls_streaming cs m m' bs :
  Forall (fun c => streaming c = true) cs ->
  run_calls cs m = Returns m' bs ->
  key m' = key m ∧ view (base m') = view (base m).
Proof.
  intros Hcs. revert m bs. induction Hcs as [|c cs Hc _ IH]; intros m bs; simpl.
  - unfold ret. by intros [= <- _].
  - intros (m1 & o & H1 & H)%bind_returns.
    apply bind_returns in H as (m2 & bs' & H2 & H). unfold ret in H.
    simplify_eq. destruct (IH _ _ H2) as [-> ->].
    rewrite (run_call_view _ _ _ _ H1), view_after_streaming by done.
    rewrite (run_call_key c m m1) by (by rewrite H1).
    by rewrite key_after_streaming.
Qed.

(** A construction that returned went through the baseline of its
    parameters and installed the resolved key there. *)
Lemma construct_baseline k m :
  construct k = Returns tt m ->
  key m = resolve k ∧
  view (base m) = (length (resolve k), __default_time) ∧
  exists u, __set_key (resolve k) (baseline (length (resolve k)) __default_time)
    = Returns (base m) u.
Proof.
  intros Hc. pose proof Hc as (bs & Hv & Hk)%construct_returns.
  split; [done|]. split; [by rewrite (run_hooks_view _ _ _ _ Hv)|].
  unfold construct in Hc. rewrite machine_ctor_run in Hc.
  destruct (lift _ _) as [m1 []| |] eqn:H; simplify_eq.
  apply lift_returns in H as [H _]. cbn [raw_machine base] in H.
  apply bind_returns in H as (s1 & u1 & [Hs1 Ht1]%set_space_view & H).
  apply bind_returns in H as (s2 & u2 & [Hs2 Ht2]%set_time_view & H).
  apply bind_returns in H as (s3 & u3 & ->%reset_baseline & H).
  exists tt. by rewrite <-H, Hs2, Ht2, Hs1.
Qed.

(** [reset] from any state whose [__reset] returns: the key installed in the
    baseline of the current parameters. *)
Lemma reset_baseline_run m s u :
  __reset (base m) = Returns s u ->
  reset m =
  lift (key m) (__set_key (key m) (baseline (space_of (base m)) (time_of (base m)))).
Proof.
  intros H. rewrite reset_run. unfold bind at 1. rewrite H.
  by rewrite (reset_baseline _ _ _ H).
Qed.

Lemma reset_returns_inv m m' u :
  reset m = Returns m' u -> returns (__reset (base m)) = true.
Proof.
  rewrite reset_run. intros [H _]%lift_returns.
  by apply bind_returns in H as (? & ? & -> & _).
Qed.

Lemma run_calls_reset_returns cs m m' bs :
  run_calls (CReset :: cs) m = Returns m' bs -> returns (__reset (base m)) = true.
Proof.
  intros (m1 & o & H & _)%bind_returns.
  apply bind_returns in H as (m2 & u & H & _). by eapply reset_returns_inv.
Qed.

(** Two objects with the same key, space and time reset alike. *)
Lemma reset_config_eq m1 m2 :
  key m1 = key m2 -> view (base m1) = view (base m2) ->
  returns (__reset (base m1)) = true -> returns (__reset (base m2)) = true ->
  reset m1 = reset m2.
Proof.
  intros Hk [= Hs Ht] (s1 & u1 & H1)%returns_true (s2 & u2 & H2)%returns_true.
  rewrite (reset_baseline_run _ _ _ H1), (reset_baseline_run _ _ _ H2).
  by rewrite Hk, Hs, Ht.
Qed.

(** A reset of an object that has the key, the space and the time of a
    constructed object gives the constructed object. *)
Lemma reset_to_construction k m0 m :
  construct k = Returns tt m0 ->
  key m = key m0 -> view (base m) = view (base m0) ->
  returns (__reset (base m)) = true ->
  reset m = Returns m0 tt.
Proof.
  intros (Hk & Hv & u0 & Hset)%construct_baseline Hkey Hview (s & u & Hr)%returns_true.
  rewrite (reset_baseline_run _ _ _ Hr). rewrite Hv in Hview.
  injection Hview as -> ->. rewrite Hkey, Hk, Hset.
  destruct m0, u0; simpl in *. by rewrite Hk.
Qed.

(** C1: on a lawful engine, [reset] undoes all streaming: from the object a
    construction returned, after any sequence of feeds, extractions and
    resets, a [reset] whose [__reset] hook returns gives back exactly the
    constructed object, engine state and key. *)
Theorem reset_restores_construction k m0 cs m bs :
  construct k = Returns tt m0 ->
  Forall (fun c => streaming c = true) cs ->
  run_calls cs m0 = Returns m bs ->
  returns (__reset (base m)) = true ->
  reset m = Returns m0 tt.
Proof.
  intros Hc Hcs [Hkey Hview]%run_calls_streaming Hr; [|done].
  by apply (reset_to_construction k).
Qed.

(** C3: a construction that returns leaves the resolved key cached, the
    engine's space equal to the cached key's length and its time equal to the
    default time. *)
Theorem construct_config k m :
  construct k = Returns tt m ->
  key m = resolve k ∧
  space_of (base m) = length (key m) ∧
  time_of (base m) = __default_time.
Proof.
  intros (Hk & [= Hs Ht] & _)%construct_baseline. by rewrite Hk.
Qed.

(** C4: a [set_key] that returns leaves the resolved key cached and the
    space equal to its length, and does not touch the time. *)
Theorem set_key_config k m m' u :
  set_key k m = Returns m' u ->
  key m' = resolve k ∧
  space_of (base m') = length (key m') ∧
  time_of (base m') = time_of (base m).
Proof.
  rewrite set_key_run. intros [H ->]%lift_returns.
  apply bind_returns in H as (s1 & u1 & [Hs1 Ht1]%set_space_view & H).
  apply set_key_view in H as [-> ->]. by rewrite Hs1, Ht1.
Qed.

(** C7: [reset] depends on the key, the space and the time only: two objects
    that agree on them reset to the same object, whatever else their engines
    hold. *)
Theorem reset_depends_on_config m1 m2 :
  key m1 = key m2 ->
  space_of (base m1) = space_of (base m2) ->
  time_of (base m1) = time_of (base m2) ->
  returns (__reset (base m1)) = true ->
  returns (__reset (base m2)) = true ->
  reset m1 = reset m2.
Proof.
  intros Hk Hs Ht. apply reset_config_eq; [done|]. unfold view. by rewrite Hs, Ht.
Qed.

(** C8: a reset followed by streaming is deterministic: run again from the
    object it left, the same sequence reads the same blocks and leaves the
    same object. *)
Theorem reset_replay_deterministic cs m m1 bs :
  Forall (fun c => streaming c = true) cs ->
  run_calls (CReset :: cs) m = Returns m1 bs ->
  returns (__reset (base m1)) = true ->
  run_calls (CReset :: cs) m1 = Returns m1 bs.
Proof.
  intros Hcs Hrun Hr1.
  destruct (run_calls_streaming (CReset :: cs) m m1 bs) as [Hk Hv]; [by constructor|done|].
  assert (reset m1 = reset m) as Heq.
  { apply reset_config_eq; [done..|]. by eapply run_calls_reset_returns. }
  rewrite <-Hrun. unfold run_calls. cbn [collect run_call]. unfold bind. by rewrite Heq.
Qed.

End Lawful.

(** The session changes the object, and a reset gives the constructed one
    back. *)
Lemma reset_restores_construction_witness :
  after busy mixer4 ≠ mixer4 ∧ reset (after busy mixer4) = Returns mixer4 tt.
Proof.
  split; [compute_done|].
  apply (reset_restores_construction (E:=mixer) key4 mixer4 busy _
           (default [] (blocks busy mixer4))).
  - apply construct_built. by vm_compute.
  - by repeat constructor.
  - apply run_calls_after. by vm_compute.
  - by vm_compute.
Defined.

Lemma construct_config_witness :
  key mixer4 = resolve (E:=mixer) key4 ∧
  space_of (base mixer4) = length (key mixer4) ∧
  time_of (base mixer4) = __default_time (Engine:=mixer).
Proof. apply (construct_config (E:=mixer)), construct_built. by vm_compute. Defined.

(** The specification's scenarios: the key [1, 2, 3, 4] gives space 4, the
    empty key gives the default key and its length, 8 on the mixer. *)
Example construct_key4_space : space_of (base mixer4) = 4.
Proof. by vm_compute. Qed.

Example construct_empty_space :
  key (built (E:=mixer) []) = mix_default_key ∧
  space_of (base (built (E:=mixer) [])) = 8.
Proof. by vm_compute. Qed.

Lemma set_key_config_witness :
  key (after [rekey [9; 9]%Z] mixer4) = resolve (E:=mixer) (map (of_Z u32) [9; 9]%Z) ∧
  space_of (base (after [rekey [9; 9]%Z] mixer4)) =
    length (key (after [rekey [9; 9]%Z] mixer4)) ∧
  time_of (base (after [rekey [9; 9]%Z] mixer4)) = time_of (base mixer4).
Proof.
  apply (set_key_config (E:=mixer) (map (of_Z u32) [9; 9]%Z) mixer4 _ tt).
  compute_done.
Defined.

Lemma reset_depends_on_config_witness :
  after [CShr; CShr] mixer4 ≠ mixer4 ∧
  reset (after [CShr; CShr] mixer4) = reset mixer4.
Proof.
  split; [compute_done|].
  apply (reset_depends_on_config (E:=mixer)); by vm_compute.
Defined.

Lemma reset_replay_deterministic_witness :
  run_calls (CReset :: [CShr; feed 7; CShr])
    (after (CReset :: [CShr; feed 7; CShr]) (after [CShr] mixer4)) =
  Returns (after (CReset :: [CShr; feed 7; CShr]) (after [CShr] mixer4))
    (default [] (blocks (CReset :: [CShr; feed 7; CShr]) (after [CShr] mixer4))).
Proof.
  apply (reset_replay_deterministic (E:=mixer) _ (after [CShr] mixer4)).
  - by repeat constructor.
  - apply run_calls_after. by vm_compute.
  - by vm_compute.
Defined.

Section Construction.
Context `{E : Engine}.
Implicit Types (m : machine) (k : list size_cell).

(** Resolving a key twice is resolving it once. *)
Lemma resolve_resolve k : resolve (resolve k) = resolve k.
Proof. destruct k; [|done]. unfold resolve. simpl. by destruct __default_key. Qed.

(** The constructor sees its argument through [resolve] only. *)
Lemma construct_resolve k : construct (resolve k) = construct k.
Proof.
  unfold construct. by rewrite !machine_ctor_run, resolve_resolve.
Qed.

(** C35: the key read back from a constructed object constructs the same
    object again: the cached key is all the constructor took from its
    argument. *)
Theorem construct_key_roundtrip k m :
  construct k = Returns tt m -> construct (key m) = Returns tt m.
Proof.
  intros H. pose proof H as (_ & _ & ->)%construct_returns.
  by rewrite construct_resolve.
Qed.

End Construction.

Lemma construct_key_roundtrip_witness :
  construct (key (built (E:=mixer) [])) = Returns tt (built (E:=mixer) []).
Proof.
  apply (construct_key_roundtrip (E:=mixer) []), construct_built. by vm_compute.
Defined.

(** [set_key] is not so: with the empty key and with the key it resolves to,
    [set_key] differs on the strict engine. *)
Example set_key_resolve_differs :
  set_key (E:=strict) [] strict4 ≠ set_key (resolve (E:=strict) []) strict4.
Proof. compute_done. Qed.

(** * Space and the key's length *)

Section Space.
Context `{E : Engine} `{!EngineView E} `{!EngineLaws E}.
Implicit Types (m : machine) (k : list size_cell) (c : call).

(** C16: on a lawful engine the space equals the cached key's length in
    every object reached from a construction by calls that returned, none of
    them [set_space]. *)
Theorem space_tracks_key k m0 cs m bs :
  construct k = Returns tt m0 ->
  Forall (fun c => keeps_space c = true) cs ->
  run_calls cs m0 = Returns m bs ->
  space_of (base m) = length (key m).
Proof.
  intros Hc Hcs Hrun.
  apply (run_calls_invariant (fun m => space_of (base m) = length (key m))
           keeps_space cs m0 m bs); [|done| |done].
  - intros c m1 m2 o Hk Hm1 H. pose proof (run_call_view _ _ _ _ H) as Hv.
    rewrite (run_call_key c m1 m2) by (by rewrite H).
    unfold view in Hv. destruct c; try done; cbn in Hv |- *;
      injection Hv as Hs _; by rewrite Hs.
  - destruct (construct_baseline _ _ Hc) as (-> & [= -> _] & _). done.
Qed.

(** C17: the public [set_space] sets the engine's space to its argument and
    leaves the cached key: with an argument other than the key's length the
    space no longer equals the length of the active key. *)
Theorem set_space_detaches_space n m m' u :
  set_space n m = Returns m' u ->
  n ≠ length (key m) ->
  key m' = key m ∧ space_of (base m') = n ∧ space_of (base m') ≠ length (key m').
Proof.
  rewrite set_space_run. intros [H ->]%lift_returns Hn.
  apply set_space_view in H as [-> _]. done.
Qed.

End Space.

Lemma space_tracks_key_witness :
  space_of (base (after [rekey [9; 9]%Z; CShr; CSetTime 3; CReset] mixer4)) =
  length (key (after [rekey [9; 9]%Z; CShr; CSetTime 3; CReset] mixer4)).
Proof.
  apply (space_tracks_key (E:=mixer) key4 mixer4
           [rekey [9; 9]%Z; CShr; CSetTime 3; CReset] _
           (default [] (blocks [rekey [9; 9]%Z; CShr; CSetTime 3; CReset] mixer4))).
  - apply construct_built. by vm_compute.
  - by repeat constructor.
  - apply run_calls_after. by vm_compute.
Defined.

Lemma set_space_detaches_space_witness :
  key (after [CSetSpace 7] mixer4) = key mixer4 ∧
  space_of (base (after [CSetSpace 7] mixer4)) = 7 ∧
  space_of (base (after [CSetSpace 7] mixer4)) ≠ length (key (after [CSetSpace 7] mixer4)).
Proof.
  apply (set_space_detaches_space (E:=mixer) 7 mixer4 _ tt); [compute_done|].
  by vm_compute.
Defined.

(** * The active key is never empty *)

Section KeyInvariant.
Context `{E : Engine}.
Hypothesis default_nonempty : __default_key ≠ [].

(** C2: with a non-empty default key, the cached key of every object a
    program can hold is non-empty: after construction and after every call of
    the interface, whether the call returned or threw. *)
Theorem key_never_empty (m : machine) : reachable m -> key m ≠ [].
Proof.
  induction 1 as [k m H|c m m' _ IH H].
  - apply construct_returns in H as (bs & _ & ->). by apply resolve_nonempty.
  - rewrite (run_call_key _ _ _ H). by apply key_after_nonempty.
Qed.

End KeyInvariant.

(** The strict engine rejects the empty key that [set_key] hands it; the
    object survives the exception with the default key cached. *)
Lemma key_never_empty_witness :
  thrown (set_key [] strict4) = Some invalid_argument ∧
  key (after [CSetKey []] strict4) ≠ [].
Proof.
  split; [by vm_compute|].
  apply (key_never_empty (E:=strict) mix_default_key_nonempty).
  apply reachable_after, reachable_strict4.
Defined.
