(* ===== verification/Abstract.v ===== *)
(** * Abstract: the data model of the specification, and the adapter as
    its implementation

    The specification describes an adapter by three values: the active key,
    the space and the time.  [config] is this triple, [cfg_init] and
    [cfg_step] say what construction and each call of the interface do to
    it, with no engine in sight.  The abstraction function [abs] reads the
    triple off an adapter object: the key from the object's own member, the
    space and the time from the engine through [EngineView].  The
    simulation theorem says that on a lawful engine every construction and
    every session that returns moves the object as [cfg_init] and
    [cfg_step] move the triple; the invariants of the data model are proved
    on the triple.  [cfg_throws] is what a call that throws may do to the
    triple; the theorem about it is in [Guarantees]. *)

From Stdlib Require Import ZArith Lia.
From stdpp Require Import prelude.
From S2P Require Import Prelude Collect Limits Engine Engines Machine Spec Scenarios.
From S2P Require Import Lifecycle.

Local Open Scope comp_scope.

Section Config.
Context `{E : Engine}.

(** Key, space and time. *)
Record config : Type := Config {
  cfg_key : list size_cell;
  cfg_space : nat;
  cfg_time : nat;
}.

(** The configuration a construction with [key] gives. *)
Definition cfg_init (key : list size_cell) : config :=
  {| cfg_key := resolve key;
     cfg_space := length (resolve key);
     cfg_time := __default_time |}.

(** What a call does to the configuration. *)
Definition cfg_step (c : call) (a : config) : config :=
  match c with
  | CSetKey key =>
      {| cfg_key := resolve key; cfg_space := length (resolve key);
         cfg_time := cfg_time a |}
  | CSetSpace value =>
      {| cfg_key := cfg_key a; cfg_space := value; cfg_time := cfg_time a |}
  | CSetTime value =>
      {| cfg_key := cfg_key a; cfg_space := cfg_space a; cfg_time := value |}
  | CReset | CShl _ | CShr | CCall => a
  end.

(** What a call that throws may have done to the configuration, where a
    hook that throws leaves the engine as it was: [set_key] has replaced
    the key, and has set the space unless it was [__set_space] that threw;
    any other call has changed nothing. *)
Definition cfg_throws (c : call) (a a' : config) : Prop :=
  match c with
  | CSetKey key =>
      cfg_key a' = resolve key ∧ cfg_time a' = cfg_time a ∧
      (cfg_space a' = cfg_space a ∨ cfg_space a' = length (resolve key))
  | _ => a' = a
  end.

Definition cfg_run (cs : list call) (a : config) : config :=
  foldl (flip cfg_step) a cs.

(** The invariants of the data model: the key is not empty and the space is
    its length. *)
Definition cfg_wf (a : config) : Prop :=
  cfg_key a ≠ [] ∧ cfg_space a = length (cfg_key a).

(** The configuration of an adapter object. *)
Definition abs `{!EngineView E} (m : machine) : config :=
  {| cfg_key := key m;
     cfg_space := space_of (base m);
     cfg_time := time_of (base m) |}.

End Config.

#[export] Instance config_eq_dec `{E : Engine} `{!EngineDec E} : EqDecision config.
Proof. solve_decision. Defined.

(** * The data model keeps its invariants *)

Section ConfigLemmas.
Context `{E : Engine}.
Implicit Types (a : config) (c : call) (cs : list call).

Lemma cfg_run_cons c cs a : cfg_run (c :: cs) a = cfg_run cs (cfg_step c a).
Proof. done. Qed.

Lemma cfg_run_app cs1 cs2 a : cfg_run (cs1 ++ cs2) a = cfg_run cs2 (cfg_run cs1 a).
Proof. apply foldl_app. Qed.

Lemma cfg_init_wf k : __default_key ≠ [] -> cfg_wf (cfg_init k).
Proof. split; [by apply resolve_nonempty|done]. Qed.

Lemma cfg_step_wf c a :
  __default_key ≠ [] -> keeps_space c = true -> cfg_wf a -> cfg_wf (cfg_step c a).
Proof. destruct c; try done. split; [by apply resolve_nonempty|done]. Qed.

Lemma cfg_run_wf cs a :
  __default_key ≠ [] -> Forall (fun c => keeps_space c = true) cs ->
  cfg_wf a -> cfg_wf (cfg_run cs a).
Proof.
  intros Hd Hcs. revert a. induction Hcs as [|c cs Hc _ IH]; intros a Ha; [done|].
  rewrite cfg_run_cons. auto using cfg_step_wf.
Qed.

(** The time is the argument of the last [set_time], whatever the keys and
    spaces set around it. *)
Lemma cfg_run_keeps_time cs a :
  Forall (fun c => forall n, c ≠ CSetTime n) cs ->
  cfg_time (cfg_run cs a) = cfg_time a.
Proof.
  intros Hcs. revert a. induction Hcs as [|c cs Hc _ IH]; intros a; [done|].
  rewrite cfg_run_cons, IH. destruct c as [| |n| | | |]; try done.
  by destruct (Hc n).
Qed.

Lemma cfg_run_time cs1 cs2 n a :
  Forall (fun c => forall n, c ≠ CSetTime n) cs2 ->
  cfg_time (cfg_run (cs1 ++ CSetTime n :: cs2) a) = n.
Proof. intros H. by rewrite cfg_run_app, cfg_run_cons, cfg_run_keeps_time. Qed.

End ConfigLemmas.

(** * The adapter implements the data model *)

Section Simulation.
Context `{E : Engine} `{!EngineView E} `{!EngineLaws E}.
Implicit Types (m : machine) (k : list size_cell) (c : call) (cs : list call).

(** One call that returns is one step of the data model. *)
Lemma abs_step c m m' o :
  run_call c m = Returns m' o -> abs m' = cfg_step c (abs m).
Proof.
  intros H. pose proof (run_call_view _ _ _ _ H) as Hv.
  assert (key m' = key_after c (key m)) as Hk
    by (apply run_call_key; by rewrite H).
  unfold abs, view in *. destruct c; simpl in *; injection Hv as -> ->; by rewrite Hk.
Qed.

Lemma abs_run cs m m' bs :
  run_calls cs m = Returns m' bs -> abs m' = cfg_run cs (abs m).
Proof.
  revert m bs. induction cs as [|c cs IH]; intros m bs.
  - unfold run_calls, collect, ret. by intros [= <- _].
  - intros (m1 & o & bs' & H1%abs_step & H2%IH & _)%run_calls_cons_returns.
    by rewrite cfg_run_cons, <-H1.
Qed.

Lemma abs_construct k m : construct k = Returns tt m -> abs m = cfg_init k.
Proof.
  intros (Hk & [= Hs Ht] & _)%construct_baseline. unfold abs, cfg_init.
  by rewrite Hk, Hs, Ht.
Qed.

(** C20: on a lawful engine the adapter implements the specification's
    data model: an object constructed with a key and used through any calls
    that return has the key, the space and the time that the data model
    computes from the key and the calls, with no reference to the engine. *)
Theorem adapter_simulates k cs m0 m bs :
  construct k = Returns tt m0 ->
  run_calls cs m0 = Returns m bs ->
  abs m = cfg_run cs (cfg_init k).
Proof. intros <-%abs_construct. apply abs_run. Qed.

(** The time is independent of key and space: after a session that
    returns, the engine's time is the argument of the last [set_time] in
    it, whatever keys and spaces were set before and after. *)
Lemma time_follows_set_time cs1 cs2 n m m' bs :
  Forall (fun c => forall n', c ≠ CSetTime n') cs2 ->
  run_calls (cs1 ++ CSetTime n :: cs2) m = Returns m' bs ->
  time_of (base m') = n.
Proof.
  intros Hcs H%abs_run. change (cfg_time (abs m') = n).
  by rewrite H, cfg_run_time.
Qed.

End Simulation.

(** On the mixer: a key of two cells, time 3, an extraction, space 9. *)
Lemma adapter_simulates_witness :
  abs (after [rekey [5; 6]%Z; CSetTime 3; CShr; CSetSpace 9] mixer4) =
  cfg_run [rekey [5; 6]%Z; CSetTime 3; CShr; CSetSpace 9] (cfg_init (E:=mixer) key4).
Proof.
  apply (adapter_simulates (E:=mixer) key4 _ mixer4 _
           (default [] (blocks [rekey [5; 6]%Z; CSetTime 3; CShr; CSetSpace 9] mixer4))).
  - apply construct_built. by vm_compute.
  - apply run_calls_after. by vm_compute.
Defined.

Example abstract_scenario :
  cfg_space (cfg_run [rekey [5; 6]%Z; CSetTime 3; CShr] (cfg_init (E:=mixer) key4)) = 2 ∧
  cfg_time (cfg_run [rekey [5; 6]%Z; CSetTime 3; CShr] (cfg_init (E:=mixer) key4)) = 3.
Proof. by vm_compute. Qed.

Example time_follows_set_time_mixer :
  time_of (base (after ([CShr] ++ CSetTime 3 :: [rekey [5; 6]%Z; CSetSpace 9; CShr]) mixer4))
    = 3.
Proof.
  apply (time_follows_set_time (E:=mixer) [CShr] [rekey [5; 6]%Z; CSetSpace 9; CShr] 3
           mixer4 _ (default [] (blocks
             ([CShr] ++ CSetTime 3 :: [rekey [5; 6]%Z; CSetSpace 9; CShr]) mixer4))).
  - by repeat constructor.
  - apply run_calls_after. by vm_compute.
Qed.
