(* ===== verification/Errors.v ===== *)
(** * Errors: exceptions of the hooks, [noexcept], and total engines

    The adapter neither catches nor wraps: an exception of a hook leaves the
    call as it is, with the object mutated up to the throw.  [operator()] is
    [noexcept] and terminates the program instead.  A session throws or
    terminates where its first failing call does; after a failed [set_key]
    the next [reset] installs the new key.  On an engine whose hooks always
    return, the adapter always returns. *)

From Stdlib Require Import ZArith Lia.
From stdpp Require Import prelude.
From S2P Require Import Prelude Collect Limits Engine Engines Machine Spec Scenarios.

Local Open Scope comp_scope.

(** * Errors *)

Section Errors.
Context `{E : Engine}.
Implicit Types (m : machine) (k : list size_cell) (c : call).

(** C10: the adapter passes exceptions on unchanged: a call that is not
    [noexcept] throws [e] exactly when its hooks, run in order, throw [e];
    the hooks after the throwing one are not called, and the object is left
    with the engine as the hook left it and the cached key already updated. *)
Theorem exception_passes_through c m m' e :
  is_noexcept c = false ->
  run_call c m = Throws m' e <->
  run_hooks (hooks_of c (key m)) (base m) = Throws (base m') e ∧
  key m' = key_after c (key m).
Proof.
  intros Hc. rewrite run_call_spec_call. unfold spec_call. rewrite Hc.
  destruct m'. repeat case_match; naive_solver.
Qed.

(** C11: a [set_key] that fails has already replaced the cached key: the
    exception comes from [__set_space], and [__set_key] is not called, or
    from [__set_key] after [__set_space] returned; in both cases the object
    keeps the resolved key and the engine state the failing hook left. *)
Theorem set_key_failure k m m' e :
  set_key k m = Throws m' e <->
  key m' = resolve k ∧
  (__set_space (length (resolve k)) (base m) = Throws (base m') e ∨
   exists s u, __set_space (length (resolve k)) (base m) = Returns s u ∧
     __set_key k s = Throws (base m') e).
Proof.
  rewrite set_key_run, lift_throws, bind_throws. naive_solver.
Qed.

(** C12: [operator()] is [noexcept]: where the engine's [pull] throws,
    [operator>>] throws the same exception and [operator()] terminates the
    program. *)
Theorem operator_call_terminates m s e :
  pull (base m) = Throws s e ->
  operator_shr m = Throws (with_base s m) e ∧ operator_call m = Terminates.
Proof.
  intros H. rewrite operator_shr_run, operator_call_run. unfold noexcept.
  by rewrite H.
Qed.

(** Where [pull] returns, the two operators agree. *)
Lemma operator_call_returns m s b :
  pull (base m) = Returns s b -> operator_call m = operator_shr m.
Proof.
  intros H. rewrite operator_shr_run, operator_call_run. unfold noexcept.
  by rewrite H.
Qed.

(** C13: [set_key] with an empty key caches the default key and sets the
    space to its length, and then hands [__set_key] the empty key it was
    given, not the default key. *)
Theorem set_key_empty_reaches_engine m :
  set_key [] m =
  lift __default_key
    ((__set_space (length __default_key) ;; __set_key []) (base m)).
Proof. by rewrite set_key_run. Qed.

End Errors.

(** On the strict engine an empty key makes [set_key] throw, where the
    default key itself is accepted. *)
Example set_key_empty_strict :
  thrown (set_key [] strict4) = Some invalid_argument ∧
  returns (set_key (E:=strict) mix_default_key strict4) = true.
Proof. by vm_compute. Qed.

Lemma exception_passes_through_witness :
  run_call (CSetKey []) strict4 =
  Throws (after [CSetKey []] strict4) invalid_argument.
Proof.
  apply (exception_passes_through (E:=strict)); [done|].
  split; [compute_done|by vm_compute].
Defined.

Lemma set_key_failure_witness :
  key (after [CSetKey []] strict4) = resolve (E:=strict) [] ∧
  (__set_space (length (resolve (E:=strict) [])) (base strict4) =
     Throws (base (after [CSetKey []] strict4)) invalid_argument ∨
   exists s u,
     __set_space (length (resolve (E:=strict) [])) (base strict4) = Returns s u ∧
     __set_key [] s = Throws (base (after [CSetKey []] strict4)) invalid_argument).
Proof. apply (set_key_failure (E:=strict) [] strict4). compute_done. Defined.

(** After the failed [set_key], [operator>>] throws and [operator()]
    terminates the program. *)
Lemma operator_call_terminates_witness :
  operator_shr (after [CSetKey []] strict4) =
    Throws (after [CSetKey []] strict4) domain_error ∧
  operator_call (after [CSetKey []] strict4) = Terminates.
Proof.
  pose proof (operator_call_terminates (E:=strict) (after [CSetKey []] strict4)
    (base (after [CSetKey []] strict4)) domain_error) as H.
  assert (with_base (base (after [CSetKey []] strict4)) (after [CSetKey []] strict4)
    = after [CSetKey []] strict4) as Heq by apply (lens_upd_proj (proj:=base)).
  rewrite Heq in H. apply H. compute_done.
Defined.

(** * Sessions that fail *)

Section Sessions.
Context `{E : Engine}.
Implicit Types (m : machine) (c : call) (cs : list call).

(** A session fails where its first failing call fails. *)
Lemma session_failure cs m w :
  failure_of (run_calls cs m) = Some w <->
  exists cs1 c cs2 m1 bs,
    cs = cs1 ++ c :: cs2 ∧ run_calls cs1 m = Returns m1 bs ∧
    failure_of (run_call c m1) = Some w.
Proof. apply collect_failure. Qed.

Lemma spec_call_terminates c m :
  spec_call c m = Terminates <->
  run_hooks (hooks_of c (key m)) (base m) = Terminates ∨
  (is_noexcept c = true ∧
   exists s e, run_hooks (hooks_of c (key m)) (base m) = Throws s e).
Proof. unfold spec_call. destruct (run_hooks _ _), (is_noexcept c); naive_solver. Qed.

Lemma run_hooks_pull_throws s s' e :
  run_hooks [HPull] s = Throws s' e <-> pull s = Throws s' e.
Proof.
  unfold run_hooks. simpl. unfold bind, ret. destruct (pull s); naive_solver.
Qed.

(** A call terminates the program when one of its hooks does, or when it is
    [operator()] and [pull] throws. *)
Lemma run_call_terminates c m :
  run_call c m = Terminates <->
  run_hooks (hooks_of c (key m)) (base m) = Terminates ∨
  (c = CCall ∧ exists s e, pull (base m) = Throws s e).
Proof.
  rewrite run_call_spec_call, spec_call_terminates.
  destruct c; simpl; try naive_solver.
  setoid_rewrite run_hooks_pull_throws. naive_solver.
Qed.

(** A session throws where its first call that does not return throws. *)
Lemma session_throws_at cs m m' e :
  run_calls cs m = Throws m' e <->
  exists cs1 c cs2 m1 bs,
    cs = cs1 ++ c :: cs2 ∧ run_calls cs1 m = Returns m1 bs ∧
    run_call c m1 = Throws m' e.
Proof.
  rewrite <-failure_of_throws, session_failure.
  by setoid_rewrite failure_of_throws.
Qed.

(** C26: what the engine sees of a session that throws: the session throws
    [e] exactly when the hooks of some calls at its head, run in order on
    the engine, return, and the hooks of the next call, which is not
    [operator()], throw [e].  No hook of a later call is called; the engine
    is left as the throwing hook left it, and the cached key is the one the
    failing call leaves: for a [set_key], the key it was about to
    install. *)
Theorem session_throws cs m m' e :
  run_calls cs m = Throws m' e <->
  exists cs1 c cs2 s1 bs,
    cs = cs1 ++ c :: cs2 ∧ c ≠ CCall ∧
    run_hooks (session_hooks cs1 (key m)) (base m) = Returns s1 bs ∧
    run_hooks (hooks_of c (session_key cs1 (key m))) s1 = Throws (base m') e ∧
    key m' = key_after c (session_key cs1 (key m)).
Proof.
  rewrite session_throws_at. split.
  - intros (cs1 & c & cs2 & m1 & bs & -> & [H1 Hk]%run_calls_hooks
            & (Hn & H2 & Hk')%run_call_throws).
    exists cs1, c, cs2, (base m1), bs. rewrite <-Hk.
    split_and!; [done|by intros ->|done..].
  - intros (cs1 & c & cs2 & s1 & bs & -> & Hc & H1%hooks_run_calls & H2 & Hk).
    eexists cs1, c, cs2, _, bs. split_and!; [done..|].
    apply run_call_throws. by destruct c.
Qed.

(** C27: a session terminates the program exactly when, after calls that
    returned, a hook of the next call terminates it or the next call is
    [operator()] and the engine's [pull] throws. *)
Theorem session_terminates cs m :
  run_calls cs m = Terminates <->
  exists cs1 c cs2 m1 bs,
    cs = cs1 ++ c :: cs2 ∧ run_calls cs1 m = Returns m1 bs ∧
    (run_hooks (hooks_of c (key m1)) (base m1) = Terminates ∨
     (c = CCall ∧ exists s e, pull (base m1) = Throws s e)).
Proof.
  rewrite <-failure_of_terminates, session_failure.
  by setoid_rewrite failure_of_terminates; setoid_rewrite run_call_terminates.
Qed.

(** C28: after a [set_key] that threw, the object holds the new key: the
    next [reset] installs the resolved key of the failed call, not the key
    the engine was running with. *)
Theorem reset_after_failed_set_key k m m' e :
  set_key k m = Throws m' e ->
  reset m' = lift (resolve k) ((__reset ;; __set_key (resolve k)) (base m')).
Proof. rewrite set_key_run, reset_run. by intros [_ ->]%lift_throws. Qed.

End Sessions.

(** On the strict engine: an extraction returns, then [set_key] with the
    empty key throws at [__set_key] after [__set_space] set the space to
    8; the last extraction is not made. *)
Lemma session_throws_witness :
  run_calls [CShr; CSetKey []; CShr] strict4 =
  Throws (after [CShr; CSetKey []] strict4) invalid_argument.
Proof.
  apply (session_throws (E:=strict)).
  exists [CShr], (CSetKey []), [CShr], (base (after [CShr] strict4)),
    (default [] (blocks [CShr] strict4)).
  split_and!; [done|done|compute_done..].
Defined.

(** On the strict engine, with the space set to 3 under a key of four
    cells, [pull] throws: [operator()] then terminates the program. *)
Lemma session_terminates_witness :
  run_calls [CShr; CSetSpace 3; CCall; CShr] strict4 = Terminates.
Proof.
  apply (session_terminates (E:=strict)).
  exists [CShr; CSetSpace 3], CCall, [CShr], (after [CShr; CSetSpace 3] strict4),
    (default [] (blocks [CShr; CSetSpace 3] strict4)).
  split_and!; [done|apply run_calls_after; by vm_compute|].
  right. split; [done|]. eexists _, domain_error. by vm_compute.
Defined.

(** On the strict engine the failed [set_key({})] followed by [reset]
    completes the key change: the object is the one a construction with the
    empty key returns. *)
Lemma reset_after_failed_set_key_witness :
  reset (after [CSetKey []] strict4) =
  lift (resolve (E:=strict) [])
    ((__reset ;; __set_key (resolve (E:=strict) [])) (base (after [CSetKey []] strict4))).
Proof.
  apply (reset_after_failed_set_key (E:=strict) [] strict4 _ invalid_argument).
  compute_done.
Defined.

Example reset_completes_failed_set_key :
  after [CReset] (after [CSetKey []] strict4) = built (E:=strict) [].
Proof. compute_done. Qed.

(** * Total engines *)

Section Total.
Context `{E : Engine} `{!EngineTotal E}.

Lemma run_call_total (c : call) (m : machine) : returns (run_call c m) = true.
Proof.
  rewrite run_call_spec_call. unfold spec_call.
  pose proof (run_hooks_total (hooks_of c (key m)) (base m)).
  by destruct (run_hooks _ _).
Qed.

Lemma run_calls_total (cs : list call) (m : machine) :
  returns (run_calls cs m) = true.
Proof. apply collect_total, run_call_total. Qed.

Lemma construct_total (k : list size_cell) : returns (construct k) = true.
Proof.
  rewrite construct_spec_construct. unfold spec_construct.
  pose proof (run_hooks_total (hooks_of_ctor k) engine_init).
  by destruct (run_hooks _ _).
Qed.

(** C19: the adapter adds no failure of its own: on an engine whose hooks
    always return, construction returns and every session of calls returns. *)
Theorem adapter_never_fails (k : list size_cell) (cs : list call) :
  returns (construct k) = true ∧
  forall m : machine, returns (run_calls cs m) = true.
Proof. split; [apply construct_total|apply run_calls_total]. Qed.

End Total.

Lemma adapter_never_fails_witness :
  returns (construct (E:=mixer) key4) = true ∧
  forall m : machine (E:=mixer), returns (run_calls busy m) = true.
Proof. exact (adapter_never_fails (E:=mixer) key4 busy). Defined.
