(* ===== verification/Recover.v ===== *)
(** * Recover: back to the state of construction, from any object

    The adapter has no operation that constructs in place, but its
    interface can rebuild the constructed state: [set_key] with the key,
    [set_time] with the default time, [reset].  On a lawful engine these
    three calls, where they return, leave the object that the constructor
    returns for the key, whatever the object was before: streamed from,
    reconfigured with [set_space], or left half-updated by a call that
    threw.  On a total engine they always return. *)

From Stdlib Require Import ZArith Lia.
From stdpp Require Import prelude.
From S2P Require Import Prelude Collect Limits Engine Engines Machine Spec Scenarios.
From S2P Require Import Lifecycle Abstract Errors.

Local Open Scope comp_scope.

Section RecoveryDef.
Context `{E : Engine}.

(** [set_key(key); set_time(__default_time); reset()]. *)
Definition recovery (key : list size_cell) : list call :=
  [CSetKey key; CSetTime __default_time; CReset].

End RecoveryDef.

Section Recover.
Context `{E : Engine} `{!EngineView E} `{!EngineLaws E}.
Implicit Types (m : machine) (k : list size_cell).

(** The configuration before the [reset] of a recovery. *)
Lemma recovery_config k m m2 bs :
  run_calls [CSetKey k; CSetTime __default_time] m = Returns m2 bs ->
  abs m2 = cfg_init k ∧ bs = [].
Proof.
  intros H. pose proof H as Ha%abs_run. split; [by rewrite Ha|].
  apply (collect_length extracts) in H; [by destruct bs|]. intros c. apply run_call_yields.
Qed.

(** Where a recovery returns, it leaves the constructed object. *)
Lemma recovery_agrees k m m0 m' bs :
  construct k = Returns tt m0 ->
  run_calls (recovery k) m = Returns m' bs ->
  m' = m0 ∧ bs = [].
Proof.
  intros Hc H. change (recovery k) with ([CSetKey k; CSetTime __default_time] ++ [CReset : call]) in H.
  apply collect_app_returns in H as (m2 & bs1 & bs2 & [Ha ->]%recovery_config & H & ->).
  apply run_calls_cons_returns in H as (m3 & o & bs3 & H & [= <- <-] & ->).
  apply bind_returns in H as (m4 & [] & Hr & [= <- <-]).
  rewrite (reset_to_construction k m0) in Hr; [by simplify_eq| done | ..].
  - pose proof (abs_construct _ _ Hc) as H0. rewrite <-H0 in Ha. by injection Ha.
  - pose proof (abs_construct _ _ Hc) as H0. rewrite <-H0 in Ha.
    unfold view. by injection Ha as _ -> ->.
  - by eapply reset_returns_inv.
Qed.

End Recover.

Section Recoverable.
Context `{E : Engine} `{!EngineView E} `{!EngineLaws E} `{!EngineTotal E}.

(** C24: on a lawful engine whose hooks always return, every object can be
    brought back to the state of construction: from any object at all,
    [set_key(k); set_time(__default_time); reset()] returns and leaves the
    object that the constructor returns for [k]. *)
Theorem recoverable (k : list size_cell) (m : machine) :
  run_calls (recovery k) m = Returns (built k) [].
Proof.
  pose proof (run_calls_total (recovery k) m) as (m' & bs & H)%returns_true.
  rewrite H. f_equal; eapply recovery_agrees; eauto using construct_built, construct_total.
Qed.

End Recoverable.

(** From the mixer's object after a session and a change of space and time. *)
Lemma recoverable_witness :
  run_calls (recovery (E:=mixer) key4) (after (busy ++ [CSetSpace 9; CSetTime 5]) mixer4)
    = Returns mixer4 [].
Proof. exact (recoverable (E:=mixer) key4 _). Defined.

(** On the strict engine, from the object a failed [set_key] left, and from
    an object in which [pull] throws. *)
Example recovery_after_failure :
  run_calls (recovery (E:=strict) key4) (after [CSetKey []] strict4)
    = Returns strict4 [] ∧
  run_calls (recovery (E:=strict) key4) (after [CSetSpace 3] strict4)
    = Returns strict4 [].
Proof. split; compute_done. Qed.
