(* ===== verification/Observe.v ===== *)
(** * Observe: what a caller can tell about an adapter object

    machine.hh has no accessor for the key, the space or the time: a caller
    learns about an object only from the calls it makes, by the blocks they
    yield and the exceptions they throw.  [trace] is what a caller sees of a
    sequence of calls, going on with the object after an exception;
    [obs_eq] relates two objects that no sequence of calls tells apart.  It
    is an equivalence coarser than equality, the calls respect it
    ([Proper]), and it is the largest [bisimulation].  Two theorems about
    the adapter follow: it adds to the engine no state that can be observed
    but the key, and the key is read by [reset] only. *)

From Stdlib Require Import ZArith Lia.
From stdpp Require Import prelude.
From S2P Require Import Prelude Collect Limits Engine Engines Machine Spec Scenarios.

Local Open Scope comp_scope.

Section ObserveDefs.
Context `{E : Engine}.

(** What the caller sees of one call: the block, the exception, or the end
    of the program. *)
Definition observation : Type := outcome exn unit (option size_pull).

Definition observe (o : outcome exn machine (option size_pull)) : observation :=
  match o with
  | Returns _ a => Returns tt a
  | Throws _ e => Throws tt e
  | Terminates => Terminates
  end.

(** What the caller sees of calls made one after the other.  An exception
    is caught and the next call made on the object as it was left;
    termination ends the trace. *)
Fixpoint trace (cs : list call) (m : machine) : list observation :=
  match cs with
  | [] => []
  | c :: cs' =>
      observe (run_call c m) ::
      match state_of (run_call c m) with
      | Some m' => trace cs' m'
      | None => []
      end
  end.

(** No sequence of calls tells the two objects apart. *)
Definition obs_eq : relation machine :=
  fun m1 m2 => forall cs, trace cs m1 = trace cs m2.

(** A relation that every call keeps, with the same result on both sides. *)
Definition bisimulation (R : relation machine) : Prop :=
  forall m1 m2, R m1 m2 -> forall c, outcome_rel R (run_call c m1) (run_call c m2).

(** The same for the engine and its hooks. *)
Definition hook_bisimulation (Re : relation engine) : Prop :=
  forall s1 s2, Re s1 s2 -> forall h, outcome_rel Re (run_hook h s1) (run_hook h s2).

(** Engines related, keys equal. *)
Definition with_equal_keys (Re : relation engine) : relation machine :=
  fun m1 m2 => Re (base m1) (base m2) ∧ key m1 = key m2.

(** The calls other than [reset]. *)
Definition no_reset (c : call) : bool :=
  match c with
  | CReset => false
  | _ => true
  end.

End ObserveDefs.

Infix "≈" := obs_eq (at level 70, no associativity) : comp_scope.

(** * Observational equivalence *)

Section Observe.
Context `{E : Engine}.
Implicit Types (m : machine) (c : call) (cs : list call) (R : relation machine).

#[export] Instance obs_eq_equivalence : Equivalence obs_eq.
Proof.
  split.
  - by intros m cs.
  - by intros m1 m2 H cs.
  - intros m1 m2 m3 H12 H23 cs. by rewrite H12.
Qed.

#[export] Instance trace_proper cs : Proper (obs_eq ==> (=)) (trace cs).
Proof. intros m1 m2 H. apply H. Qed.

(** Outcomes related by [R] look alike. *)
Lemma outcome_rel_observe R (o1 o2 : outcome exn machine (option size_pull)) :
  outcome_rel R o1 o2 -> observe o1 = observe o2.
Proof. destruct o1, o2; simpl; naive_solver. Qed.

(** Outcomes that look alike, and leave objects that look alike from then
    on, are related by [obs_eq]. *)
Lemma observe_outcome_rel (o1 o2 : outcome exn machine (option size_pull)) :
  observe o1 = observe o2 ->
  (forall m1 m2, state_of o1 = Some m1 -> state_of o2 = Some m2 -> m1 ≈ m2) ->
  outcome_rel obs_eq o1 o2.
Proof. destruct o1, o2; simpl; naive_solver. Qed.

Lemma trace_cons c cs m :
  trace (c :: cs) m =
  observe (run_call c m) :: from_option (trace cs) [] (state_of (run_call c m)).
Proof. simpl. by destruct (state_of _). Qed.

(** A bisimulation relates only objects that look alike. *)
Lemma bisimulation_trace R cs m1 m2 :
  bisimulation R -> R m1 m2 -> trace cs m1 = trace cs m2.
Proof.
  intros HR. revert m1 m2. induction cs as [|c cs IH]; intros m1 m2 Hm; [done|].
  specialize (HR _ _ Hm c). rewrite !trace_cons, (outcome_rel_observe _ _ _ HR).
  f_equal. destruct (run_call c m1), (run_call c m2); simpl in *; naive_solver.
Qed.

(** The calls respect observational equivalence. *)
Lemma obs_eq_bisimulation : bisimulation obs_eq.
Proof.
  intros m1 m2 H c. apply observe_outcome_rel.
  - specialize (H [c]). simpl in H. by simplify_eq.
  - intros m1' m2' H1 H2 cs. specialize (H (c :: cs)).
    rewrite !trace_cons, H1, H2 in H. by simplify_eq/=.
Qed.

#[export] Instance run_call_proper c :
  Proper (obs_eq ==> outcome_rel obs_eq) (run_call c).
Proof. intros m1 m2 H. by apply obs_eq_bisimulation. Qed.

#[export] Instance run_calls_proper cs :
  Proper (obs_eq ==> outcome_rel obs_eq) (run_calls cs).
Proof.
  intros m1 m2 H. apply collect_rel; [|done].
  intros c t1 t2 Ht. by apply obs_eq_bisimulation.
Qed.

(** Observational equivalence is the largest bisimulation: two objects
    look alike to every sequence of calls exactly when some relation holds
    of them that every call keeps, returning the same block, throwing the
    same exception or terminating on both sides. *)
Lemma obs_eq_largest_bisimulation m1 m2 :
  m1 ≈ m2 <-> exists R, bisimulation R ∧ R m1 m2.
Proof.
  split.
  - intros H. exists obs_eq. auto using obs_eq_bisimulation.
  - intros (R & HR & H) cs. by apply (bisimulation_trace R).
Qed.

(** Objects that look alike run every session alike: the same blocks, the
    same exception, or termination. *)
Lemma obs_eq_session cs m1 m2 :
  m1 ≈ m2 ->
  value_of (run_calls cs m1) = value_of (run_calls cs m2) ∧
  thrown (run_calls cs m1) = thrown (run_calls cs m2).
Proof. intros H. eapply outcome_rel_value. by rewrite H. Qed.

End Observe.

(** * The adapter adds nothing to observe but the key *)

Section Lifting.
Context `{E : Engine}.
Implicit Types (m : machine) (c : call) (Re : relation engine).

Lemma run_hooks_rel Re hs s1 s2 :
  hook_bisimulation Re -> Re s1 s2 ->
  outcome_rel Re (run_hooks hs s1) (run_hooks hs s2).
Proof. intros HRe. apply collect_rel. intros h t1 t2 Ht. by apply HRe. Qed.

(** The specification of a call keeps engines related and keys equal. *)
Lemma spec_call_rel Re c m1 m2 :
  hook_bisimulation Re -> with_equal_keys Re m1 m2 ->
  outcome_rel (with_equal_keys Re) (spec_call c m1) (spec_call c m2).
Proof.
  intros HRe [Hb Hk]. unfold spec_call. rewrite Hk.
  pose proof (run_hooks_rel Re (hooks_of c (key m2)) _ _ HRe Hb) as H.
  destruct (run_hooks _ (base m1)), (run_hooks _ (base m2)); simpl in *;
    try done; destruct H as [? ->]; [done|]. by destruct (is_noexcept c).
Qed.

Lemma with_equal_keys_bisimulation Re :
  hook_bisimulation Re -> bisimulation (with_equal_keys Re).
Proof. intros HRe m1 m2 Hm c. rewrite !run_call_spec_call. by apply spec_call_rel. Qed.

(** C29: the adapter adds to the engine no state that can be observed but
    the key: two objects whose engines are related by a relation that every
    hook keeps, and whose keys are equal, look alike to every sequence of
    calls. *)
Theorem engine_equivalence_lifts Re m1 m2 :
  hook_bisimulation Re ->
  Re (base m1) (base m2) -> key m1 = key m2 ->
  m1 ≈ m2.
Proof.
  intros HRe Hb Hk cs.
  apply (bisimulation_trace (with_equal_keys Re)); [|done].
  by apply with_equal_keys_bisimulation.
Qed.

(** * The key is read by [reset] only *)

(** A call other than [reset] runs alike on objects with the same engine
    state, whatever their keys. *)
Lemma run_call_ignores_key c m1 m2 :
  no_reset c = true -> base m1 = base m2 ->
  outcome_rel (fun m1' m2' => base m1' = base m2') (run_call c m1) (run_call c m2).
Proof.
  intros Hc Hb. rewrite !run_call_spec_call. unfold spec_call. rewrite Hb.
  assert (hooks_of c (key m1) = hooks_of c (key m2)) as -> by by destruct c.
  destruct (run_hooks _ _); simpl; [done| |done]. by destruct (is_noexcept c).
Qed.

(** C30: the cached key is read by [reset] only: two objects with the same
    engine state look alike to every sequence of calls without [reset],
    whatever keys they cache. *)
Theorem key_read_by_reset_only cs m1 m2 :
  Forall (fun c => no_reset c = true) cs ->
  base m1 = base m2 ->
  trace cs m1 = trace cs m2.
Proof.
  intros Hcs. revert m1 m2. induction Hcs as [|c cs Hc _ IH]; intros m1 m2 Hb; [done|].
  pose proof (run_call_ignores_key c m1 m2 Hc Hb) as H.
  rewrite !trace_cons, (outcome_rel_observe _ _ _ H). f_equal.
  destruct (run_call c m1), (run_call c m2); simpl in *; naive_solver.
Qed.

End Lifting.

(** * The mixer: the space cannot be observed *)

(** Two states of the mixer that differ in the space at most. *)
Definition same_but_space : relation mix_state :=
  fun s1 s2 =>
    mix_time s1 = mix_time s2 ∧ mix_cells s1 = mix_cells s2 ∧
    mix_round s1 = mix_round s2.

Lemma same_but_space_bisimulation : hook_bisimulation (E:=mixer) same_but_space.
Proof.
  intros [n1 t1 k1 r1] [n2 t2 k2 r2] (? & ? & ?) h; simplify_eq/=.
  by destruct h.
Qed.

(** [set_space] changes the object and nothing a caller can see. *)
Lemma engine_equivalence_lifts_witness :
  after [CSetSpace 9] mixer4 ≠ mixer4 ∧ after [CSetSpace 9] mixer4 ≈ mixer4.
Proof.
  split; [compute_done|].
  apply (engine_equivalence_lifts (E:=mixer) same_but_space).
  - apply same_but_space_bisimulation.
  - by vm_compute.
  - by vm_compute.
Defined.

(** Two mixer objects with the engine of the scenario and different keys:
    alike until a [reset], told apart by one. *)
Lemma key_read_by_reset_only_witness :
  trace [CShr; feed 7; CCall] (with_key (E:=mixer) [] mixer4) =
  trace [CShr; feed 7; CCall] mixer4.
Proof.
  apply (key_read_by_reset_only (E:=mixer)); [by repeat constructor|done].
Defined.

Example key_observed_by_reset :
  trace [CReset; CShr] (with_key (E:=mixer) [] mixer4) ≠ trace [CReset; CShr] mixer4.
Proof. compute_done. Qed.
