(* ===== verification/Rekey.v ===== *)
(** * Rekey: key updates that follow one another

    The specification's scenario [set_key(K1); set_key(K2); set_key(K1)]:
    on an engine whose key installation replaces the keyed state
    ([EngineKeyLaws]) a key update overwrites the key update before it, so
    the three calls leave the object that [set_key(K1)] alone leaves and the
    same blocks are extracted afterwards.  A key update is not a reset: on
    an engine whose key installation leaves its round counter alone
    ([EngineRound]) key updates keep the counter where streaming left it.
    The examples show what the hypotheses are for: the tracer is not such an engine, and on the
    strict engine the three calls throw when [K2] is empty. *)

From Stdlib Require Import ZArith Lia.
From stdpp Require Import prelude.
From S2P Require Import Prelude Collect Limits Engine Engines Machine Spec Scenarios.
From S2P Require Import Errors.

Local Open Scope comp_scope.

(** A second key, of two cells, and key updates on the strict engine. *)
Definition key2 : list (word u32) := map (of_Z u32) [5; 6]%Z.

Definition rekey_strict (k : list (word u32)) : call (E:=strict) :=
  CSetKey k.

Section Rekey.
Context `{E : Engine} `{!EngineKeyLaws E}.
Implicit Types (m : machine) (k : list size_cell) (cs : list call).

(** The hooks of two key updates leave what the hooks of the second leave. *)
Lemma rekey_hooks n1 k1 n2 k2 s s' bs :
  run_hooks ([HSetSpace n1; HSetKey k1] ++ [HSetSpace n2; HSetKey k2]) s
    = Returns s' bs ->
  run_hooks [HSetSpace n2; HSetKey k2] s = Returns s' [].
Proof.
  change (run_hooks ([HSetSpace n1] ++ [HSetKey k1; HSetSpace n2; HSetKey k2]) s
            = Returns s' bs -> run_hooks ([HSetSpace n2] ++ [HSetKey k2]) s = Returns s' []).
  intros (s1 & bs1 & bs2 & H1 & H2%set_key_replaces & _)%run_hooks_app_returns.
  change (run_hooks ([HSetSpace n2] ++ [HSetKey k2]) s1 = Returns s' []) in H2.
  apply run_hooks_app_returns in H2 as (s2 & bs3 & bs4 & H2 & H3 & Hbs).
  symmetry in Hbs. apply app_eq_nil in Hbs as [-> ->].
  apply run_hooks_app_returns. exists s2, [], []. split_and!; [|done..].
  apply (set_space_replaces n1 n2 s s2 (bs1 ++ [])).
  apply (run_hooks_app_returns [HSetSpace n1] [HSetSpace n2]). eauto 10.
Qed.

(** A key update that returns yields no block. *)
Lemma set_key_call_returns k m m' o :
  run_call (CSetKey k) m = Returns m' o <->
  run_hooks (hooks_of (CSetKey k) (key m)) (base m) = Returns (base m') [] ∧
  key m' = resolve k ∧ o = None.
Proof.
  rewrite run_call_returns. split; [|naive_solver].
  intros (bs & H & Hk & ->). assert (bs = []) as ->; [|done].
  revert H. unfold run_hooks. cbn [hooks_of collect run_hook]. unfold bind, ret.
  repeat case_match; intros; by simplify_eq/=.
Qed.

Lemma rekey_call k1 k2 m m1 m2 o1 o2 :
  run_call (CSetKey k1) m = Returns m1 o1 ->
  run_call (CSetKey k2) m1 = Returns m2 o2 ->
  run_call (CSetKey k2) m = Returns m2 None.
Proof.
  intros (H1 & _ & _)%set_key_call_returns (H2 & Hk & _)%set_key_call_returns.
  apply set_key_call_returns. split_and!; [|done..].
  eapply rekey_hooks, run_hooks_app_returns. eauto 10.
Qed.

(** Two key updates in a row, then any calls: the first update is
    overwritten. *)
Lemma rekey_sessions k1 k2 cs m m' bs :
  run_calls (CSetKey k1 :: CSetKey k2 :: cs) m = Returns m' bs ->
  run_calls (CSetKey k2 :: cs) m = Returns m' bs.
Proof.
  intros (m1 & o1 & bs1 & H1 & H & ->)%run_calls_cons_returns.
  apply run_calls_cons_returns in H as (m2 & o2 & bs2 & H2 & H & ->).
  apply run_calls_cons_returns. exists m2, None, bs2.
  apply set_key_call_returns in H1 as H1'. apply set_key_call_returns in H2 as H2'.
  destruct H1' as (_ & _ & ->), H2' as (_ & _ & ->). eauto using rekey_call.
Qed.

(** C32: on an engine whose key installation replaces the keyed state, a
    key update overwrites the key updates before it: where
    [set_key(K1); ...; set_key(Kn); set_key(K)] and the calls after them
    return, [set_key(K)] and the same calls return the same blocks and leave
    the same object. *)
Theorem set_key_overwrites ks k cs m m' bs :
  run_calls ((CSetKey <$> ks) ++ CSetKey k :: cs) m = Returns m' bs ->
  run_calls (CSetKey k :: cs) m = Returns m' bs.
Proof.
  revert m bs. induction ks as [|k0 ks IH]; intros m bs; [done|].
  intros (m1 & o1 & bs1 & H1 & H%IH & ->)%run_calls_cons_returns.
  apply set_key_call_returns in H1 as H1'. destruct H1' as (_ & _ & ->).
  apply (rekey_sessions k0). apply run_calls_cons_returns. eauto 10.
Qed.

End Rekey.

Section RekeyTotal.
Context `{E : Engine} `{!EngineKeyLaws E} `{!EngineTotal E}.
Implicit Types (m : machine) (k : list size_cell) (cs : list call).

(** C33: the scenario of the specification on a total engine, as an
    equation between sessions: [set_key(K1); set_key(K2); set_key(K1)]
    followed by any calls ends, on every object, as [set_key(K1)] followed
    by the same calls does. *)
Theorem rekey_scenario k1 k2 cs :
  run_calls (CSetKey k1 :: CSetKey k2 :: CSetKey k1 :: cs) ≡
  run_calls (CSetKey k1 :: cs).
Proof.
  intros m.
  pose proof (run_calls_total (CSetKey k1 :: CSetKey k2 :: CSetKey k1 :: cs) m) as H.
  apply returns_true in H as (m' & bs & H). rewrite H. symmetry.
  by apply (rekey_sessions k2), (rekey_sessions k1).
Qed.

End RekeyTotal.

(** * A key update is not a reset *)

Section Asymmetry.
Context `{E : Engine} `{!EngineRound E}.
Implicit Types (m : machine) (k : list size_cell).

(** One key update that returns leaves the round counter alone. *)
Lemma set_key_round_of k m m' u :
  set_key k m = Returns m' u -> round_of (base m') = round_of (base m).
Proof.
  rewrite set_key_run. intros [H _]%lift_returns.
  apply bind_returns in H as (s & u1 & H1%set_space_round & H2%set_key_round).
  congruence.
Qed.

(** C34: key updates do not restart the stream: on an engine whose key
    installation and space setting leave its round counter alone, after any
    number of key updates that return the counter is where streaming left
    it; [set_key] calls neither [__reset] nor [__set_time]. *)
Theorem key_updates_keep_round ks m m' bs :
  run_calls (CSetKey <$> ks) m = Returns m' bs ->
  round_of (base m') = round_of (base m).
Proof.
  revert m bs. induction ks as [|k ks IH]; intros m bs.
  - unfold run_calls, collect, ret. by intros [= <- _].
  - intros (m1 & o & bs' & H1 & H2%IH & _)%run_calls_cons_returns.
    apply bind_returns in H1 as (m2 & u & H1%set_key_round_of & [= <- _]).
    congruence.
Qed.

End Asymmetry.

(** * The scenario on the engines *)

(** On the strict engine: [set_key(K1); set_key(K2); set_key(K1)] and two
    extractions, against [set_key(K1)] and two extractions. *)
Lemma set_key_overwrites_witness :
  run_calls (rekey_strict key4 :: [CShr; CShr]) strict4 =
  Returns
    (after ((CSetKey <$> [key4; key2]) ++ rekey_strict key4 :: [CShr; CShr])
       strict4)
    (default []
       (blocks ((CSetKey <$> [key4; key2]) ++ rekey_strict key4 :: [CShr; CShr])
          strict4)).
Proof.
  apply (set_key_overwrites (E:=strict) [key4; key2] key4 [CShr; CShr]).
  apply run_calls_after. by vm_compute.
Defined.

Lemma rekey_scenario_witness :
  run_calls [rekey [1; 2; 3; 4]%Z; rekey [5; 6]%Z; rekey [1; 2; 3; 4]%Z; CShr; CShr] mixer4 =
  run_calls [rekey [1; 2; 3; 4]%Z; CShr; CShr] mixer4.
Proof. apply (rekey_scenario (E:=mixer)). Defined.

(** The scenario leaves the space at the length of [K1]. *)
Example rekey_scenario_space :
  space_of (base (after [rekey [1; 2; 3; 4]%Z; rekey [5; 6]%Z; rekey [1; 2; 3; 4]%Z] mixer4))
    = 4.
Proof. by vm_compute. Qed.

(** With an empty [K2] the scenario throws on the strict engine, where
    [set_key(K1)] alone returns: [set_key] hands the engine the empty key. *)
Example rekey_scenario_empty_strict :
  thrown (run_calls [rekey_strict key4; rekey_strict []; rekey_strict key4] strict4)
    = Some invalid_argument ∧
  returns (run_calls [rekey_strict key4] strict4) = true.
Proof. by vm_compute. Qed.

(** The tracer keeps the history of its hooks: its key installation does
    not replace what was installed before. *)
Example tracer_keeps_history : ¬ EngineKeyLaws (tracer mixer).
Proof.
  intros [H _].
  specialize (H [] 0 [] [] [HSetKey []; HSetSpace 0; HSetKey []] []).
  by specialize (H eq_refl).
Qed.

(** After an extraction the mixer's counter is 1; two key updates keep it,
    and a reset restarts it. *)
Lemma key_updates_keep_round_witness :
  round_of (base (after (CSetKey <$> [key2; key4]) (after [CShr] mixer4)))
    = round_of (base (after [CShr] mixer4)).
Proof.
  apply (key_updates_keep_round (E:=mixer) [key2; key4] _ _
           (default [] (blocks (CSetKey <$> [key2; key4]) (after [CShr] mixer4)))).
  apply run_calls_after. by vm_compute.
Defined.

Example reset_restarts_round :
  word_val (mix_round (base (after [rekey [5; 6]%Z] (after [CShr] mixer4)))) = 1%Z ∧
  word_val (mix_round (base (after [rekey [5; 6]%Z; CReset] (after [CShr] mixer4)))) = 0%Z.
Proof. by vm_compute. Qed.

(** After one extraction, re-keying with and without a reset gives
    different blocks. *)
Example key_update_is_not_reset :
  blocks [rekey [5; 6]%Z; CShr] (after [CShr] mixer4) ≠
  blocks [rekey [5; 6]%Z; CReset; CShr] (after [CShr] mixer4).
Proof. compute_done. Qed.
