(* ===== verification/Streaming.v ===== *)
(** * Streaming: chains of the operators

    [operator<<] and [operator>>] return the adapter, so that a caller chains
    them: [m << a << b] and [m >> x >> y].  [shl_chain] and [shr_chain] are
    these chains.  The theorems say that a chain is the sequence of its
    calls, that it splits where the caller splits it, that it extracts as
    many blocks as it has operators and leaves the key alone. *)

From Stdlib Require Import ZArith Lia.
From stdpp Require Import prelude.
From S2P Require Import Prelude Collect Limits Engine Engines Machine Spec Scenarios Errors.

Local Open Scope comp_scope.

Section ChainDefs.
Context `{E : Engine}.

(** [instance << b1 << ... << bn]: the operators run left to right on the
    same object. *)
Fixpoint shl_chain (bs : list size_push) : comp exn machine unit :=
  match bs with
  | [] => ret tt
  | b :: bs' => operator_shl b ;; shl_chain bs'
  end.

(** [instance >> x1 >> ... >> xn]: the blocks written, in order. *)
Fixpoint shr_chain (n : nat) : comp exn machine (list size_pull) :=
  match n with
  | 0 => ret []
  | S n' =>
      let* b := operator_shr in
      let* bs := shr_chain n' in
      ret (b :: bs)
  end.

End ChainDefs.

Section Chains.
Context `{E : Engine}.
Implicit Types (m : machine) (bs : list size_push) (n : nat).

Lemma operator_shl_keeps_key k b :
  preserves (fun m => key m = k) (operator_shl b).
Proof. apply (zoom_preserves base with_base). by intros s [] <-. Qed.

Lemma operator_shr_keeps_key k :
  preserves (fun m => key m = k) operator_shr.
Proof.
  apply preserves_bind; [|auto with comp].
  apply (zoom_preserves base with_base). by intros s [] <-.
Qed.

(** Chained operators never change the cached key, whether the chain
    returns or an operator in it throws. *)
Lemma chains_keep_key k bs n :
  preserves (fun m => key m = k) (shl_chain bs) ∧
  preserves (fun m => key m = k) (shr_chain n).
Proof.
  split.
  - induction bs; simpl; auto using operator_shl_keeps_key with comp.
  - induction n; simpl; auto 6 using operator_shr_keeps_key with comp.
Qed.

(** A chain of feeds splits where the caller splits it:
    [m << (xs ++ ys)] is [m << xs] followed by [<< ys]. *)
Lemma shl_chain_app bs1 bs2 :
  shl_chain (bs1 ++ bs2) ≡ (shl_chain bs1 ;; shl_chain bs2).
Proof.
  induction bs1 as [|b bs1 IH]; simpl.
  - by rewrite bind_ret_l.
  - rewrite bind_assoc. by setoid_rewrite IH.
Qed.

Lemma shr_chain_returns_length n m m' ps :
  shr_chain n m = Returns m' ps -> length ps = n.
Proof.
  revert m ps. induction n as [|n IH]; intros m ps; simpl.
  - unfold ret. by intros [= _ <-].
  - intros (m1 & b & _ & H)%bind_returns.
    apply bind_returns in H as (m2 & ps' & H2 & H). unfold ret in H.
    simplify_eq. simpl. by rewrite (IH _ _ H2).
Qed.

(** A chain of extractions is the session of its calls. *)
Lemma shr_chain_run_calls n m : shr_chain n m = run_calls (replicate n CShr) m.
Proof.
  unfold run_calls. revert m. induction n as [|n IH]; intros m; [done|].
  cbn [shr_chain replicate collect run_call]. unfold bind, ret.
  destruct (operator_shr m) as [m1 b| |]; [|done..].
  rewrite IH. by destruct (collect run_call _ m1).
Qed.

(** A session that returns hands the caller one block for each
    extraction in it, [operator>>] or [operator()], and none for the other
    calls. *)
Lemma session_blocks_count cs m m' (ps : list size_pull) :
  run_calls cs m = Returns m' ps ->
  length ps = length (filter (fun c => extracts c = true) cs).
Proof. apply collect_length. intros c m1 m2 o. apply run_call_yields. Qed.

End Chains.

Example busy_blocks_count :
  length (default [] (blocks busy mixer4)) =
  length (filter (fun c => extracts c = true) busy).
Proof.
  apply (session_blocks_count (E:=mixer) busy mixer4 (after busy mixer4)).
  apply run_calls_after. by vm_compute.
Qed.

Example busy_extracts_four : length <$> blocks busy mixer4 = Some 4.
Proof. by vm_compute. Qed.

(** Three chained extractions on the scenario's mixer. *)
Example shr_chain_mixer4 :
  map word_val <$> value_of (shr_chain 3 mixer4) =
  Some [2654435879; 718962513; 2045210933]%Z.
Proof. by vm_compute. Qed.
