(* ===== verification/Bounds.v ===== *)
(** * Bounds: [max()] and [min()] of the adapter

    machine.hh answers [max()] with [std::numeric_limits<size_pull>::max()]
    and [min()] with [std::numeric_limits<size_pull>::lowest()].  For an
    integer block type the two are the limits of the type, which [Limits]
    states as the laws of [numeric_limits].  For a
    floating-point block type [min()] is the most negative finite value,
    where [std::numeric_limits::min()] is the smallest positive one; the
    finite blocks lie between [min()] and [max()], and an engine can hand
    out blocks that do not: the infinities and NaN. *)

From Stdlib Require Import ZArith Lia.
From Stdlib Require Import Floats.SpecFloat.
From stdpp Require Import prelude.
From S2P Require Import Prelude Collect Limits Floats Engine Engines Machine Spec Scenarios.

Local Open Scope comp_scope.

(** Calls on the echo engine of binary64 blocks. *)
Definition echo64 : machine (E:=echo Binary64) := built (E:=echo Binary64) [].

Definition feed64 (b : float Binary64) : call (E:=echo Binary64) :=
  CShl b.

(** The value 1.0 of a format. *)
Definition float_one (t : float_type) : spec_float :=
  S754_finite false (Z.to_pos (2 ^ (float_prec t - 1))) (1 - float_prec t).

(** * Floating-point blocks *)

Section FloatBounds.
Context (t : float_type).
Implicit Types (b : float t).

(** C18: with floating-point blocks every finite block lies between
    [min()] and [max()]: [min()] is [lowest()], the most negative finite
    value, and not [std::numeric_limits::min()], the smallest positive
    one. *)
Theorem float_blocks_within_limits b :
  float_finite b = true ->
  limits_le (min (E:=echo t)) b = true ∧ limits_le b (max (E:=echo t)) = true.
Proof. apply float_finite_within. Qed.

End FloatBounds.

Lemma float_one_valid t : Is_true (float_valid t (float_one t)).
Proof. by destruct t. Qed.

Lemma float_blocks_within_limits_witness :
  limits_le (min (E:=echo Binary64)) (Float (float_one Binary64) (float_one_valid _)) = true ∧
  limits_le (Float (float_one Binary64) (float_one_valid _)) (max (E:=echo Binary64)) = true.
Proof. by apply (float_blocks_within_limits Binary64). Defined.

(** The limits of binary32: [max()] is [(2^24 - 1) * 2^104] and
    [std::numeric_limits::min()] is [2^-126]. *)
Example float32_limits :
  float_val (max (E:=echo Binary32)) = S754_finite false 16777215 104 ∧
  float_val (min (E:=echo Binary32)) = S754_finite true 16777215 104 ∧
  float_val (limits_min (T:=float Binary32)) = S754_finite false 8388608 (-149).
Proof. done. Qed.

(** An engine can hand out a block that is not below [max()]: fed the
    positive infinity, the echo engine returns it. *)
Example float_block_above_max :
  blocks [feed64 (float_infinity Binary64 false); CShr] echo64
    = Some [float_infinity Binary64 false] ∧
  limits_le (float_infinity Binary64 false) (max (E:=echo Binary64)) = false.
Proof. split; [compute_done|done]. Qed.

(** * Integer blocks *)

(** The bounds of the mixer's 32-bit blocks. *)
Example mixer_limits :
  word_val (max (E:=mixer)) = 4294967295%Z ∧ word_val (min (E:=mixer)) = 0%Z.
Proof. by vm_compute. Qed.
