(* ===== verification/Guarantees.v ===== *)
(** * Guarantees: what a call that throws leaves behind

    The specification leaves retrying to the caller; what a caller can
    retry depends on the object a failed call leaves.  The levels are those
    of C++ practice: [NoThrow] (no exception leaves the call), [Strong] (a
    call that throws leaves the object as it was) and [Basic] (a call that
    throws leaves an object that keeps its invariant, here a non-empty
    key).  On an engine whose hooks give the strong guarantee
    ([EngineStrong]) the calls of machine.hh that make one hook call give
    it too; [set_key] and [reset], which make two, give the basic guarantee
    only, as the strict engine shows; [operator()] throws nothing on any
    engine.  On a lawful engine the data model of key, space and time
    extends to the calls that throw ([cfg_throws]). *)

From Stdlib Require Import ZArith Lia.
From stdpp Require Import prelude.
From S2P Require Import Prelude Collect Limits Engine Engines Machine Spec Scenarios.
From S2P Require Import Lifecycle Abstract.

Local Open Scope comp_scope.

(** * The guarantees of a computation *)

Section GuaranteeDefs.
Context {X S A : Type}.

(** A throw leaves the state as it was. *)
Definition strong (c : comp X S A) : Prop :=
  forall s s' e, c s = Throws s' e -> s' = s.

(** No exception leaves the computation; the program may end in it. *)
Definition nothrow (c : comp X S A) : Prop :=
  forall s, thrown (c s) = None.

End GuaranteeDefs.

(** An engine whose hooks give the strong guarantee. *)
Class EngineStrong (E : Engine) : Prop :=
  hook_strong (h : hook) : strong (run_hook h).

(** The levels of exception safety. *)
Inductive guarantee : Type := NoThrow | Strong | Basic.

#[export] Instance guarantee_eq_dec : EqDecision guarantee.
Proof. solve_decision. Defined.

(** [NoThrow] is the strongest level and [Basic] the weakest. *)
Definition guarantee_le (g1 g2 : guarantee) : bool :=
  match g1, g2 with
  | NoThrow, _ | Strong, (Strong | Basic) | Basic, Basic => true
  | _, _ => false
  end.

Section Levels.
Context `{E : Engine}.

(** The level of each call of the interface. *)
Definition guarantee_of (c : call) : guarantee :=
  match c with
  | CCall => NoThrow
  | CSetSpace _ | CSetTime _ | CShl _ | CShr => Strong
  | CSetKey _ | CReset => Basic
  end.

(** What a call of a level promises. *)
Definition gives (g : guarantee) (c : comp exn machine (option size_pull)) : Prop :=
  match g with
  | NoThrow => nothrow c
  | Strong => strong c
  | Basic => forall m m' e, key m ≠ [] -> c m = Throws m' e -> key m' ≠ []
  end.

End Levels.

(** * Guarantees of computations *)

Section GuaranteeLemmas.
Context {X S A : Type}.
Implicit Types (c : comp X S A).

Lemma nothrow_strong c : nothrow c -> strong c.
Proof. intros H s s' e Hc. specialize (H s). by rewrite Hc in H. Qed.

Lemma nothrow_noexcept c : nothrow (noexcept c).
Proof. intros s. apply noexcept_never_throws. Qed.

End GuaranteeLemmas.

(** * The guarantees of the calls *)

Section Calls.
Context `{E : Engine}.
Implicit Types (m : machine) (c : call) (h : hook).

Lemma run_hooks_singleton_throws h s s' e :
  run_hooks [h] s = Throws s' e <-> run_hook h s = Throws s' e.
Proof.
  rewrite (run_hooks_singleton h s). unfold bind, ret.
  destruct (run_hook h s); naive_solver.
Qed.

(** A call that makes one hook call is as strong as the hook. *)
Lemma single_hook_strong c h :
  (forall k, hooks_of c k = [h]) -> (forall k, key_after c k = k) ->
  strong (run_hook h) -> strong (run_call c).
Proof.
  intros Hh Hk Hs [s k] [s' k'] e (_ & H & Hk')%run_call_throws.
  rewrite Hh in H. apply run_hooks_singleton_throws, Hs in H. simpl in *.
  by rewrite H, Hk', Hk.
Qed.

Lemma gives_weaken g1 g2 (c : comp exn machine (option size_pull)) :
  guarantee_le g1 g2 = true -> gives g1 c -> gives g2 c.
Proof.
  destruct g1, g2; try done; simpl; intros _ H.
  - by apply nothrow_strong.
  - intros m m' e Hm Hc. by rewrite (nothrow_strong _ H _ _ _ Hc).
  - intros m m' e Hm Hc. by rewrite (H _ _ _ Hc).
Qed.

End Calls.

Section CallGuarantees.
Context `{E : Engine} `{!EngineStrong E}.
Implicit Types (m : machine) (c : call).

(** C14: the exception guarantee of every call, on an engine whose hooks
    leave the engine unchanged when they throw: [operator()] lets no
    exception out; [set_space], [set_time], [operator<<] and [operator>>]
    that throw leave the object as it was; [set_key] and [reset] that throw
    leave an object that may have changed and has a non-empty key. *)
Theorem call_guarantees c :
  __default_key ≠ [] -> gives (guarantee_of c) (run_call c).
Proof.
  intros Hd. destruct c as [k|n|n| |b| |]; cbn [guarantee_of gives].
  - intros m m' e _ (_ & _ & ->)%run_call_throws. by apply resolve_nonempty.
  - by apply (single_hook_strong _ (HSetSpace n)); [..|apply hook_strong].
  - by apply (single_hook_strong _ (HSetTime n)); [..|apply hook_strong].
  - by intros m m' e Hm (_ & _ & ->)%run_call_throws.
  - by apply (single_hook_strong _ (HPush b)); [..|apply hook_strong].
  - by apply (single_hook_strong _ HPull); [..|apply hook_strong].
  - intros m. destruct (run_call CCall m) eqn:H; [done| |done].
    by apply run_call_throws in H as [[=] _].
Qed.

End CallGuarantees.

(** * The configuration a failed call leaves *)

Section FailedConfig.
Context `{E : Engine} `{!EngineView E} `{!EngineLaws E} `{!EngineStrong E}.
Implicit Types (m : machine) (c : call) (h : hook) (s : engine).

(** Two hooks in a row that throw leave the engine as it was, or as the
    first hook left it. *)
Lemma run_hooks_pair_throws h1 h2 s s' e :
  run_hooks [h1; h2] s = Throws s' e ->
  s' = s ∨ exists o, run_hook h1 s = Returns s' o.
Proof.
  unfold run_hooks. cbn [collect]. unfold bind, ret.
  destruct (run_hook h1 s) as [s1 o| |] eqn:H1; [|intros [= <- _]|done].
  - destruct (run_hook h2 s1) as [| |] eqn:H2; [done| |done].
    intros [= <- _]. apply hook_strong in H2 as ->. eauto.
  - apply hook_strong in H1. auto.
Qed.

Lemma abs_eq m m' :
  key m' = key m -> view (base m') = view (base m) -> abs m' = abs m.
Proof. unfold abs, view. by intros -> [= -> ->]. Qed.

(** The data model at the end of a call, however it ended: a call that
    returned has made its step, a call that threw has done what
    [cfg_throws] allows. *)
Lemma run_call_config c m :
  match run_call c m with
  | Returns m' _ => abs m' = cfg_step c (abs m)
  | Throws m' _ => cfg_throws c (abs m) (abs m')
  | Terminates => True
  end.
Proof.
  destruct (run_call c m) as [m' o|m' e|] eqn:H; [by eapply abs_step| |done].
  pose proof H as (Hc & Hh & Hk)%run_call_throws.
  destruct c as [k|n|n| |b| |]; cbn [cfg_throws hooks_of key_after] in *; try done.
  - apply run_hooks_pair_throws in Hh as [Hs|[o Hv%run_hook_view]];
      unfold abs, view in *; simpl in *; [rewrite Hs|injection Hv as -> ->]; auto.
  - f_equal. by eapply (single_hook_strong _ (HSetSpace n)), H; [..|apply hook_strong].
  - f_equal. by eapply (single_hook_strong _ (HSetTime n)), H; [..|apply hook_strong].
  - apply abs_eq; [done|].
    by apply run_hooks_pair_throws in Hh as [->|[o Hv%run_hook_view]].
  - f_equal. by eapply (single_hook_strong _ (HPush b)), H; [..|apply hook_strong].
  - f_equal. by eapply (single_hook_strong _ HPull), H; [..|apply hook_strong].
Qed.

(** C22: the data model when a call throws, on a lawful engine whose hooks
    leave it unchanged when they throw: a failed [set_key] has replaced the
    key and kept the time, and the space is the old one or the new key's
    length; every other failed call, [reset] included, leaves key, space
    and time as they were. *)
Theorem failed_call_config c m m' e :
  run_call c m = Throws m' e -> cfg_throws c (abs m) (abs m').
Proof. intros H. pose proof (run_call_config c m) as Hc. by rewrite H in Hc. Qed.

End FailedConfig.

(** * The strict engine *)

(** The hooks of the strict engine check their arguments before they change
    the state. *)
#[export] Instance strict_strong : EngineStrong strict.
Proof.
  intros h s s' e. destruct h; simpl; unfold require; comp_cases; naive_solver.
Qed.

#[export] Instance mixer_strong : EngineStrong mixer.
Proof. intros h s s' []. Qed.

(** The guarantee of [operator>>] on the strict engine. *)
Lemma call_guarantees_witness : strong (run_call (E:=strict) CShr).
Proof. by apply (call_guarantees (E:=strict) CShr). Defined.

(** [set_key] and [reset] do not give the strong guarantee: on the strict
    engine [set_key] with the empty key throws after it replaced the cached
    key and set the space, and [reset] with the space set to 3 under a key
    of four cells throws after the engine went to its baseline. *)
Example set_key_reset_not_strong :
  ¬ strong (run_call (E:=strict) (CSetKey [])) ∧ ¬ strong (run_call (E:=strict) CReset).
Proof.
  split; intros H.
  - by specialize (H strict4 (after [CSetKey []] strict4) invalid_argument eq_refl).
  - by specialize (H (after [CSetSpace 3] strict4)
                     (after [CSetSpace 3; CReset] strict4) length_error eq_refl).
Qed.

(** The failed [set_key] of the empty key on the strict engine: the key is
    the default key and the space its length. *)
Lemma failed_call_config_witness :
  cfg_throws (E:=strict) (CSetKey []) (abs strict4) (abs (after [CSetKey []] strict4)).
Proof.
  apply (failed_call_config (E:=strict) (CSetKey []) strict4 _ invalid_argument).
  compute_done.
Defined.

Example failed_set_key_config :
  cfg_space (abs (after [CSetKey []] strict4)) = 8 ∧
  length (mix_cells (base (after [CSetKey []] strict4))) = 4.
Proof. by vm_compute. Qed.
