(* ===== verification/Catch.v ===== *)
(** * Catch: a caller that catches, and the data model as a state machine

    The adapter lets the exceptions of the engine through and leaves
    retrying to its caller.  A caller that goes on after an exception runs
    each call in a try block: [try_catch] is the block, [try_calls] a
    session of such calls, which yields one [event] per call (the call with
    the block it returned or the exception it threw) and ends only where
    the program terminates.  The objects [try_calls] leaves from a
    constructed object are exactly the [reachable] ones.

    [cfg_trace] is the data model of the specification as a state machine
    labelled by events: a call that returned makes its [cfg_step], a call
    that threw does what [cfg_throws] allows.  On a lawful engine whose
    hooks leave it unchanged when they throw, every session of a caller
    that catches is a run of this machine; the invariants proved on the
    machine by rule induction then hold of every object the caller can
    hold: each [set_key] counts for the key, returned or not; only the
    calls that returned count for the time, and for the space where no
    [set_key] threw.  The machine is also a function ([cfg_reach]), which
    decides its runs. *)

From Stdlib Require Import ZArith Lia.
From stdpp Require Import prelude.
From S2P Require Import Prelude Collect Limits Engine Engines Machine Spec Scenarios.
From S2P Require Import Lifecycle Abstract Errors Observe Guarantees.

Local Open Scope comp_scope.

(** * The try block *)

Section TryCatch.
Context {X S A : Type}.

(** [try { c } catch (const X &e) { }] with the result kept: the value, or
    the exception caught.  The state is the one the throw left. *)
Definition try_catch (c : comp X S A) : comp X S (A + X) :=
  fun s =>
    match c s with
    | Returns s' a => Returns s' (inl a)
    | Throws s' e => Returns s' (inr e)
    | Terminates => Terminates
    end.

End TryCatch.

Section Events.
Context `{E : Engine}.

(** What a caller that catches sees of a call: the call, and what it
    returned or what it threw. *)
Definition event : Type := call * (option size_pull + exn).

Definition try_call (c : call) : comp exn machine (option event) :=
  let* r := try_catch (run_call c) in ret (Some (c, r)).

(** A session in which every call is in a try block of its own. *)
Definition try_calls (cs : list call) : comp exn machine (list event) :=
  collect try_call cs.

(** The object and the events of a session, for evaluation. *)
Definition caught (cs : list call) (m : machine) : list event :=
  default [] (value_of (try_calls cs m)).

Definition after_caught (cs : list call) (m : machine) : machine :=
  default m (state_of (try_calls cs m)).

(** The call of the event returned. *)
Definition returned (ev : event) : bool :=
  match ev.2 with
  | inl _ => true
  | inr _ => false
  end.

(** The calls of a session that returned, and the calls that threw. *)
Definition effective (evs : list event) : list call :=
  omap (fun ev : event => if returned ev then Some ev.1 else None) evs.

Definition failed (evs : list event) : list call :=
  omap (fun ev : event => if returned ev then None else Some ev.1) evs.

(** The event as an observation of [Observe]. *)
Definition seen (ev : event) : observation :=
  match ev.2 with
  | inl o => Returns tt o
  | inr e => Throws tt e
  end.

(** * The data model as a state machine *)

(** One step: the configuration before and after an event. *)
Definition cfg_next (ev : event) (a a' : config) : Prop :=
  if returned ev then a' = cfg_step ev.1 a else cfg_throws ev.1 a a'.

Inductive cfg_trace : list event -> config -> config -> Prop :=
| cfg_trace_nil a : cfg_trace [] a a
| cfg_trace_cons ev evs a a1 a' :
    cfg_next ev a a1 -> cfg_trace evs a1 a' -> cfg_trace (ev :: evs) a a'.

(** The machine as a function: the configurations an event may lead to,
    and those a sequence of events may end in. *)
Definition cfg_posts (ev : event) (a : config) : list config :=
  if returned ev then [cfg_step ev.1 a]
  else match ev.1 with
       | CSetKey key =>
           [Config (resolve key) (cfg_space a) (cfg_time a); cfg_step (CSetKey key) a]
       | _ => [a]
       end.

Fixpoint cfg_reach (evs : list event) (a : config) : list config :=
  match evs with
  | [] => [a]
  | ev :: evs' => cfg_posts ev a ≫= cfg_reach evs'
  end.

Definition is_set_key (c : call) : bool :=
  match c with
  | CSetKey _ => true
  | _ => false
  end.

(** A [set_key] that threw: the one event after which the space may differ
    from what the calls that returned made it. *)
Definition set_key_threw (ev : event) : bool :=
  is_set_key ev.1 && negb (returned ev).

End Events.

(** * Lemmas on the try block *)

Section TryCatchLemmas.
Context {X S A : Type}.
Implicit Types (c : comp X S A) (s : S).

Lemma try_catch_nothrow c : nothrow (try_catch c).
Proof. intros s. unfold try_catch. by destruct (c s). Qed.

Lemma try_catch_state c s : state_of (try_catch c s) = state_of (c s).
Proof. unfold try_catch. by destruct (c s). Qed.

Lemma try_catch_returned c s s' a :
  try_catch c s = Returns s' (inl a) <-> c s = Returns s' a.
Proof. unfold try_catch. destruct (c s); naive_solver. Qed.

Lemma try_catch_caught c s s' e :
  try_catch c s = Returns s' (inr e) <-> c s = Throws s' e.
Proof. unfold try_catch. destruct (c s); naive_solver. Qed.

Lemma try_catch_terminates c s : try_catch c s = Terminates <-> c s = Terminates.
Proof. unfold try_catch. destruct (c s); naive_solver. Qed.

(** A block that cannot throw needs no try. *)
Lemma try_catch_noexcept c s :
  try_catch (noexcept c) s = (let* a := noexcept c in ret (inl a)) s.
Proof. unfold try_catch, noexcept, bind, ret. by destruct (c s). Qed.

End TryCatchLemmas.

(** * Sessions of a caller that catches *)

Section TryCalls.
Context `{E : Engine}.
Implicit Types (m : machine) (c : call) (cs : list call).
Implicit Types (ev : event) (evs : list event).

Lemma try_call_returns c m m' o :
  try_call c m = Returns m' o <->
  exists r, o = Some (c, r) ∧ try_catch (run_call c) m = Returns m' r.
Proof. unfold try_call, bind, ret. destruct (try_catch _ m); naive_solver. Qed.

(** The object a call in a try block leaves is the object the call
    leaves. *)
Lemma try_call_state c m : state_of (try_call c m) = state_of (run_call c m).
Proof.
  unfold try_call, bind, ret. rewrite <-(try_catch_state (run_call c)).
  by destruct (try_catch _ m).
Qed.

Lemma try_calls_cons c cs m m' evs :
  try_calls (c :: cs) m = Returns m' evs <->
  exists m1 r evs', try_catch (run_call c) m = Returns m1 r ∧
    try_calls cs m1 = Returns m' evs' ∧ evs = (c, r) :: evs'.
Proof.
  unfold try_calls. rewrite collect_cons_returns.
  setoid_rewrite try_call_returns. naive_solver.
Qed.

Lemma try_calls_snoc cs c m m' evs :
  try_calls (cs ++ [c]) m = Returns m' evs <->
  exists m1 r evs', try_calls cs m = Returns m1 evs' ∧
    try_catch (run_call c) m1 = Returns m' r ∧ evs = evs' ++ [(c, r)].
Proof.
  unfold try_calls. rewrite collect_app_returns.
  setoid_rewrite (collect_singleton try_call c _). setoid_rewrite bind_returns.
  setoid_rewrite try_call_returns. unfold ret. naive_solver.
Qed.

(** No exception leaves the session. *)
Lemma try_calls_nothrow cs : nothrow (try_calls cs).
Proof.
  unfold try_calls. induction cs as [|c cs IH]; intros m; [done|].
  cbn [collect]. unfold try_call at 1. unfold bind, ret.
  pose proof (try_catch_nothrow (run_call c) m) as Hc.
  destruct (try_catch _ m) as [m1 r| |]; [|done..].
  specialize (IH m1). by destruct (collect try_call cs m1).
Qed.

(** The events are those of the calls, one each and in order. *)
Lemma try_calls_calls cs m m' evs :
  try_calls cs m = Returns m' evs -> fst <$> evs = cs.
Proof.
  revert m evs. induction cs as [|c cs IH]; intros m evs.
  - unfold try_calls, collect, ret. by intros [= _ <-].
  - by intros (m1 & r & evs' & _ & <-%IH & ->)%try_calls_cons.
Qed.

(** The session ends before its last call only where a call terminates
    the program. *)
Lemma try_calls_terminates cs m :
  returns (try_calls cs m) = false <->
  exists cs1 c cs2 m1 evs, cs = cs1 ++ c :: cs2 ∧
    try_calls cs1 m = Returns m1 evs ∧ run_call c m1 = Terminates.
Proof.
  pose proof (try_calls_nothrow cs m) as Hn.
  assert (returns (try_calls cs m) = false <->
          failure_of (try_calls cs m) = Some Terminated) as ->
    by (destruct (try_calls cs m); naive_solver).
  unfold try_calls. rewrite collect_failure.
  do 5 (apply exist_proper; intros ?). do 2 (apply and_iff_compat_l).
  unfold try_call, bind, ret. rewrite <-(try_catch_terminates (run_call _)).
  destruct (try_catch _ _); naive_solver.
Qed.

Lemma effective_Forall (P : call -> Prop) evs :
  Forall (fun ev => P ev.1) evs -> Forall P (effective evs).
Proof.
  induction 1 as [|ev evs Hev _ IH]; [constructor|]. unfold effective in *. simpl.
  destruct (returned ev); [by constructor|done].
Qed.

Lemma try_calls_after_caught cs m :
  returns (try_calls cs m) = true ->
  try_calls cs m = Returns (after_caught cs m) (caught cs m).
Proof. unfold after_caught, caught. by destruct (try_calls cs m). Qed.

End TryCalls.

(** * The objects a caller can hold *)

Section Reachable.
Context `{E : Engine}.
Implicit Types (m : machine) (c : call) (cs : list call) (evs : list event).

Lemma try_catch_reachable c m m' r :
  reachable m -> try_catch (run_call c) m = Returns m' r -> reachable m'.
Proof.
  intros Hm H. eapply reachable_call; [done|].
  by rewrite <-(try_catch_state (run_call c)), H.
Qed.

Lemma try_calls_reachable cs m m' evs :
  reachable m -> try_calls cs m = Returns m' evs -> reachable m'.
Proof.
  revert m evs. induction cs as [|c cs IH]; intros m evs Hm.
  - unfold try_calls, collect, ret. by intros [= <- _].
  - intros (m1 & r & evs' & H1 & H2 & _)%try_calls_cons.
    eauto using try_catch_reachable.
Qed.

(** The reachable objects are those that a caller who catches can hold:
    the object of a construction that returned, after a session of calls
    in try blocks. *)
Lemma reachable_try_calls m :
  reachable m <->
  exists k m0 cs evs, construct k = Returns tt m0 ∧ try_calls cs m0 = Returns m evs.
Proof.
  split.
  - induction 1 as [k m H|c m m' _ (k & m0 & cs & evs & Hk & Hcs) Hc].
    + by exists k, m, [], [].
    + rewrite <-(try_catch_state (run_call c)) in Hc.
      pose proof (try_catch_nothrow (run_call c) m) as Hn.
      destruct (try_catch _ m) as [m1 r| |] eqn:Hr; simplify_eq/=.
      exists k, m0, (cs ++ [c]), (evs ++ [(c, r)]). split; [done|].
      apply try_calls_snoc. eauto 10.
  - intros (k & m0 & cs & evs & Hk & Hcs).
    eapply try_calls_reachable; [by eapply reachable_construct|done].
Qed.

(** A session that returns is the session of a caller that catches, with
    nothing to catch. *)
Lemma run_calls_try_calls cs m m' bs :
  run_calls cs m = Returns m' bs ->
  exists evs, try_calls cs m = Returns m' evs ∧ effective evs = cs ∧ failed evs = [].
Proof.
  revert m bs. induction cs as [|c cs IH]; intros m bs.
  - unfold run_calls, collect, ret. intros [= <- _]. by exists [].
  - intros (m1 & o & bs' & H1 & (evs & H2 & He & Hf)%IH & _)%run_calls_cons_returns.
    exists ((c, inl o) :: evs). split; [|split; [|done]].
    2: { change (c :: effective evs = c :: cs). by rewrite He. }
    apply try_calls_cons. exists m1, (inl o), evs. by rewrite try_catch_returned.
Qed.

(** What the caller sees is the trace of [Observe]. *)
Lemma try_calls_trace cs m m' evs :
  try_calls cs m = Returns m' evs -> trace cs m = seen <$> evs.
Proof.
  revert m evs. induction cs as [|c cs IH]; intros m evs.
  - unfold try_calls, collect, ret. by intros [= _ <-].
  - intros (m1 & r & evs' & H1 & H2%IH & ->)%try_calls_cons.
    rewrite trace_cons, fmap_cons, <-H2. unfold try_catch in H1. by destruct (run_call c m); simplify_eq/=.
Qed.

(** The cached key is the key of the last [set_key], whether it returned
    or threw. *)
Lemma try_calls_key cs m m' evs :
  try_calls cs m = Returns m' evs -> key m' = session_key cs (key m).
Proof.
  revert m evs. induction cs as [|c cs IH]; intros m evs.
  - unfold try_calls, collect, ret. by intros [= <- _].
  - intros (m1 & r & evs' & H1 & ->%IH & _)%try_calls_cons.
    change (session_key (c :: cs) (key m))
      with (session_key cs (key_after c (key m))). f_equal. apply run_call_key.
    by rewrite <-(try_catch_state (run_call c)), H1.
Qed.

End Reachable.

(** * Runs of the machine *)

Section ConfigMachine.
Context `{E : Engine}.
Implicit Types (a : config) (c : call) (cs : list call).
Implicit Types (ev : event) (evs : list event).

(** Each component of the configuration steps on its own. *)
Lemma cfg_run_time_ext cs a1 a2 :
  cfg_time a1 = cfg_time a2 -> cfg_time (cfg_run cs a1) = cfg_time (cfg_run cs a2).
Proof.
  revert a1 a2. induction cs as [|c cs IH]; intros a1 a2 H; [done|].
  rewrite !cfg_run_cons. apply IH. by destruct c.
Qed.

Lemma cfg_run_key cs a : cfg_key (cfg_run cs a) = session_key cs (cfg_key a).
Proof.
  revert a. induction cs as [|c cs IH]; intros a; [done|].
  rewrite cfg_run_cons, IH. by destruct c.
Qed.

Lemma cfg_trace_app evs1 evs2 a a' :
  cfg_trace (evs1 ++ evs2) a a' <->
  exists a1, cfg_trace evs1 a a1 ∧ cfg_trace evs2 a1 a'.
Proof.
  revert a. induction evs1 as [|ev evs1 IH]; intros a; simpl.
  - split; [eauto using cfg_trace_nil|]. by intros (a1 & H1 & H2); inversion H1.
  - split.
    + intros H. inversion H as [|? ? ? a1 ? Hn H']; subst.
      apply IH in H' as (a2 & H1 & H2). eauto using cfg_trace_cons.
    + intros (a2 & H1 & H2). inversion H1 as [|? ? ? a1 ? Hn H3]; subst.
      eapply cfg_trace_cons; [done|]. apply IH. eauto.
Qed.

(** The relation and the function agree. *)
Lemma cfg_next_posts ev a a' : cfg_next ev a a' <-> a' ∈ cfg_posts ev a.
Proof.
  unfold cfg_next, cfg_posts. destruct (returned ev); [by rewrite list_elem_of_singleton|].
  destruct ev.1; simpl; rewrite ?list_elem_of_singleton; try done.
  rewrite elem_of_cons, list_elem_of_singleton. destruct a, a'; simpl. naive_solver.
Qed.

Lemma cfg_trace_cons_inv ev evs a a' :
  cfg_trace (ev :: evs) a a' <-> exists a1, cfg_next ev a a1 ∧ cfg_trace evs a1 a'.
Proof.
  split; [inversion 1; eauto|]. intros (a1 & H1 & H2). by econstructor.
Qed.

Lemma cfg_trace_reach evs a a' : cfg_trace evs a a' <-> a' ∈ cfg_reach evs a.
Proof.
  revert a. induction evs as [|ev evs IH]; intros a.
  - simpl. rewrite list_elem_of_singleton. split; [by inversion 1|intros ->; constructor].
  - rewrite cfg_trace_cons_inv. simpl. rewrite list_elem_of_bind.
    setoid_rewrite IH. setoid_rewrite cfg_next_posts. naive_solver.
Qed.

#[export] Instance cfg_trace_dec `{!EngineDec E} evs a a' : Decision (cfg_trace evs a a').
Proof.
  refine (cast_if (decide (a' ∈ cfg_reach evs a))); by rewrite cfg_trace_reach.
Defined.

(** One event: what it does to the key, to the time, and to the
    configuration where it is not a [set_key] that threw. *)
Lemma cfg_next_key ev a a' :
  cfg_next ev a a' -> cfg_key a' = key_after ev.1 (cfg_key a).
Proof.
  destruct ev as [c [o|e]]; unfold cfg_next; simpl; [by intros ->; destruct c|].
  destruct c; simpl; naive_solver.
Qed.

Lemma cfg_next_time ev a a' :
  cfg_next ev a a' ->
  cfg_time a' = cfg_time (cfg_run (effective [ev]) a).
Proof.
  destruct ev as [c [o|e]]; unfold cfg_next; simpl; [by intros ->|].
  destruct c; simpl; naive_solver.
Qed.

Lemma cfg_next_effective ev a a' :
  set_key_threw ev = false -> cfg_next ev a a' -> a' = cfg_run (effective [ev]) a.
Proof. destruct ev as [c [o|e]]; unfold cfg_next; [done|]. by destruct c. Qed.

(** A run of the machine: every [set_key] counts for the key. *)
Lemma cfg_trace_key evs a a' :
  cfg_trace evs a a' -> cfg_key a' = session_key (fst <$> evs) (cfg_key a).
Proof.
  induction 1 as [|ev evs a a1 a' Hn _ IH]; [done|].
  by rewrite IH, (cfg_next_key _ _ _ Hn).
Qed.

(** Only the calls that returned count for the time. *)
Lemma cfg_trace_time evs a a' :
  cfg_trace evs a a' -> cfg_time a' = cfg_time (cfg_run (effective evs) a).
Proof.
  induction 1 as [|ev evs a a1 a' Hn _ IH]; [done|].
  change (ev :: evs) with ([ev] ++ evs). unfold effective in *.
  rewrite omap_app, cfg_run_app, IH. by apply cfg_run_time_ext, cfg_next_time.
Qed.

(** Where no [set_key] threw, only the calls that returned count. *)
Lemma cfg_trace_effective evs a a' :
  Forall (fun ev => set_key_threw ev = false) evs ->
  cfg_trace evs a a' -> a' = cfg_run (effective evs) a.
Proof.
  intros Hevs H. induction H as [|ev evs a a1 a' Hn _ IH]; [done|].
  apply Forall_cons in Hevs as [Hev Hevs]. change (ev :: evs) with ([ev] ++ evs).
  unfold effective in *. rewrite omap_app, cfg_run_app, (IH Hevs).
  f_equal. by apply cfg_next_effective.
Qed.

(** The key is never empty, whatever threw. *)
Lemma cfg_trace_key_nonempty evs a a' :
  __default_key ≠ [] -> cfg_trace evs a a' -> cfg_key a ≠ [] -> cfg_key a' ≠ [].
Proof.
  intros Hd. induction 1 as [|ev evs a a1 a' Hn _ IH]; [done|]. intros Ha.
  apply IH. rewrite (cfg_next_key _ _ _ Hn). by apply key_after_nonempty.
Qed.

End ConfigMachine.

(** * The adapter under a caller that catches implements the machine *)

Section Simulation.
Context `{E : Engine} `{!EngineView E} `{!EngineLaws E} `{!EngineStrong E}.
Implicit Types (m : machine) (k : list size_cell) (c : call) (cs : list call).
Implicit Types (evs : list event).

(** One call in a try block is one step of the machine. *)
Lemma try_catch_next c m m' r :
  try_catch (run_call c) m = Returns m' r -> cfg_next (c, r) (abs m) (abs m').
Proof.
  pose proof (run_call_config c m) as H. unfold try_catch, cfg_next.
  destruct (run_call c m); intros; by simplify_eq/=.
Qed.

Lemma try_calls_cfg_trace cs m m' evs :
  try_calls cs m = Returns m' evs -> cfg_trace evs (abs m) (abs m').
Proof.
  revert m evs. induction cs as [|c cs IH]; intros m evs.
  - unfold try_calls, collect, ret. intros [= <- <-]. constructor.
  - intros (m1 & r & evs' & H1%try_catch_next & H2%IH & ->)%try_calls_cons.
    by econstructor.
Qed.

(** C21: under a caller that catches, the adapter implements the data model
    as a state machine: on a lawful engine whose hooks leave it unchanged
    when they throw, an object constructed with a key and used through any
    calls, each in a try block, goes through the configurations of a run of
    the machine from the initial configuration of the key, labelled by what
    the caller saw of each call. *)
Theorem caught_session_simulates k cs m0 m evs :
  construct k = Returns tt m0 ->
  try_calls cs m0 = Returns m evs ->
  cfg_trace evs (cfg_init k) (abs m).
Proof. intros <-%abs_construct. apply try_calls_cfg_trace. Qed.

(** C23: a call that threw leaves no trace in the configuration unless it
    is [set_key]: after a session of a caller that catches, the time is the
    time that the calls that returned, alone, give in the data model; and
    where no [set_key] threw, so are the key and the space. *)
Theorem failed_calls_leave_no_trace cs m m' evs :
  try_calls cs m = Returns m' evs ->
  time_of (base m') = cfg_time (cfg_run (effective evs) (abs m)) ∧
  (Forall (fun ev => set_key_threw ev = false) evs ->
   abs m' = cfg_run (effective evs) (abs m)).
Proof.
  intros H%try_calls_cfg_trace. split; [by apply cfg_trace_time in H|].
  intros Hevs. by apply cfg_trace_effective.
Qed.

(** Key and space stay together through a session in which no call sets
    the space and no [set_key] throws, whatever else throws. *)
Lemma caught_session_wf cs m m' evs :
  try_calls cs m = Returns m' evs ->
  Forall (fun ev => keeps_space ev.1 = true) evs ->
  Forall (fun ev => set_key_threw ev = false) evs ->
  cfg_wf (abs m) -> cfg_wf (abs m').
Proof.
  intros H%try_calls_cfg_trace Hs Hk Hm.
  rewrite (cfg_trace_effective _ _ _ Hk H).
  apply cfg_run_wf; [apply default_key_nonempty|by apply effective_Forall|done].
Qed.

(** Every reachable object is in a configuration that the machine reaches
    from an initial one. *)
Lemma reachable_config m :
  reachable m -> exists k evs, cfg_trace evs (cfg_init k) (abs m).
Proof.
  intros (k & m0 & cs & evs & Hk%abs_construct & H%try_calls_cfg_trace)
    %reachable_try_calls. exists k, evs. by rewrite <-Hk.
Qed.

End Simulation.

(** * The data model has no run that no object makes *)

Section Realised.
Context `{E : Engine} `{!EngineView E} `{!EngineLaws E} `{!EngineTotal E}.

(** On a lawful engine whose hooks always return, every configuration the
    data model computes from a key and calls is the configuration of a
    reachable object: the simulation loses nothing. *)
Lemma cfg_run_realised (k : list size_cell) (cs : list call) :
  exists m : machine, reachable m ∧ abs m = cfg_run cs (cfg_init k).
Proof.
  pose proof (construct_built k (construct_total k)) as Hk.
  pose proof (run_calls_after cs (built k) (run_calls_total cs (built k))) as Hcs.
  exists (after cs (built k)). split.
  - apply reachable_after. by eapply reachable_construct.
  - by rewrite (abs_run _ _ _ _ Hcs), (abs_construct _ _ Hk).
Qed.

End Realised.

(** * On the strict engine *)

(** A session in which four calls throw: [set_time(0)], [operator>>] and
    [reset] with the space set to 3 under a key of four cells, and
    [set_key] with the empty key. *)
Definition stormy : list (call (E:=strict)) :=
  [CSetTime 0; CSetSpace 3; CShr; CReset; CSetKey []; CSetTime 5;
   CSetKey key4; CShr].

Lemma caught_session_simulates_witness :
  cfg_trace (caught stormy strict4) (cfg_init (E:=strict) key4)
    (abs (after_caught stormy strict4)).
Proof.
  apply (caught_session_simulates (E:=strict) key4 stormy strict4).
  - apply construct_built. by vm_compute.
  - apply try_calls_after_caught. by vm_compute.
Defined.

Example stormy_events :
  failed (caught stormy strict4) = [CSetTime 0; CShr; CReset; CSetKey []] ∧
  effective (caught stormy strict4) = [CSetSpace 3; CSetTime 5; CSetKey key4; CShr] ∧
  abs (after_caught stormy strict4) = Config (E:=strict) key4 4 5.
Proof. split_and!; compute_done. Qed.

(** The machine decides its runs: the events of the session lead from the
    initial configuration to key [key4], space 4 and time 5, and do not
    lead to a configuration that kept the default time. *)
Example stormy_trace :
  cfg_trace (caught stormy strict4) (cfg_init (E:=strict) key4)
    (Config (E:=strict) key4 4 5) ∧
  ¬ cfg_trace (caught stormy strict4) (cfg_init (E:=strict) key4)
    (Config (E:=strict) key4 4 1).
Proof. split; compute_done. Qed.

(** The two ways [set_key] throws.  A key of seventeen cells is rejected by
    [__set_space]: the key is cached and the space is the old one, a block
    is still extracted under the old key, and [reset] throws until a key
    that the engine takes is set.  The empty key is rejected by
    [__set_key]: the default key is cached and the space is its length. *)
Definition long17 : call (E:=strict) := CSetKey (of_Z u32 <$> replicate 17 1%Z).

Example set_key_throws_strict :
  abs (after_caught [long17] strict4) =
    Config (E:=strict) (of_Z u32 <$> replicate 17 1%Z) 4 1 ∧
  failed (caught [long17; CShr; CSetKey key4; CReset] strict4) = [long17] ∧
  failed (caught [long17; CReset; CShr] strict4) = [long17; CReset; CShr] ∧
  abs (after_caught [CSetKey []] strict4) = Config (E:=strict) mix_default_key 8 1.
Proof. split_and!; compute_done. Qed.

(** The session [stormy] without the failed [set_key]. *)
Lemma failed_calls_leave_no_trace_witness :
  let cs : list (call (E:=strict)) :=
    [CSetTime 0; CSetSpace 3; CShr; CReset; CSetTime 5; CSetKey key4; CShr] in
  time_of (base (after_caught cs strict4)) =
    cfg_time (cfg_run (effective (caught cs strict4)) (abs strict4)) ∧
  (Forall (fun ev => set_key_threw ev = false) (caught cs strict4) ->
   abs (after_caught cs strict4) = cfg_run (effective (caught cs strict4)) (abs strict4)).
Proof.
  intros cs. apply (failed_calls_leave_no_trace (E:=strict) cs strict4).
  apply try_calls_after_caught. by vm_compute.
Defined.

(** After the [set_key] of the empty key threw, the space is the length of
    the default key, which the calls that returned never set. *)
Example failed_set_key_leaves_trace :
  abs (after_caught [CSetKey []] strict4) ≠
  cfg_run (effective (caught [CSetKey []] strict4)) (abs strict4).
Proof. compute_done. Qed.
