(* ===== verification/Retry.v ===== *)
(** * Retry: a call that threw, made again

    The specification leaves any retry policy to the caller.  The member
    functions of machine.hh keep nothing of a failed call but the key that
    [set_key] caches, and call the same hooks with the same arguments when
    they are called again.  On a lawful engine whose hooks leave it
    unchanged when they throw, and whose [__set_space] sets once what it
    sets twice, a call that threw therefore does not return when it is made
    again on the object it left, and leaves that object: a caller that
    retries has to change the configuration, or the engine's state by other
    calls, first. *)

From Stdlib Require Import ZArith Lia.
From stdpp Require Import prelude.
From S2P Require Import Prelude Collect Limits Engine Engines Machine Spec Scenarios.
From S2P Require Import Abstract Guarantees Catch.

Local Open Scope comp_scope.

Section Retry.
Context `{E : Engine} `{!EngineView E} `{!EngineLaws E} `{!EngineStrong E}.
Implicit Types (m : machine) (k : list size_cell) (c : call) (s : engine).

(** The state and the exception of the second of two hooks that threw. *)
Lemma run_hooks_pair_second (h1 h2 : hook) s s1 o s' e :
  run_hook h1 s = Returns s1 o -> run_hooks [h1; h2] s = Throws s' e ->
  s' = s1 ∧ run_hook h2 s1 = Throws s1 e.
Proof.
  intros H1. unfold run_hooks. cbn [collect]. unfold bind, ret. rewrite H1.
  destruct (run_hook h2 s1) as [| |] eqn:H2; [done| |done].
  intros [= <- <-]. by apply hook_strong in H2 as Hs; subst.
Qed.

(** [__reset] on a state it has left returns that state, where it
    returns. *)
Lemma reset_twice s s1 s2 o1 o2 :
  run_hook HReset s = Returns s1 o1 -> run_hook HReset s1 = Returns s2 o2 -> s2 = s1.
Proof.
  intros H1 H2. pose proof (run_hook_view _ _ _ _ H1) as Hv. simpl in *.
  apply bind_returns in H1 as (? & ? & H1%reset_baseline & [= <- _]).
  apply bind_returns in H2 as (? & ? & H2%reset_baseline & [= <- _]).
  rewrite H2. unfold view in Hv. simpl in Hv. injection Hv as -> ->. by rewrite <-H1.
Qed.

(** Two hooks that threw, the first of which changes nothing the second
    time: run again, they do not return and leave the engine where it
    is. *)
Lemma hooks_pair_again (h1 h2 : hook) s s' e :
  (forall s0 s1 s2 o1 o2,
     run_hook h1 s0 = Returns s1 o1 -> run_hook h1 s1 = Returns s2 o2 -> s2 = s1) ->
  run_hooks [h1; h2] s = Throws s' e ->
  returns (run_hooks [h1; h2] s') = false ∧ post (eq s') (run_hooks [h1; h2] s').
Proof.
  intros Hh H. destruct (run_hooks_pair_throws _ _ _ _ _ H) as [->|[o H1]]; [by rewrite H|].
  destruct (run_hooks_pair_second _ _ _ _ _ _ _ H1 H) as [_ H2].
  unfold run_hooks. cbn [collect]. unfold bind, ret.
  destruct (run_hook h1 s') as [s2 o2|s2 e2|] eqn:H3; [| |done].
  - rewrite (Hh _ _ _ _ _ H1 H3). by rewrite H2.
  - by apply hook_strong in H3.
Qed.

(** The same call on the object a throw left: where its hooks run again do
    not return and leave the engine, the call does not return and leaves
    the object. *)
Lemma spec_call_again c m' :
  key_after c (key m') = key m' ->
  returns (run_hooks (hooks_of c (key m')) (base m')) = false ->
  post (eq (base m')) (run_hooks (hooks_of c (key m')) (base m')) ->
  returns (run_call c m') = false ∧ post (eq m') (run_call c m').
Proof.
  intros Hk. rewrite run_call_spec_call. unfold spec_call. rewrite Hk.
  destruct (run_hooks _ _) as [|s e|]; [done| |done]. simpl. intros _ <-.
  destruct (is_noexcept c); [done|]. by destruct m'.
Qed.

(** A call of one hook that threw throws again. *)
Lemma retry_single c (h : hook) m m' e :
  (forall k, hooks_of c k = [h]) -> (forall k, key_after c k = k) ->
  run_call c m = Throws m' e ->
  returns (run_call c m') = false ∧ post (eq m') (run_call c m').
Proof.
  intros Hh Hk H.
  assert (m' = m) as -> by (by eapply single_hook_strong, H; [..|apply hook_strong]).
  by rewrite H.
Qed.

(** A call other than [set_key] that threw does not return when it is made
    again on the object it left. *)
Lemma retry_fails_unless_set_key c m m' e :
  (forall k, c ≠ CSetKey k) ->
  run_call c m = Throws m' e ->
  returns (run_call c m') = false ∧ post (eq m') (run_call c m').
Proof.
  intros Hc H. destruct c as [k|n|n| |b| |].
  - by destruct (Hc k).
  - by apply (retry_single _ (HSetSpace n)) in H.
  - by apply (retry_single _ (HSetTime n)) in H.
  - apply run_call_throws in H as (_ & H & Hk). simpl in H, Hk. rewrite <-Hk in H.
    apply hooks_pair_again in H as [Hr Hp]; [|apply reset_twice].
    by apply (spec_call_again CReset).
  - by apply (retry_single _ (HPush b)) in H.
  - by apply (retry_single _ HPull) in H.
  - by apply run_call_throws in H as [[=] _].
Qed.

End Retry.

Section RetryKey.
Context `{E : Engine} `{!EngineView E} `{!EngineLaws E} `{!EngineKeyLaws E}.
Context `{!EngineStrong E}.
Implicit Types (m : machine) (k : list size_cell) (c : call) (s : engine).

(** The space set twice to the same value is the space set once. *)
Lemma set_space_twice n s s1 s2 o1 o2 :
  run_hook (HSetSpace n) s = Returns s1 o1 ->
  run_hook (HSetSpace n) s1 = Returns s2 o2 -> s2 = s1.
Proof.
  intros H1 H2.
  assert (exists bs, run_hooks [HSetSpace n; HSetSpace n] s = Returns s2 bs) as [bs H].
  { eexists. apply collect_cons_returns. exists s1, o1, (option_list o2).
    split_and!; [done| |done]. by rewrite (run_hooks_singleton _ s1 : collect _ _ _ = _),
      (bind_run_returns _ _ _ _ _ H2). }
  apply set_space_replaces in H. rewrite (run_hooks_singleton _ s) in H.
  rewrite (bind_run_returns _ _ _ _ _ H1) in H. unfold ret in H. by simplify_eq.
Qed.

Lemma retry_set_key k m m' e :
  run_call (CSetKey k) m = Throws m' e ->
  returns (run_call (CSetKey k) m') = false ∧ post (eq m') (run_call (CSetKey k) m').
Proof.
  intros (_ & H & Hk)%run_call_throws. simpl in H, Hk.
  apply hooks_pair_again in H as [Hr Hp]; [|apply set_space_twice].
  by apply (spec_call_again (CSetKey k)).
Qed.

(** C25: retrying at once is of no use: on a lawful engine whose hooks leave
    it unchanged when they throw, a call that threw and is made again on
    the object it left does not return, and leaves the object as it is.
    The caller has to change the configuration, or the engine's state by
    other calls, before the call can return. *)
Theorem retry_fails_again c m m' e :
  run_call c m = Throws m' e ->
  returns (run_call c m') = false ∧ post (eq m') (run_call c m').
Proof.
  intros H. destruct (decide (is_set_key c = true)) as [Hc|Hc].
  - destruct c; try done. by eapply retry_set_key.
  - eapply retry_fails_unless_set_key; [|done]. by intros k ->.
Qed.

End RetryKey.

(** * On the strict engine *)

(** [reset] with the space set to 3 under a key of four cells throws, and
    throws again; once the space is set to 4 it returns. *)
Lemma retry_fails_again_witness :
  returns (run_call (E:=strict) CReset (after [CSetSpace 3; CReset] strict4)) = false ∧
  post (eq (after [CSetSpace 3; CReset] strict4))
    (run_call (E:=strict) CReset (after [CSetSpace 3; CReset] strict4)).
Proof.
  apply (retry_fails_again (E:=strict) CReset (after [CSetSpace 3] strict4) _ length_error).
  compute_done.
Defined.

Example reset_returns_after_set_space :
  returned <$> caught [CReset; CReset; CSetSpace 4; CReset] (after [CSetSpace 3] strict4)
    = [false; false; true; true].
Proof. by vm_compute. Qed.
