(* ===== verification/Stacked.v ===== *)
(** * Stacked: an adapter as the engine of an adapter

    [machine<engine>] derives publicly from [engine], so an adapter object
    has every member machine.hh asks of its template parameter: the types,
    the default key and time, and the hooks, which run on the engine
    sub-object.  [adapted E] is [machine<E>] as an engine, and the adapter
    over it is [machine<machine<E>>]: an object with the engine of [E], the
    key cached by the inner adapter and the key cached by the outer one.
    The inner adapter is a virtual base constructed with no argument before
    the body of the outer constructor runs.

    The theorems say that the outer adapter is the adapter of [E] again:
    every call does to the engine and to the outer key what it does on
    [machine<E>], on every engine, and on a lawful engine the two
    constructions give the same engine state, so that no session tells a
    stacked adapter from a plain one. *)

From Stdlib Require Import ZArith Lia.
From stdpp Require Import prelude.
From S2P Require Import Prelude Collect Limits Engine Engines Machine Spec Scenarios.
From S2P Require Import Lifecycle Guarantees.

Local Open Scope comp_scope.

Section Adapted.
Context (E : Engine).

(** [machine<E>] as a template parameter: the members it inherits from [E],
    each hook on the engine sub-object; a default-constructed object is
    [machine<E>()]. *)
Definition adapted : Engine := {|
  size_cell := @size_cell E;
  size_push := @size_push E;
  size_pull := @size_pull E;
  size_pull_limits := @size_pull_limits E;
  exn := @exn E;
  engine := machine (E:=E);
  engine_init := built (E:=E) [];
  __default_key := @__default_key E;
  __default_time := @__default_time E;
  __set_key k := on_engine (__set_key k);
  __set_space n := on_engine (__set_space n);
  __set_time n := on_engine (__set_time n);
  __reset := on_engine __reset;
  push b := on_engine (push b);
  pull := on_engine pull;
|}.

(** The stacked object without its inner key: the engine and the key the
    outer adapter caches. *)
Definition flat (m : machine (E:=adapted)) : machine (E:=E) :=
  Machine (E:=E) (base (base m)) (key m).

(** A stacked object and the plain object with its engine and outer key. *)
Definition flattens (m : machine (E:=adapted)) (m0 : machine (E:=E)) : Prop :=
  flat m = m0.

End Adapted.

Arguments flat {E} m.
Arguments flattens {E} m m0.

#[export] Instance adapted_dec E `{!EngineDec E} : EngineDec (adapted E).
Proof. split; simpl; apply _. Defined.

(** * Every call on the stacked adapter is the call on the plain one *)

Section Calls.
Context (E : Engine).
Implicit Types (m : machine (E:=adapted E)) (mi : machine (E:=E)).
Implicit Types (h : hook (E:=E)) (hs : list (hook (E:=E))).
Implicit Types (c : call (E:=E)) (cs : list (call (E:=E))).

(** The inner adapter with engine [s] and key [k]. *)
Definition over (k : list (@size_cell E)) (mi : machine (E:=E)) (s : @engine E) : Prop :=
  mi = Machine (E:=E) s k.

(** A hook of the inner adapter is the hook of the engine, and leaves the
    inner key. *)
Lemma adapted_hook h s k :
  outcome_rel (over k)
    (run_hook (E:=adapted E) h (Machine (E:=E) s k)) (run_hook (E:=E) h s).
Proof.
  destruct h; simpl; unfold bind, ret, on_engine, zoom; simpl;
    match goal with |- context [?hook s] => by destruct (hook s) end.
Qed.

Lemma adapted_hooks hs mi :
  outcome_rel (fun mi' s' => base mi' = s')
    (run_hooks (E:=adapted E) hs mi) (run_hooks (E:=E) hs (base mi)).
Proof.
  apply (outcome_rel_impl (over (key mi))); [by intros mi' s' ->|].
  apply collect_rel; [|by destruct mi]. intros h mi1 s1 ->. apply adapted_hook.
Qed.

(** One call on the two objects. *)
Lemma stacked_call c m :
  outcome_rel flattens (run_call (E:=adapted E) c m) (run_call (E:=E) c (flat m)).
Proof.
  rewrite !run_call_spec_call. unfold spec_call.
  pose proof (adapted_hooks (hooks_of (E:=E) c (key m)) (base m)) as H.
  change (hooks_of (E:=adapted E) c (key m)) with (hooks_of (E:=E) c (key m)).
  destruct (run_hooks (E:=adapted E) _ _), (run_hooks (E:=E) _ _); simpl in *;
    try done; destruct H as [<- ->]; [done|].
  by destruct c.
Qed.

(** A session on the two objects. *)
Lemma stacked_session cs m (m0 : machine (E:=E)) :
  flattens m m0 ->
  outcome_rel flattens (run_calls (E:=adapted E) cs m) (run_calls (E:=E) cs m0).
Proof.
  apply collect_rel. intros c m1 m2 <-. apply stacked_call.
Qed.

End Calls.

(** * Construction *)

Section Construction.
Context `{E : Engine} `{!EngineView E} `{!EngineLaws E}.
Implicit Types (k : list size_cell) (s : engine).

(** On a lawful engine the hooks of a construction end in the same engine
    state from wherever they start: [__reset] takes the engine to the
    baseline of the space and the time just set. *)
Lemma ctor_hooks_baseline k s s' bs :
  run_hooks (hooks_of_ctor k) s = Returns s' bs ->
  run_hooks [HSetKey (resolve k)] (baseline (length (resolve k)) __default_time)
    = Returns s' bs.
Proof.
  unfold run_hooks. cbn [hooks_of_ctor collect run_hook]. unfold bind, ret.
  destruct (__set_space _ s) as [s1 u1| |] eqn:H1; [|done..].
  destruct (__set_time _ s1) as [s2 u2| |] eqn:H2; [|done..].
  destruct (__reset s2) as [s3 u3| |] eqn:H3; [|done..].
  apply set_space_view in H1 as [Hs1 _]. apply set_time_view in H2 as [Hs2 Ht2].
  apply reset_baseline in H3 as ->. rewrite Hs2, Ht2, Hs1.
  by destruct (__set_key _ _).
Qed.

Lemma ctor_hooks_confluent k s1 s2 s1' s2' bs1 bs2 :
  run_hooks (hooks_of_ctor k) s1 = Returns s1' bs1 ->
  run_hooks (hooks_of_ctor k) s2 = Returns s2' bs2 ->
  s1' = s2'.
Proof. intros H1%ctor_hooks_baseline H2%ctor_hooks_baseline. congruence. Qed.

End Construction.

Section Stacked.
Context `{E : Engine} `{!EngineView E} `{!EngineLaws E}.
Implicit Types (k : list size_cell) (cs : list (call (E:=E))).

(** The two constructions give the same engine and the same outer key. *)
Lemma stacked_construct k (m : machine (E:=adapted E)) (m0 : machine (E:=E)) :
  construct (E:=adapted E) k = Returns tt m ->
  construct (E:=E) k = Returns tt m0 ->
  flattens m m0.
Proof.
  intros (bs & H & Hk)%construct_returns (bs0 & H0 & Hk0)%construct_returns.
  pose proof (adapted_hooks E (hooks_of_ctor (E:=E) k) (built (E:=E) [])) as Hr.
  change (run_hooks (E:=adapted E) (hooks_of_ctor (E:=E) k) (built (E:=E) []))
    with (run_hooks (E:=adapted E) (hooks_of_ctor (E:=adapted E) k)
            (engine_init (Engine:=adapted E))) in Hr.
  rewrite H in Hr.
  destruct (run_hooks (E:=E) _ (base (built []))) as [s1 bs1| |] eqn:H1;
    simpl in Hr; try done.
  destruct Hr as [Hb ->]. unfold flattens, flat. destruct m0 as [s0 k0].
  simpl in *. rewrite Hb, Hk, Hk0. f_equal. eapply ctor_hooks_confluent; eauto.
Qed.

(** C31: an adapter stacked on an adapter is the adapter: on a lawful
    engine, where the inner adapter is default-constructed and both
    [machine<machine<E>>] and [machine<E>] are constructed with a key, every
    session ends alike on the two objects: the same blocks, the same
    exception or termination, the same engine and the same cached key. *)
Theorem stacked_adapter k cs (m : machine (E:=adapted E)) (m0 : machine (E:=E)) :
  returns (construct (E:=E) []) = true ->
  construct (E:=adapted E) k = Returns tt m ->
  construct (E:=E) k = Returns tt m0 ->
  outcome_rel flattens (run_calls (E:=adapted E) cs m) (run_calls (E:=E) cs m0).
Proof. intros _ Hm Hm0. by apply stacked_session, (stacked_construct k). Qed.

End Stacked.

(** * The hooks of the adapter as an engine *)

(** The adapter as an engine is as total and as strong as its engine. *)
Lemma on_engine_total `{E : Engine} {A} (c : comp exn engine A) (m : machine) :
  returns (on_engine c m) = returns (c (base m)).
Proof. unfold on_engine, zoom. by destruct (c (base m)). Qed.

#[export] Instance adapted_total E `{!EngineTotal E} : EngineTotal (adapted E).
Proof.
  split; intros; simpl; rewrite on_engine_total;
    [apply (set_key_total (E:=E))|apply (set_space_total (E:=E))
    |apply (set_time_total (E:=E))|apply (reset_total (E:=E))
    |apply (push_total (E:=E))|apply (pull_total (E:=E))].
Qed.

#[export] Instance adapted_strong E `{!EngineStrong E} : EngineStrong (adapted E).
Proof.
  intros h [s k] mi' e H. pose proof (adapted_hook E h s k) as Hr. rewrite H in Hr.
  destruct (run_hook (E:=E) h s) as [|s' e'|] eqn:Hh; try done.
  destruct Hr as [-> _]. by apply hook_strong in Hh as ->.
Qed.

(** * On the mixer *)

(** The stacked object of the scenario. *)
Definition stacked4 : machine (E:=adapted mixer) := built (E:=adapted mixer) key4.

Lemma stacked_adapter_witness :
  outcome_rel flattens (run_calls (E:=adapted mixer) busy stacked4)
    (run_calls (E:=mixer) busy mixer4).
Proof.
  apply (stacked_adapter (E:=mixer) key4 busy); [done|..]; by apply construct_built.
Defined.

(** The inner adapter keeps the default key it was constructed with, and
    the two objects hand out the same blocks. *)
Example stacked_keys :
  key (base stacked4) = mix_default_key ∧ key stacked4 = key4 ∧
  blocks (E:=adapted mixer) busy stacked4 = blocks (E:=mixer) busy mixer4.
Proof. split_and!; by vm_compute. Qed.

(** * Hooks called on the object *)

(** The hooks are members of the adapter object.  Called on it directly,
    [__set_key] installs a key that the adapter does not cache: the blocks
    that follow come from the new key, the cached key is the old one, and
    [reset] goes back to it. *)
Example direct_set_key_bypasses_cache :
  let m := default mixer4
             (state_of (run_hook (E:=adapted mixer) (HSetKey (map (of_Z u32) [5; 6]%Z)) mixer4)) in
  key m = key4 ∧
  blocks [CShr] m ≠ blocks [CShr] mixer4 ∧
  after [CReset] m = mixer4.
Proof. split_and!; [by vm_compute|compute_done..]. Qed.
