(* ===== verification/Natural.v ===== *)
(** * Natural: the adapter routes cells and blocks, it does not read them

    The specification calls the blocks opaque values that the adapter never
    interprets, only routes.  A [morphism] from an engine to another
    converts cells, blocks and exceptions and relates the states; it is
    [Natural] when the default keys correspond and every hook of the first
    engine, run from related states, ends as the converted hook of the
    second.  The theorem says that the adapter carries a natural morphism
    of engines over to sessions: the converted calls on the second adapter
    end as the calls on the first, with the blocks and the exception
    converted.  The adapter looks at nothing of a key but its length.

    Instances: a relation on the states of one engine that every hook
    keeps, the adapter as an engine of its own, and two tracers under any
    conversion. *)

From Stdlib Require Import ZArith Lia.
From stdpp Require Import prelude.
From S2P Require Import Prelude Collect Limits Engine Engines Machine Spec Scenarios.
From S2P Require Import Observe Stacked.

Local Open Scope comp_scope.

(** * Morphisms of engines *)

(** Conversions of the cells, the blocks fed, the blocks extracted and the
    exceptions, and a relation between the states. *)
Record morphism (E1 E2 : Engine) : Type := Morphism {
  on_cell : @size_cell E1 -> @size_cell E2;
  on_push : @size_push E1 -> @size_push E2;
  on_pull : @size_pull E1 -> @size_pull E2;
  on_exn : @exn E1 -> @exn E2;
  related : @engine E1 -> @engine E2 -> Prop;
}.

Arguments Morphism {E1 E2} on_cell on_push on_pull on_exn related.
Arguments on_cell {E1 E2} φ : rename.
Arguments on_push {E1 E2} φ : rename.
Arguments on_pull {E1 E2} φ : rename.
Arguments on_exn {E1 E2} φ : rename.
Arguments related {E1 E2} φ : rename.

Section MorphismDefs.
Context {E1 E2 : Engine} (φ : morphism E1 E2).

(** A hook and a call of the first engine, converted. *)
Definition on_hook : hook (E:=E1) -> hook (E:=E2) :=
  hook_map (on_cell φ) (on_push φ).

Definition on_call : call (E:=E1) -> call (E:=E2) :=
  call_map (on_cell φ) (on_push φ).

(** Two adapter objects: related engines, and the key of the second the
    converted key of the first. *)
Definition related_objects (m1 : machine (E:=E1)) (m2 : machine (E:=E2)) : Prop :=
  related φ (base m1) (base m2) ∧ key m2 = on_cell φ <$> key m1.

(** The default keys correspond and the hooks commute with the
    conversion. *)
Class Natural : Prop := {
  natural_default_key : @__default_key E2 = on_cell φ <$> @__default_key E1;
  natural_hook h s1 s2 :
    related φ s1 s2 ->
    outcome_sim (related φ) (on_exn φ) (fmap (on_pull φ))
      (run_hook (E:=E1) h s1) (run_hook (E:=E2) (on_hook h) s2);
}.

End MorphismDefs.

(** * The adapter carries morphisms over *)

Section Naturality.
Context {E1 E2 : Engine} (φ : morphism E1 E2) `{!Natural φ}.
Implicit Types (c : call (E:=E1)) (cs : list (call (E:=E1))).

Lemma natural_hooks (hs : list (hook (E:=E1))) s1 s2 :
  related φ s1 s2 ->
  outcome_sim (related φ) (on_exn φ) (fmap (on_pull φ))
    (run_hooks (E:=E1) hs s1) (run_hooks (E:=E2) (on_hook φ <$> hs) s2).
Proof. apply collect_sim. intros h t1 t2. apply natural_hook, _. Qed.

(** One call and its conversion. *)
Lemma natural_call c (m1 : machine (E:=E1)) (m2 : machine (E:=E2)) :
  related_objects φ m1 m2 ->
  outcome_sim (related_objects φ) (on_exn φ) (fmap (on_pull φ))
    (run_call (E:=E1) c m1) (run_call (E:=E2) (on_call φ c) m2).
Proof.
  intros [Hb Hk]. rewrite !run_call_spec_call. unfold spec_call, on_call.
  rewrite Hk, (hooks_of_map _ _ (natural_default_key φ)),
    (key_after_map _ _ (natural_default_key φ)).
  pose proof (natural_hooks (hooks_of c (key m1)) _ _ Hb) as H. unfold on_hook in H.
  destruct (run_hooks (E:=E1) _ _) as [t1 bs1|t1 e1|],
    (run_hooks (E:=E2) _ _) as [t2 bs2|t2 e2|]; simpl in *; try done;
    destruct H as [H ->].
  - split; [done|]. by destruct bs1.
  - by destruct c.
Qed.

(** C15: the adapter routes cells and blocks without reading them: for a
    natural morphism of engines, a session on the first adapter and the
    converted session on the second, from related objects, end alike: both
    return, the blocks of the second being the converted blocks of the
    first, both throw, the exception being the converted exception, or both
    terminate the program; and the objects left are related. *)
Theorem adapter_natural cs (m1 : machine (E:=E1)) (m2 : machine (E:=E2)) :
  related_objects φ m1 m2 ->
  outcome_sim (related_objects φ) (on_exn φ) (fmap (on_pull φ))
    (run_calls (E:=E1) cs m1) (run_calls (E:=E2) (on_call φ <$> cs) m2).
Proof. apply collect_sim. intros c t1 t2. apply natural_call. Qed.

(** The blocks of the converted session are the converted blocks. *)
Lemma natural_blocks cs (m1 : machine (E:=E1)) (m2 : machine (E:=E2)) :
  related_objects φ m1 m2 ->
  blocks (E:=E2) (on_call φ <$> cs) m2 =
  (fmap (M:=list) (on_pull φ) : list (@size_pull E1) -> list (@size_pull E2))
    <$> blocks (E:=E1) cs m1.
Proof.
  intros Hm. unfold blocks.
  assert (outcome_sim (related_objects φ) (on_exn φ) (fmap (on_pull φ))
            (run_calls (E:=E1) cs m1) (run_calls (E:=E2) (on_call φ <$> cs) m2)) as H
    by (apply collect_sim; [|done]; intros c t1 t2; apply natural_call).
  destruct (run_calls (E:=E1) cs m1), (run_calls (E:=E2) _ m2); simpl in *;
    try done. by destruct H as [_ ->].
Qed.

(** Where the default-constructed engines are related and the default
    times equal, a construction that returns and the construction with the
    converted key give related objects. *)
Lemma construct_natural (k : list (@size_cell E1)) (m1 : machine (E:=E1)) :
  related φ engine_init engine_init ->
  @__default_time E2 = @__default_time E1 ->
  construct (E:=E1) k = Returns tt m1 ->
  exists m2, construct (E:=E2) (on_cell φ <$> k) = Returns tt m2 ∧
    related_objects φ m1 m2.
Proof.
  intros Hi Ht (bs1 & H1 & Hk)%construct_returns.
  pose proof (natural_hooks (hooks_of_ctor k) _ _ Hi) as H. unfold on_hook in H.
  rewrite H1, <-(hooks_of_ctor_map _ (on_push φ) (natural_default_key φ) _ Ht) in H.
  destruct (run_hooks (E:=E2) _ _) as [t2 bs2| |] eqn:H2; [|done..].
  destruct H as [H ->]. exists (Machine (E:=E2) t2 (resolve (on_cell φ <$> k))).
  split; [apply construct_returns; eauto|].
  split; [done|]. simpl. by rewrite Hk, (resolve_map _ (natural_default_key φ)).
Qed.

End Naturality.

(** * Natural morphisms *)

(** A relation on the states of one engine that every hook keeps, with no
    conversion. *)
Lemma bisimulation_natural `{E : Engine} (Re : relation engine) :
  hook_bisimulation Re -> Natural (Morphism (E1:=E) (E2:=E) id id id id Re).
Proof.
  intros HRe. split; simpl; [by rewrite list_fmap_id|]. intros h s1 s2 Hs.
  unfold on_hook. simpl. rewrite hook_map_id.
  apply (outcome_sim_ext _ id id id); [done|by intros []|].
  by apply outcome_sim_rel, HRe.
Qed.

(** The adapter as an engine, onto its engine. *)
#[export] Instance adapted_natural (E : Engine) :
  Natural (Morphism (E1:=adapted E) (E2:=E) id id id id (fun mi s => base mi = s)).
Proof.
  split; simpl; [by rewrite list_fmap_id|]. intros h [s k] s2 <-.
  unfold on_hook. simpl. rewrite hook_map_id.
  apply (outcome_sim_ext _ id id id); [done|by intros []|].
  apply outcome_sim_rel. eapply outcome_rel_impl, adapted_hook. by intros mi' s' ->.
Qed.

(** Two tracers, under any conversion of cells and blocks that takes the
    default key to the default key and the largest block to the largest
    block. *)
Lemma tracer_natural (E1 E2 : Engine) (f : @size_cell E1 -> @size_cell E2)
    (g : @size_push E1 -> @size_push E2) (p : @size_pull E1 -> @size_pull E2) :
  @__default_key E2 = f <$> @__default_key E1 ->
  p limits_max = limits_max ->
  Natural (Morphism (E1:=tracer E1) (E2:=tracer E2) f g p id
             (fun log1 log2 => log2 = hook_map f g <$> log1)).
Proof.
  intros Hk Hp. split; [done|]. intros h log1 log2 ->.
  destruct h; simpl; unfold bind, ret, record; simpl;
    rewrite fmap_app, ?Hp; done.
Qed.

(** * On the tracer of the mixer *)

(** Every block fed is incremented on its way in. *)
Definition incremented : morphism (tracer mixer) (tracer mixer) :=
  Morphism (E1:=tracer mixer) (E2:=tracer mixer) id
    (fun b => word_add b (of_Z u32 1)) id id
    (fun log1 log2 => log2 = hook_map id (fun b => word_add b (of_Z u32 1)) <$> log1).

#[export] Instance incremented_natural : Natural incremented.
Proof. apply (tracer_natural mixer mixer); [by rewrite list_fmap_id|done]. Qed.

Lemma adapter_natural_witness :
  outcome_sim (related_objects incremented) id (fmap id)
    (run_calls (E:=tracer mixer) busy tracer4)
    (run_calls (E:=tracer mixer) (on_call incremented <$> busy) tracer4).
Proof. apply (adapter_natural incremented busy tracer4 tracer4). by split. Defined.

(** The session fed [7]; the converted session feeds [8]. *)
Example incremented_busy :
  on_call incremented <$> busy = [CShr; feed 8; CCall; CReset; CShr; CShr].
Proof. done. Qed.
