(* ===== verification/Ordering.v ===== *)
(** * Ordering: the hooks each method calls, as the tracer logs them

    The tracer of an engine [E] has the types of [E] and logs the hooks it
    is called with.  Run on the tracer, the bodies of machine.hh write down
    what they do to an engine: the theorems fix the order of the calls
    inside [set_key], [reset] and the constructor, show that the log of a
    session is the hook sequence of the specification, and that replaying
    the log on [E] is running the session on [E]. *)

From Stdlib Require Import ZArith Lia.
From stdpp Require Import prelude.
From S2P Require Import Prelude Collect Limits Engine Engines Machine Spec Scenarios.

Local Open Scope comp_scope.

(** * The order of the hooks, seen by the tracer *)

Section Tracer.
Context (E : Engine).
Implicit Types (m : machine (E:=tracer E)) (k : list (@size_cell E)).
Implicit Types (c : call (E:=E)) (cs : list (call (E:=E))) (log : list (hook (E:=E))).

(** The object of the tracer with an empty log and the key of [m0].  The
    tracer has the types of [E]: the calls on [E] are calls on it. *)
Definition traced (m0 : machine (E:=E)) : machine (E:=tracer E) :=
  Machine (E:=tracer E) [] (key m0).

(** On the tracer [set_key] logs [__set_space] with the resolved key's
    length and then [__set_key] with its argument, and nothing else: neither
    [__reset] nor [__set_time]; [reset] logs [__reset] and then [__set_key]
    with the cached key; construction logs [__set_space], [__set_time] with
    the default time, [__reset] and [__set_key] with the resolved key, in
    this order. *)
Lemma methods_log k m :
  set_key (E:=tracer E) k m =
    Returns (Machine (E:=tracer E)
               (base m ++ [HSetSpace (length (resolve (E:=E) k)); HSetKey k])
               (resolve (E:=E) k)) tt ∧
  reset m =
    Returns (Machine (E:=tracer E) (base m ++ [HReset; HSetKey (key m)]) (key m)) tt ∧
  construct (E:=tracer E) k =
    Returns tt
      (Machine (E:=tracer E)
         [HSetSpace (length (resolve (E:=E) k)); HSetTime (@__default_time E);
          HReset; HSetKey (resolve (E:=E) k)]
         (resolve (E:=E) k)).
Proof.
  unfold construct. rewrite set_key_run, reset_run, machine_ctor_run. simpl.
  unfold bind, record. by rewrite <-!app_assoc.
Qed.

(** The tracer appends the hooks it is called with to its log. *)
Lemma tracer_hooks (hs : list (hook (E:=E))) log :
  exists bs, run_hooks (E:=tracer E) hs log = Returns (log ++ hs) bs.
Proof.
  unfold run_hooks. revert log. induction hs as [|h hs IH]; intros log.
  - exists []. simpl. unfold ret. by rewrite app_nil_r.
  - destruct (IH (log ++ [h])) as [bs Hbs]. rewrite <-app_assoc in Hbs.
    destruct h; simpl; unfold bind, record, ret; simpl in Hbs; rewrite Hbs; eauto.
Qed.

(** The tracer observes the specification: after any session its log
    is the log before it followed by the hooks of [session_hooks], in
    order, and the cached key is the last key resolved. *)
Lemma session_log cs m :
  exists bs, run_calls (E:=tracer E) cs m =
    Returns (Machine (E:=tracer E)
               (base m ++ session_hooks (E:=E) cs (key m))
               (session_key (E:=E) cs (key m))) bs.
Proof.
  destruct (tracer_hooks (session_hooks (E:=E) cs (key m)) (base m)) as [bs H].
  exists bs. by apply (hooks_run_calls (E:=tracer E)).
Qed.

(** The object a session leaves on the tracer. *)
Lemma after_traced cs (m0 : machine (E:=E)) :
  after (E:=tracer E) cs (traced m0) =
  Machine (E:=tracer E) (session_hooks (E:=E) cs (key m0)) (session_key (E:=E) cs (key m0)).
Proof.
  destruct (tracer_hooks (session_hooks (E:=E) cs (key m0)) []) as [bs H].
  apply (hooks_run_calls (E:=tracer E) cs (traced m0)) in H. unfold after.
  by rewrite H.
Qed.

(** The adapter does to an engine what it tells the tracer: a session
    on any engine returns exactly when the log that the same calls leave on
    the tracer, replayed on the engine hook by hook, returns; the blocks
    are the blocks of the replay, the engine is left as the replay leaves
    it, and the cached key is the key cached on the tracer. *)
Lemma adapter_replays cs (m0 m' : machine (E:=E)) bs :
  run_calls cs m0 = Returns m' bs <->
  run_hooks (E:=E) (base (after (E:=tracer E) cs (traced m0))) (base m0)
    = Returns (base m') bs ∧
  key m' = key (after (E:=tracer E) cs (traced m0)).
Proof.
  rewrite after_traced. cbn [base key]. split; [apply run_calls_hooks|].
  destruct m' as [s' k']. simpl. by intros [H%hooks_run_calls ->].
Qed.

End Tracer.

Arguments traced {E} m0.

(** The log of the scenario's object after a reset and an extraction. *)
Example session_log_tracer4 :
  base (after [CReset; CShr] tracer4) =
  [HSetSpace 4; HSetTime 1; HReset;
   HSetKey key4; HReset; HSetKey key4; HPull].
Proof. compute_done. Qed.

(** The scenario's session on the mixer, replayed from the tracer's log. *)
Example replay_busy :
  run_hooks (E:=mixer) (base (after (E:=tracer mixer) busy (traced mixer4))) (base mixer4) =
  Returns (base (after busy mixer4)) (default [] (blocks busy mixer4)).
Proof. compute_done. Qed.
