(* ===== verification/Widen.v ===== *)
(** * Widen: float blocks as double blocks

    A caller that moves from an engine on [float] blocks to one on [double]
    blocks converts the blocks it feeds and compares the blocks it
    extracts.  [widen] is the conversion [static_cast<double>(float)] on
    the values of [Floats]: a finite value keeps its sign and has its
    mantissa shifted to the 53 bits of binary64, a zero, an infinity or NaN
    stays what it is.  The conversion is exact ([sf_units]), keeps the
    order of IEEE 754 and takes the finite blocks to finite blocks within
    the bounds of the adapter on [double].  It is a [Natural] morphism from
    the echo engine on binary32 to the echo engine on binary64, so the
    adapter carries it over: a session on [machine<echo<float>>] and the
    widened session on [machine<echo<double>>] hand out the same blocks,
    widened. *)

From Stdlib Require Import ZArith Lia.
From Stdlib Require Import Floats.SpecFloat.
From stdpp Require Import prelude.
From S2P Require Import Prelude Collect Limits Floats Engine Engines Machine Spec Scenarios.
From S2P Require Import Bounds Natural.

Local Open Scope Z_scope.

(** * The conversion of values *)

(** The mantissa is shifted left until it has the digits of binary64, and
    the exponent lowered by as much. *)
Definition sf_widen (x : spec_float) : spec_float :=
  match x with
  | S754_finite s m e =>
      let k := float_prec Binary64 - Z.pos (digits2_pos m) in
      S754_finite s (shift_pos (Z.to_pos k) m) (e - k)
  | _ => x
  end.

(** The value in units of [2^-1074], the smallest positive value of
    binary64: an integer for every finite value of both formats. *)
Definition sf_units (x : spec_float) : Z :=
  match x with
  | S754_finite s m e => cond_Zopp s (Z.pos m * 2 ^ (e + 1074))
  | _ => 0
  end.

(** * Mantissas *)

Lemma digits2_pos_shift (k m : positive) :
  digits2_pos (shift_pos k m) = (digits2_pos m + k)%positive.
Proof.
  unfold shift_pos. induction k as [|k IH] using Pos.peano_ind.
  - simpl. by rewrite Pos.add_1_r.
  - rewrite Pos.iter_succ. simpl. rewrite IH. lia.
Qed.

Lemma shift_pos_val (k m : positive) : Z.pos (shift_pos k m) = Z.pos m * 2 ^ Z.pos k.
Proof. rewrite shift_pos_correct. change (Z.pow_pos 2 k) with (2 ^ Z.pos k). lia. Qed.

(** The mantissa has at least the value of its highest digit. *)
Lemma digits2_pos_lower (m : positive) : 2 ^ (Z.pos (digits2_pos m) - 1) <= Z.pos m.
Proof.
  induction m as [m IH|m IH|]; simpl; [| |done];
    rewrite Pos2Z.inj_succ; replace (Z.succ (Z.pos (digits2_pos m)) - 1)
      with (Z.succ (Z.pos (digits2_pos m) - 1)) by lia;
    rewrite Z.pow_succ_r by lia; lia.
Qed.

Lemma digits2_pos_mono (m1 m2 : positive) :
  (digits2_pos m1 < digits2_pos m2)%positive -> (m1 < m2)%positive.
Proof.
  intros H. pose proof (digits2_pos_bound m1). pose proof (digits2_pos_lower m2).
  assert (2 ^ Z.pos (digits2_pos m1) <= 2 ^ (Z.pos (digits2_pos m2) - 1))
    by (apply Z.pow_le_mono_r; lia).
  lia.
Qed.

Lemma shift_pos_compare (k m1 m2 : positive) :
  (shift_pos k m1 ?= shift_pos k m2)%positive = (m1 ?= m2)%positive.
Proof.
  unfold shift_pos. induction k as [|k IH] using Pos.peano_ind; [done|].
  by rewrite !Pos.iter_succ.
Qed.

(** * Values of binary32 *)

(** A finite value of binary32 has at most 24 digits and an exponent from
    -149 to 104; below 24 digits the exponent is -149. *)
Lemma float32_finite s m e :
  Is_true (float_valid Binary32 (S754_finite s m e)) ->
  Z.pos (digits2_pos m) <= 24 ∧ -149 <= e <= 104 ∧
  (Z.pos (digits2_pos m) = 24 ∨ e = -149).
Proof.
  unfold float_valid, valid_binary, bounded, canonical_mantissa, fexp, emin. simpl.
  intros [Hm%Is_true_true%Z.eqb_eq He%Is_true_true%Z.leb_le]%andb_prop_elim. lia.
Qed.

Lemma sf_widen_valid x :
  Is_true (float_valid Binary32 x) -> Is_true (float_valid Binary64 (sf_widen x)).
Proof.
  destruct x as [s|s| |s m e]; try done. intros (Hd & He & _)%float32_finite.
  unfold float_valid, valid_binary, bounded, canonical_mantissa, fexp, emin. simpl.
  rewrite digits2_pos_shift, Pos2Z.inj_add, Z2Pos.id by lia.
  apply andb_prop_intro. split; apply Is_true_true; [apply Z.eqb_eq|apply Z.leb_le]; lia.
Qed.

(** * The conversion of blocks *)

Definition widen (a : float Binary32) : float Binary64 :=
  Float (sf_widen (float_val a)) (sf_widen_valid _ (float_ok a)).

(** The conversion is exact: the value, counted in units of [2^-1074], is
    the same. *)
Lemma sf_widen_units x :
  Is_true (float_valid Binary32 x) -> sf_units (sf_widen x) = sf_units x.
Proof.
  destruct x as [s|s| |s m e]; try done. intros (Hd & He & _)%float32_finite.
  pose proof (Pos2Z.is_pos (digits2_pos m)). simpl. f_equal.
  rewrite shift_pos_val, Z2Pos.id, <-Z.mul_assoc, <-Z.pow_add_r by lia.
  f_equal. f_equal. lia.
Qed.

(** The order of two finite values of a sign is the order of their
    exponents, and of their mantissas where the exponents agree: the
    conversion keeps both. *)
Lemma sf_widen_compare_finite m1 e1 m2 e2 :
  Is_true (float_valid Binary32 (S754_finite false m1 e1)) ->
  Is_true (float_valid Binary32 (S754_finite false m2 e2)) ->
  SFcompare (sf_widen (S754_finite false m1 e1)) (sf_widen (S754_finite false m2 e2))
    = SFcompare (S754_finite false m1 e1) (S754_finite false m2 e2).
Proof.
  intros (Hd1 & He1 & Hn1)%float32_finite (Hd2 & He2 & Hn2)%float32_finite.
  simpl. f_equal. fold (Pos.compare m1 m2).
  fold (Pos.compare (shift_pos (Z.to_pos (53 - Z.pos (digits2_pos m1))) m1)
          (shift_pos (Z.to_pos (53 - Z.pos (digits2_pos m2))) m2)).
  destruct (Z.compare_spec e1 e2) as [->|?|?];
    [|by rewrite (proj2 (Z.compare_lt_iff _ _)) by lia
     |by rewrite (proj2 (Z.compare_gt_iff _ _)) by lia].
  destruct (Pos.compare_spec (digits2_pos m1) (digits2_pos m2)) as [Hd|Hd|Hd].
  - by rewrite Hd, Z.compare_refl, shift_pos_compare.
  - rewrite (proj2 (Z.compare_lt_iff _ _)) by lia. symmetry.
    by apply Pos.compare_lt_iff, digits2_pos_mono.
  - rewrite (proj2 (Z.compare_gt_iff _ _)) by lia. symmetry.
    by apply Pos.compare_gt_iff, digits2_pos_mono.
Qed.

Lemma sf_widen_opp x : sf_widen (SFopp x) = SFopp (sf_widen x).
Proof. by destruct x. Qed.

Lemma sf_widen_compare x y :
  Is_true (float_valid Binary32 x) -> Is_true (float_valid Binary32 y) ->
  SFcompare (sf_widen x) (sf_widen y) = SFcompare x y.
Proof.
  destruct x as [s1|s1| |[] m1 e1], y as [s2|s2| |[] m2 e2]; try done; intros Hx Hy.
  - change (S754_finite true m1 e1) with (SFopp (S754_finite false m1 e1)).
    change (S754_finite true m2 e2) with (SFopp (S754_finite false m2 e2)).
    rewrite !sf_widen_opp, !SFcompare_opp. by apply sf_widen_compare_finite.
  - by apply sf_widen_compare_finite.
Qed.

Section Widen.
Implicit Types (a b : float Binary32).

(** [widen] keeps [<=] and [<] of IEEE 754, in both directions. *)
Lemma widen_le a b : float_le (widen a) (widen b) = float_le a b.
Proof.
  unfold float_le, SFleb. simpl. by rewrite sf_widen_compare by apply float_ok.
Qed.

Lemma widen_lt a b : float_lt (widen a) (widen b) = float_lt a b.
Proof.
  unfold float_lt, SFltb. simpl. by rewrite sf_widen_compare by apply float_ok.
Qed.

Lemma widen_finite a : float_finite (widen a) = float_finite a.
Proof. unfold float_finite. simpl. by destruct (float_val a). Qed.

Lemma widen_zero : widen (float_zero Binary32) = float_zero Binary64.
Proof. by apply float_eq. Qed.

(** A finite block of binary32, widened, lies within the bounds of the
    adapter on binary64 blocks, and within the widened bounds of the
    adapter on binary32 blocks. *)
Lemma widen_within_limits a :
  float_finite a = true ->
  limits_le (min (E:=echo Binary64)) (widen a) = true ∧
  limits_le (widen a) (max (E:=echo Binary64)) = true ∧
  limits_le (widen (min (E:=echo Binary32))) (widen a) = true ∧
  limits_le (widen a) (widen (max (E:=echo Binary32))) = true.
Proof.
  intros Ha. split_and!.
  - apply float_finite_within. by rewrite widen_finite.
  - apply float_finite_within. by rewrite widen_finite.
  - change (float_le (widen (min (E:=echo Binary32))) (widen a) = true).
    rewrite widen_le. by apply float_finite_within.
  - change (float_le (widen a) (widen (max (E:=echo Binary32))) = true).
    rewrite widen_le. by apply float_finite_within.
Qed.

End Widen.

(** * From the echo engine on binary32 to the echo engine on binary64 *)

Local Open Scope comp_scope.

Definition widen_state (s : echo_state Binary32) : echo_state Binary64 :=
  EchoState (echo_space s) (echo_time s) (widen <$> echo_cells s) (widen (echo_last s)).

(** Cells and blocks are widened; the echo engines throw nothing. *)
Definition widening : morphism (echo Binary32) (echo Binary64) :=
  Morphism (E1:=echo Binary32) (E2:=echo Binary64) widen widen widen id
    (fun s1 s2 => s2 = widen_state s1).

Lemma widen_head (k : list (float Binary32)) :
  default (float_zero Binary64) (head (widen <$> k)) =
  widen (default (float_zero Binary32) (head k)).
Proof. destruct k; simpl; by rewrite ?widen_zero. Qed.

#[export] Instance widening_natural : Natural widening.
Proof.
  split; [simpl; by rewrite widen_zero|]. intros h s1 s2 ->.
  destruct h; simpl; unfold bind, ret, modify, gets; simpl; (split; [|done]);
    unfold widen_state; simpl; by rewrite ?widen_head, ?widen_zero.
Qed.

(** The objects the two adapters construct with no key are related. *)
Lemma widening_built :
  related_objects widening (built (E:=echo Binary32) []) (built (E:=echo Binary64) []).
Proof. split; simpl; compute_done. Qed.

(** The adapter carries the conversion over: whatever the calls, the
    widened session on [machine<echo<double>>] hands out the blocks of the
    session on [machine<echo<float>>], widened. *)
Lemma widened_blocks (cs : list (call (E:=echo Binary32))) :
  blocks (E:=echo Binary64) (on_call widening <$> cs) (built (E:=echo Binary64) []) =
  (fmap (M:=list) widen : list (float Binary32) -> list (float Binary64))
    <$> blocks (E:=echo Binary32) cs (built (E:=echo Binary32) []).
Proof. apply (natural_blocks widening), widening_built. Qed.

(** The value 1.0 of binary32 is the value 1.0 of binary64, and comes back
    as such from the adapter on binary64 blocks. *)
Example widen_one :
  float_val (widen (Float (float_one Binary32) (float_one_valid _))) = float_one Binary64 ∧
  blocks (E:=echo Binary64)
    (on_call widening <$> [CShl (Float (float_one Binary32) (float_one_valid _)); CShr])
    (built (E:=echo Binary64) [])
  = Some [Float (float_one Binary64) (float_one_valid _)].
Proof. split; [done|compute_done]. Qed.

(** The smallest positive value of binary32, [2^-149], has one digit; in
    binary64 it is the normal value [2^52 * 2^-201]. *)
Example widen_subnormal :
  sf_widen (S754_finite false 1 (-149)) = S754_finite false 4503599627370496 (-201) ∧
  sf_units (S754_finite false 1 (-149)) = 2 ^ 925.
Proof. done. Qed.
